(** * Mocha reporters: a shallow embedding of the shared rendering core

    The development follows the base reporter (module [Base], which the
    source tree carries in [lib/reporters/html.js] after the HTML
    reporter: error-stack flattening, diff generation, the pass and fail
    handlers, the failure listing and the epilogue),
    [lib/reporters/json.js] (the cycle cleaner),
    [lib/reporters/xunit.js] (the root element and the test lines of the
    report), the Dot, Landing and List reporters (their event handlers)
    and the HTML reporter (the text of a failure and the placeholders of
    [fragment]).

    JavaScript strings are modelled by [string] (sequences of code units
    in the Latin-1 range), numbers by [Z] and [Q], objects live in
    explicit stores indexed by references, and every call of
    [console.log] is recorded in a trace.  The packages the reporters
    import ([diff], [ms], [utils]) are parameters. *)

From Stdlib Require Import String Ascii ZArith QArith List Lia.
From stdpp Require Import base option list gmap strings pretty.

Open Scope string_scope.

Set Warnings "-register-all,-clear-no-such-hyp".

(** ** JavaScript string primitives *)

Module JsString.

Definition nl : string := String "010"%char EmptyString.
Definition cr : string := String "013"%char EmptyString.
Definition esc : string := String "027"%char EmptyString.
Definition dquote : string := String "034"%char EmptyString.
Definition backslash : string := String "092"%char EmptyString.

(** [s.length] *)
Definition len (s : string) : nat := String.length s.

(** [!s] for a string: only the empty string is falsy. *)
Definition falsy (s : string) : bool :=
  match s with EmptyString => true | String _ _ => false end.

(** [s.slice(0, n)] for [0 <= n]. *)
Fixpoint take (n : nat) (s : string) : string :=
  match n, s with
  | S n', String a s' => String a (take n' s')
  | _, _ => EmptyString
  end.

(** [s.slice(n)] for [0 <= n]. *)
Fixpoint drop (n : nat) (s : string) : string :=
  match n, s with
  | S n', String _ s' => drop n' s'
  | _, _ => s
  end.

(** [s.indexOf(pat)], with [None] for [-1]. *)
Definition indexOf (pat s : string) : option nat := String.index 0 pat s.

(** [s.match(/pat/)] used as a truth value, for a literal pattern. *)
Definition contains (pat s : string) : bool :=
  match indexOf pat s with Some _ => true | None => false end.

(** [s.split(c)] for a one-character separator. *)
Fixpoint split (c : ascii) (s : string) : list string :=
  match s with
  | EmptyString => [EmptyString]
  | String a s' =>
      if Ascii.eqb a c then EmptyString :: split c s'
      else match split c s' with
           | [] => [String a EmptyString]
           | x :: xs => String a x :: xs
           end
  end.

(** [l.join(sep)] *)
Definition join (sep : string) (l : list string) : string :=
  String.concat sep l.

(** [s.repeat(n)] *)
Fixpoint repeat (s : string) (n : nat) : string :=
  match n with
  | O => EmptyString
  | S n' => s +:+ repeat s n'
  end.

Definition line_terminator (a : ascii) : bool :=
  Ascii.eqb a "010"%char || Ascii.eqb a "013"%char.

Fixpoint indent_rest (ind s : string) : string :=
  match s with
  | EmptyString => EmptyString
  | String a s' =>
      String a (if line_terminator a then ind +:+ indent_rest ind s'
                else indent_rest ind s')
  end.

(** [s.replace(/^/gm, ind)]: [ind] is inserted at the start of the text
    and after every line terminator. *)
Definition indent_lines (ind s : string) : string :=
  ind +:+ indent_rest ind s.

(** The longest prefix of [s] without the character [c]. *)
Fixpoint before (c : ascii) (s : string) : string :=
  match s with
  | EmptyString => EmptyString
  | String a s' => if Ascii.eqb a c then EmptyString else String a (before c s')
  end.

(** [String(n)] for an integer. *)
Definition of_Z (n : Z) : string := pretty n.

End JsString.

(** ** Errors, tests and the object store *)

Abbreviation ref := positive.

(** The values [err.actual] and [err.expected] can hold.  [JObject cls id]
    is any non-primitive value, [cls] being the class that
    [Object.prototype.toString] reports for it. *)
Inductive JsVal :=
| JUndefined
| JNull
| JBool (b : bool)
| JNum (n : Z)
| JStr (s : string)
| JObject (cls : string) (id : positive).

(** An error object as the reporters read it: a thrown object, [Error]
    instance or not ([e_isError] is [err instanceof Error]).  A missing or
    falsy string property is the empty string; [e_inspect] is [Some s]
    when [typeof err.inspect === 'function'] and [err.inspect() + ''] is
    [s]; [e_cause] is [None] when [err.cause] is falsy; [e_showDiff] is
    [false] exactly when [err.showDiff === false]; [e_multiple] is [None]
    while [err.multiple] is undefined. *)
Record ErrObj := mkErr {
  e_isError : bool;
  e_inspect : option string;
  e_message : string;
  e_stack : string;
  e_cause : option ref;
  e_uncaught : bool;
  e_showDiff : bool;
  e_actual : JsVal;
  e_expected : JsVal;
  e_multiple : option (list ref)
}.

Abbreviation heap := (gmap ref ErrObj).

Record FullErrorStack := mkFES {
  fes_message : string;
  fes_msg : string;
  fes_stack : string
}.

(** ** Results of fallible code *)

Inductive Exn :=
| TypeError
| RangeError
| SyntaxError
| LibraryError (what : string).

(** The result of a pure JavaScript function: a value or a thrown
    exception. *)
Inductive result (A : Type) :=
| Ok (a : A)
| Throw (e : Exn).
Arguments Ok {A} a.
Arguments Throw {A} e.

#[global] Instance result_ret : MRet result := @Ok.
#[global] Instance result_bind : MBind result := fun A B f m =>
  match m with
  | Ok a => f a
  | Throw e => Throw e
  end.

(** [try { body } catch (err) { handler }] *)
Definition try_catch {A} (body : result A) (handler : Exn → result A)
    : result A :=
  match body with
  | Throw e => handler e
  | Ok a => Ok a
  end.

(** The result of a computation over the object store.  [Ret] is a normal
    return, [Raise] a thrown exception.  [Stuck] marks what no JavaScript
    run can do: read through a reference that is not allocated, or
    exhaust the frames granted to a recursive function. *)
Inductive outcome (A : Type) :=
| Ret (a : A)
| Raise (e : Exn)
| Stuck.
Arguments Ret {A} a.
Arguments Raise {A} e.
Arguments Stuck {A}.

Definition of_result {A} (r : result A) : outcome A :=
  match r with
  | Ok a => Ret a
  | Throw e => Raise e
  end.

Module Base.

Import JsString.

Definition circular : FullErrorStack :=
  mkFES EmptyString "<circular>" EmptyString.

(** [seen && seen.has(err)] *)
Definition seen_has (seen : option (gset ref)) (err : ref) : bool :=
  match seen with
  | Some s => bool_decide (err ∈ s)
  | None => false
  end.

(** [seen = seen || new Set(); seen.add(err)] *)
Definition seen_add (seen : option (gset ref)) (err : ref) : gset ref :=
  {[err]} ∪ default ∅ seen.

Definition err_message (o : ErrObj) : string :=
  match e_inspect o with
  | Some s => s
  | None => e_message o
  end.

(** [err.stack || message] *)
Definition raw_stack (o : ErrObj) : string :=
  if falsy (e_stack o) then err_message o else e_stack o.

(** [message ? stack.indexOf(message) : -1] *)
Definition message_index (message stack : string) : option nat :=
  if falsy message then None else indexOf message stack.

Definition caused_by (cs : FullErrorStack) : string :=
  nl +:+ "   Caused by: " +:+ fes_msg cs +:+
  (if falsy (fes_stack cs) then EmptyString else nl +:+ fes_stack cs).

(** [getFullErrorStack(err, seen)].  [fuel] is the number of nested
    frames the call may use; the result is [None] when they do not
    suffice or when a reference is not allocated in [h]. *)
Fixpoint getFullErrorStack (fuel : nat) (h : heap) (err : ref)
    (seen : option (gset ref)) : option FullErrorStack :=
  match fuel with
  | O => None
  | S fuel' =>
      if seen_has seen err then Some circular
      else
        o ← h !! err;
        let message := err_message o in
        let stack := raw_stack o in
        match message_index message stack with
        | None => Some (mkFES message message stack)
        | Some i =>
            let index := i + len message in
            let msg := take index stack in
            let stack' := drop (index + 1) stack in
            match e_cause o with
            | None => Some (mkFES message msg stack')
            | Some c =>
                causeStack ← getFullErrorStack fuel' h c
                               (Some (seen_add seen err));
                Some (mkFES message msg (stack' +:+ caused_by causeStack))
            end
        end
  end.


(** ** Configuration and external collaborators *)

(** The module-level settings of [base.js] as they stand when a rendering
    function is called. *)
Class Config := {
  useColors : bool;
  inlineDiffs : bool;
  maxDiffSize : Z;
  hideDiff : bool
}.

(** One change object of [diff.diffWordsWithSpace]. *)
Record Change := mkChange {
  c_value : string;
  c_added : bool;
  c_removed : bool
}.

(** The packages and helpers [base.js] imports: the [diff] package, whose
    calls may throw, [utils.stringify] and [ms]. *)
Class Lib := {
  createPatch : string → string → string → result string;
  diffWordsWithSpace : string → string → result (list Change);
  stringify : JsVal → string;
  milliseconds : Z → string
}.

Section Rendering.

Context `{cfg : Config} `{lib : Lib}.

(** *** Colors *)

Definition colors_table : list (string * string) :=
  [ ("pass", "90"); ("fail", "31"); ("bright pass", "92");
    ("bright fail", "91"); ("bright yellow", "93"); ("pending", "36");
    ("suite", "0"); ("error title", "0"); ("error message", "31");
    ("error stack", "90"); ("checkmark", "32"); ("fast", "90");
    ("medium", "33"); ("slow", "31"); ("green", "32"); ("light", "90");
    ("diff gutter", "90"); ("diff added", "32"); ("diff removed", "31");
    ("diff added inline", "30;42"); ("diff removed inline", "30;41") ].

Fixpoint assoc (k : string) (l : list (string * string)) : option string :=
  match l with
  | [] => None
  | (k', v) :: l' => if String.eqb k k' then Some v else assoc k l'
  end.

(** [colors[type]] inside a string concatenation. *)
Definition colors (type : string) : string :=
  default "undefined" (assoc type colors_table).

Definition color (type str : string) : string :=
  if negb useColors then str
  else esc +:+ "[" +:+ colors type +:+ "m" +:+ str +:+ esc +:+ "[0m".

Definition colorLines (name str : string) : string :=
  join nl (map (color name) (split "010"%char str)).

(** *** Diffs *)

Definition objToString (v : JsVal) : string :=
  match v with
  | JUndefined => "[object Undefined]"
  | JNull => "[object Null]"
  | JBool _ => "[object Boolean]"
  | JNum _ => "[object Number]"
  | JStr _ => "[object String]"
  | JObject cls _ => "[object " +:+ cls +:+ "]"
  end.

Definition sameType (a b : JsVal) : bool :=
  String.eqb (objToString a) (objToString b).

Definition is_undefined (v : JsVal) : bool :=
  match v with JUndefined => true | _ => false end.

(** [utils.isString] *)
Definition isString (v : JsVal) : bool :=
  match v with JStr _ => true | _ => false end.

(** [showDiff(err)] for an error object [err]. *)
Definition showDiff (err : ErrObj) : bool :=
  e_showDiff err
  && sameType (e_actual err) (e_expected err)
  && negb (is_undefined (e_expected err)).

Definition set_actual_expected (o : ErrObj) (a e : JsVal) : ErrObj :=
  mkErr (e_isError o) (e_inspect o) (e_message o) (e_stack o) (e_cause o)
        (e_uncaught o) (e_showDiff o) a e (e_multiple o).

Definition set_multiple (o : ErrObj) (m : option (list ref)) : ErrObj :=
  mkErr (e_isError o) (e_inspect o) (e_message o) (e_stack o) (e_cause o)
        (e_uncaught o) (e_showDiff o) (e_actual o) (e_expected o) m.

(** [stringifyDiffObjs(err)], as the new content of the object. *)
Definition stringifyDiffObjs (err : ErrObj) : ErrObj :=
  if negb (isString (e_actual err)) || negb (isString (e_expected err))
  then set_actual_expected err (JStr (stringify (e_actual err)))
                               (JStr (stringify (e_expected err)))
  else err.

(** [Array(n).join(' ')]: [n - 1] spaces, a [RangeError] for [n < 0]. *)
Definition array_join_spaces (n : Z) : result string :=
  if (n <? 0)%Z then Throw RangeError
  else Ok (repeat " " (Z.to_nat n - 1)).

Definition pad (str : string) (width : nat) : result string :=
  spaces ← array_join_spaces (Z.of_nat width - Z.of_nat (len str) + 1);
  mret (spaces +:+ str).

Definition errorDiff (actual expected : string) : result string :=
  changes ← diffWordsWithSpace actual expected;
  mret (join EmptyString
          (map (λ str,
                  if c_added str
                  then colorLines "diff added inline" (c_value str)
                  else if c_removed str
                       then colorLines "diff removed inline" (c_value str)
                       else c_value str)
               changes)).

(** [lines.map((line, index) => pad(index + 1, width) + ' | ' + line)] *)
Fixpoint number_lines (width index : nat) (lines : list string)
    : result (list string) :=
  match lines with
  | [] => mret []
  | line :: rest =>
      p ← pad (of_Z (Z.of_nat (index + 1))) width;
      rest' ← number_lines width (S index) rest;
      mret ((p +:+ " | " +:+ line) :: rest')
  end.

Definition inlineDiff (actual expected : string) : result string :=
  msg ← errorDiff actual expected;
  let lines := split "010"%char msg in
  msg' ← (if (4 <? length lines)%nat
          then
            let width := len (of_Z (Z.of_nat (length lines))) in
            numbered ← number_lines width 0 lines;
            mret (join nl numbered)
          else mret msg);
  let legend :=
    nl +:+ color "diff removed inline" "actual" +:+ " " +:+
    color "diff added inline" "expected" +:+ nl +:+ nl +:+ msg' +:+ nl in
  mret (indent_lines "      " legend).

Definition first_char_is (c : ascii) (line : string) : bool :=
  match line with
  | String a _ => Ascii.eqb a c
  | EmptyString => false
  end.

(** [cleanUp] of [unifiedDiff]; [None] is the [null] that [notBlank]
    filters out. *)
Definition cleanUp (line : string) : option string :=
  let indent := "      " in
  if first_char_is "+"%char line
  then Some (indent +:+ colorLines "diff added" line)
  else if first_char_is "-"%char line
  then Some (indent +:+ colorLines "diff removed" line)
  else if contains "@@" line then Some "--"
  else if contains (backslash +:+ " No newline") line then None
  else Some (indent +:+ line).

Definition unifiedDiff (actual expected : string) : result string :=
  msg ← createPatch "string" actual expected;
  let lines := List.skipn 5 (split "010"%char msg) in
  mret (nl +:+ "      " +:+ colorLines "diff added" "+ expected" +:+ " " +:+
        colorLines "diff removed" "- actual" +:+ nl +:+ nl +:+
        join nl (omap cleanUp lines)).

Definition truncation_notice (maxLen : Z) : string :=
  nl +:+ "      [mocha] output truncated to " +:+ of_Z maxLen +:+
  " characters, see " +:+ dquote +:+ "maxDiffSize" +:+ dquote +:+
  " reporter-option" +:+ nl.

Definition fallback_notice : string :=
  nl +:+ "      " +:+ color "diff added" "+ expected" +:+ " " +:+
  color "diff removed" "- actual:  failed to generate Mocha diff" +:+ nl.

(** The body of the [try] block of [generateDiff]. *)
Definition generateDiff_body (actual expected : string) : result string :=
  let maxLen := maxDiffSize in
  let '(skipped, actual, expected) :=
    if (0 <? maxLen)%Z
    then (Z.max (Z.of_nat (len actual) - maxLen)
                (Z.of_nat (len expected) - maxLen),
          take (Z.to_nat maxLen) actual,
          take (Z.to_nat maxLen) expected)
    else (0%Z, actual, expected) in
  result ← (if inlineDiffs
            then inlineDiff actual expected
            else unifiedDiff actual expected);
  mret (if (0 <? skipped)%Z
        then result +:+ truncation_notice maxLen
        else result).

Definition generateDiff (actual expected : string) : result string :=
  try_catch (generateDiff_body actual expected)
            (λ _, mret fallback_notice).

End Rendering.

(** ** Tests, run statistics and the reporter's world *)

Inductive Speed := slow | medium | fast.

(** A test as the reporters read it: [t_slow] is the value of
    [test.slow()], [t_titlePath] the value of [test.titlePath()].  The
    duration and the threshold are whole numbers of milliseconds:
    [test.duration] is the difference of two dates. *)
Record Test := mkTest {
  t_err : option ref;
  t_duration : Z;
  t_slow : Z;
  t_speed : option Speed;
  t_titlePath : list string
}.

(** [runner.stats] *)
Record Stats := mkStats {
  s_tests : Z;
  s_passes : Z;
  s_pending : Z;
  s_failures : Z;
  s_duration : Z
}.

(** Everything a [Base] instance reads and writes: the error objects, the
    tests, [this.failures] and [this.stats]. *)
Record World := mkWorld {
  w_errs : heap;
  w_tests : gmap ref Test;
  w_failures : list ref;
  w_stats : Stats
}.

Inductive LogArg :=
| LNum (n : Z)
| LStr (s : string).

(** One call of [consoleLog]: its arguments, the format first. *)
Definition LogCall := list LogArg.

(** A computation over the world that may log, throw or get stuck. *)
Record Run (A : Type) := mkRun {
  run_world : World;
  run_log : list LogCall;
  run_res : outcome A
}.
Arguments mkRun {A} _ _ _.
Arguments run_world {A} _.
Arguments run_log {A} _.
Arguments run_res {A} _.

Definition M (A : Type) : Type := World → Run A.

#[global] Instance M_ret : MRet M := λ A a w, mkRun w [] (Ret a).
#[global] Instance M_bind : MBind M := λ A B k m w,
  match m w with
  | mkRun w1 log1 (Ret a) =>
      match k a w1 with
      | mkRun w2 log2 res => mkRun w2 (log1 ++ log2) res
      end
  | mkRun w1 log1 (Raise e) => mkRun w1 log1 (Raise e)
  | mkRun w1 log1 Stuck => mkRun w1 log1 Stuck
  end.

Definition lift {A} (o : outcome A) : M A := λ w, mkRun w [] o.

Definition consoleLog (args : LogCall) : M unit :=
  λ w, mkRun w [args] (Ret tt).

Definition get_err (r : ref) : M ErrObj :=
  λ w, mkRun w [] (match w_errs w !! r with Some o => Ret o | None => Stuck end).

Definition with_errs (w : World) (h : heap) : World :=
  mkWorld h (w_tests w) (w_failures w) (w_stats w).

Definition set_err (r : ref) (o : ErrObj) : M unit :=
  λ w, mkRun (with_errs w (<[r := o]> (w_errs w))) [] (Ret tt).

Definition get_test (t : ref) : M Test :=
  λ w, mkRun w [] (match w_tests w !! t with Some x => Ret x | None => Stuck end).

Definition set_test (t : ref) (x : Test) : M unit :=
  λ w, mkRun (mkWorld (w_errs w) (<[t := x]> (w_tests w)) (w_failures w)
                      (w_stats w)) [] (Ret tt).

(** [failures.push(test)] *)
Definition push_failure (t : ref) : M unit :=
  λ w, mkRun (mkWorld (w_errs w) (w_tests w) (w_failures w ++ [t])
                      (w_stats w)) [] (Ret tt).

Definition get_failures : M (list ref) :=
  λ w, mkRun w [] (Ret (w_failures w)).

Definition get_stats : M Stats :=
  λ w, mkRun w [] (Ret (w_stats w)).

(** A top-level call [getFullErrorStack(err)]: one frame per allocated
    error object and one more always suffice. *)
Definition full_stack (err : ref) : M FullErrorStack :=
  λ w, mkRun w []
    (match getFullErrorStack (S (size (w_errs w))) (w_errs w) err None with
     | Some r => Ret r
     | None => Stuck
     end).

(** The locals [multipleTest] and [multipleErr] of [list]. *)
Abbreviation ListLocals := (option ref * list ref)%type.

Section Reporter.

Context `{cfg : Config} `{lib : Lib}.

(** *** The pass and fail handlers of the [Base] constructor *)

Definition Qgtb (a b : Q) : bool := negb (Qle_bool a b).

(** The two comparisons of the pass handler.  The operands are
    integers; halving a double other than the smallest ones only lowers
    its exponent, so [test.slow() / 2] is the exact half and the
    comparisons are those of the rationals. *)
Definition speed_of (duration slowT : Z) : Speed :=
  if Qgtb (inject_Z duration) (inject_Z slowT) then slow
  else if Qgtb (inject_Z duration) (inject_Z slowT / 2) then medium
  else fast.

Definition set_speed (t : Test) (s : Speed) : Test :=
  mkTest (t_err t) (t_duration t) (t_slow t) (Some s) (t_titlePath t).

Definition set_test_err (t : Test) (e : ref) : Test :=
  mkTest (Some e) (t_duration t) (t_slow t) (t_speed t) (t_titlePath t).

(** [runner.on(EVENT_TEST_PASS, function (test) {...})] *)
Definition on_test_pass (test : ref) : M unit :=
  t ← get_test test;
  set_test test (set_speed t (speed_of (t_duration t) (t_slow t))).

(** [runner.on(EVENT_TEST_FAIL, function (test, err) {...})], for a
    thrown object [err]. *)
Definition on_test_fail (test err : ref) : M unit :=
  o ← get_err err;
  (if showDiff o then set_err err (stringifyDiffObjs o) else mret tt);;
  t ← get_test test;
  match t_err t with
  | Some prior =>
      if e_isError o
      then
        p ← get_err prior;
        set_err prior
          (set_multiple p (Some ((default [] (e_multiple p) ++ [err])%list)))
      else set_test test (set_test_err t err)
  | None => set_test test (set_test_err t err)
  end;;
  push_failure test.

(** *** The failure listing *)

(** [message.match(/^([^:]+): expected/)], giving the first group. *)
Definition match_expected (message : string) : option string :=
  let p := before ":"%char message in
  if negb (falsy p) && String.prefix ": expected" (drop (len p) message)
  then Some p
  else None.

Fixpoint title_from (index : nat) (path : list string) (testTitle : string)
    : string :=
  match path with
  | [] => testTitle
  | str :: rest =>
      let sep := if (index =? 0)%nat then EmptyString else nl +:+ "     " in
      title_from (S index) rest
                 (testTitle +:+ sep +:+ repeat "  " index +:+ str)
  end.

(** [generateDiff(err.actual, err.expected)] at the call in [list], where
    both values are strings after [stringifyDiffObjs]. *)
Definition generateDiff_of (o : ErrObj) : outcome string :=
  match e_actual o, e_expected o with
  | JStr a, JStr e => of_result (generateDiff a e)
  | _, _ => Stuck
  end.

(** The selection of [err] in the loop body of [list]; [None] is
    [undefined]. *)
Definition pick_err (tr : ref) (test : Test) (loc : ListLocals)
    : M (option ref * ListLocals) :=
  match t_err test with
  | Some e =>
      po ← get_err e;
      match e_multiple po with
      | Some ms =>
          let '(multipleTest, multipleErr) :=
            if decide (loc.1 = Some tr) then loc else (Some tr, e :: ms) in
          mret (head multipleErr, (multipleTest, tail multipleErr))
      | None => mret (Some e, loc)
      end
  | None => mret (None, loc)
  end.

(** The two values [fmt] takes in the loop body of [list]. *)
Definition plain_fmt : string :=
  color "error title" ("  %s) %s:" +:+ nl) +:+
  color "error message" "     %s" +:+
  color "error stack" (nl +:+ "%s" +:+ nl).

Definition diff_fmt : string :=
  color "error title" ("  %s) %s:" +:+ nl +:+ "%s") +:+
  color "error stack" (nl +:+ "%s" +:+ nl).

(** [msg] after the [uncaught] test ... *)
Definition plain_msg (o : ErrObj) (fes : FullErrorStack) : string :=
  if e_uncaught o then "Uncaught " +:+ fes_msg fes else fes_msg fes.

(** ... and after the diff [d] was appended. *)
Definition diff_msg (o : ErrObj) (fes : FullErrorStack) (d : string) : string :=
  nl +:+ "      " +:+
  color "error message"
        (match match_expected (fes_message fes) with
         | Some group => group
         | None => plain_msg o fes
         end) +:+ d.

(** The arguments of [consoleLog(fmt, i + 1, testTitle, msg, stack)]. *)
Definition block (i : nat) (test : Test) (fmt msg : string)
    (fes : FullErrorStack) : LogCall :=
  [LStr fmt; LNum (Z.of_nat i + 1);
   LStr (title_from 0 (t_titlePath test) EmptyString);
   LStr msg; LStr (indent_lines "  " (fes_stack fes))].

(** The loop body of [list] from the call of [getFullErrorStack] on:
    the block printed for [err], which is [None] when [err] is
    [undefined] and reading [err.inspect] throws. *)
Definition render_entry (i : nat) (test : Test) (err : option ref) : M unit :=
  match err with
  | None => lift (Raise TypeError)
  | Some err =>
      fes ← full_stack err;
      o ← get_err err;
      shown ← (if negb hideDiff && showDiff o
               then
                 set_err err (stringifyDiffObjs o);;
                 d ← lift (generateDiff_of (stringifyDiffObjs o));
                 mret (diff_fmt, diff_msg o fes d)
               else mret (plain_fmt, plain_msg o fes));
      consoleLog (block i test shown.1 shown.2 fes)
  end.

(** The body of [failures.forEach(function (test, i) {...})]. *)
Definition list_entry (i : nat) (tr : ref) (loc : ListLocals)
    : M ListLocals :=
  test ← get_test tr;
  picked ← pick_err tr test loc;
  render_entry i test picked.1;;
  mret picked.2.

(** Printing the blocks of the errors [errs] of one test at the
    consecutive positions [i], [i + 1], ... *)
Fixpoint render_errors (i : nat) (test : Test) (errs : list ref) : M unit :=
  match errs with
  | [] => mret tt
  | err :: rest =>
      render_entry i test (Some err);; render_errors (S i) test rest
  end.

Fixpoint forEach_from {A} (f : nat → ref → A → M A) (i : nat)
    (l : list ref) (a : A) : M A :=
  match l with
  | [] => mret a
  | x :: rest => a' ← f i x a; forEach_from f (S i) rest a'
  end.

(** [list(failures)] of [base.js]. *)
Definition list_failures (failures : list ref) : M unit :=
  consoleLog [];;
  forEach_from list_entry 0 failures (None, []);;
  mret tt.

(** [Base.prototype.epilogue] *)
Definition epilogue : M unit :=
  stats ← get_stats;
  consoleLog [];;
  consoleLog [LStr (color "bright pass" " " +:+ color "green" " %d passing"
                    +:+ color "light" " (%s)");
              LNum (s_passes stats);
              LStr (milliseconds (s_duration stats))];;
  (if negb (s_pending stats =? 0)%Z
   then consoleLog [LStr (color "pending" " " +:+
                          color "pending" " %d pending");
                    LNum (s_pending stats)]
   else mret tt);;
  (if negb (s_failures stats =? 0)%Z
   then
     consoleLog [LStr (color "fail" "  %d failing");
                 LNum (s_failures stats)];;
     failures ← get_failures;
     list_failures failures;;
     consoleLog []
   else mret tt);;
  consoleLog [].

End Reporter.

End Base.

(** ** The JSON reporter: [cleanCycles] *)

Module JSONReporter.

Import JsString.

(** A property value as [JSON.stringify] sees it.  [VNonFinite] is [NaN]
    or an infinity, [VFunction] a function or a symbol, [VRef] an
    object or an array. *)
Inductive val :=
| VUndefined
| VNull
| VBool (b : bool)
| VNum (n : Z)
| VNonFinite
| VStr (s : string)
| VBigInt (n : Z)
| VFunction
| VRef (r : ref).

(** An allocated object: its enumerable own properties in enumeration
    order, or the elements of an array.  The store holds plain objects
    and arrays; it has no wrapper objects, accessors or proxies. *)
Inductive obj :=
| OObject (props : list (string * val))
| OArray (elems : list val).

(** The value [JSON.parse] builds. *)
Inductive json :=
| JsNull
| JsBool (b : bool)
| JsNum (n : Z)
| JsStr (s : string)
| JsArr (elems : list json)
| JsObj (props : list (string * json)).

Abbreviation store := (gmap ref obj).

(** An own enumerable property [toJSON] that holds a function. *)
Definition own_toJSON (o : obj) : bool :=
  match o with
  | OObject props =>
      existsb (λ kv, String.eqb kv.1 "toJSON"
                     && match kv.2 with VFunction => true | _ => false end)
              props
  | OArray _ => false
  end.

Section Cleaner.

(** ['' + value] for the object at a reference: the string, or the
    exception the conversion throws (an object without a [toString],
    as one made by [Object.create(null)], or one whose [toString]
    throws). *)
Variable toStr : ref → result string.

(** [value.toJSON(key)] for the object at a reference whose [toJSON],
    own or inherited, is callable (a [Date] has one): the value
    returned or the exception thrown; [None] when the object has no
    callable [toJSON]. *)
Variable toJSON : ref → string → option (result val).

(** The first step of [SerializeJSONProperty]: an object with a
    callable [toJSON] is replaced by the result of the call.  The model
    is stuck where the store shows an own function [toJSON] of which
    [toJSON] tells no result.  ([BigInt.prototype] has no [toJSON].) *)
Definition call_toJSON (h : store) (key : string) (value : val)
    : outcome val :=
  match value with
  | VRef r =>
      match toJSON r key with
      | Some res => of_result res
      | None =>
          match h !! r with
          | Some o => if own_toJSON o then Stuck else Ret value
          | None => Stuck
          end
      end
  | _ => Ret value
  end.

(** The replacer function passed to [JSON.stringify]; [cache] is the
    array the closure captures.  ['' + value] may throw. *)
Definition replacer (value : val) (cache : list ref)
    : result val * list ref :=
  match value with
  | VRef r =>
      if bool_decide (r ∈ cache) then (s ← toStr r; mret (VStr s), cache)
      else (Ok value, (cache ++ [r])%list)
  | _ => (Ok value, cache)
  end.

(** Serializing the items of a container from left to right, threading
    the cache. *)
Fixpoint ser_items {A B} (f : A → list ref → outcome B * list ref)
    (items : list A) (cache : list ref) : outcome (list B) * list ref :=
  match items with
  | [] => (Ret [], cache)
  | x :: rest =>
      match f x cache with
      | (Ret y, cache1) =>
          match ser_items f rest cache1 with
          | (Ret ys, cache2) => (Ret (y :: ys), cache2)
          | other => other
          end
      | (Raise e, cache1) => (Raise e, cache1)
      | (Stuck, cache1) => (Stuck, cache1)
      end
  end.

(** The members of an object: a property whose value serializes to
    [undefined] is left out. *)
Definition members (l : list (string * option json)) : list (string * json) :=
  omap (λ kv, j ← kv.2; Some (kv.1, j)) l.

(** The elements of an array: [undefined] becomes [null]. *)
Definition elements (l : list (option json)) : list json :=
  map (default JsNull) l.

(** The elements of an array with their keys, the indices as strings. *)
Definition indexed (elems : list val) : list (string * val) :=
  imap (λ i v, (of_Z (Z.of_nat i), v)) elems.

(** [SerializeJSONProperty] for the value [value] found under [key]:
    [toJSON] first, then the replacer, then the serialization proper,
    read through [JSON.parse]: the result is the parsed tree, [None]
    standing for [undefined].  A [BigInt] throws a [TypeError].
    [stack] holds the objects being serialized, on which
    [JSON.stringify] throws a [TypeError] when it meets one of them
    again.  [fuel] bounds the nesting depth. *)
Fixpoint serialize (fuel : nat) (h : store) (stack : list ref)
    (key : string) (value : val) (cache : list ref)
    : outcome (option json) * list ref :=
  match fuel with
  | O => (Stuck, cache)
  | S fuel' =>
      match call_toJSON h key value with
      | Raise e => (Raise e, cache)
      | Stuck => (Stuck, cache)
      | Ret value1 =>
          match replacer value1 cache with
          | (Throw e, cache') => (Raise e, cache')
          | (Ok value', cache') =>
              match value' with
              | VUndefined | VFunction => (Ret None, cache')
              | VNull | VNonFinite => (Ret (Some JsNull), cache')
              | VBool b => (Ret (Some (JsBool b)), cache')
              | VNum n => (Ret (Some (JsNum n)), cache')
              | VStr s => (Ret (Some (JsStr s)), cache')
              | VBigInt _ => (Raise TypeError, cache')
              | VRef r =>
                  if bool_decide (r ∈ stack) then (Raise TypeError, cache')
                  else
                    match h !! r with
                    | None => (Stuck, cache')
                    | Some (OObject props) =>
                        match ser_items
                                (λ kv c,
                                   match serialize fuel' h (r :: stack)
                                                   kv.1 kv.2 c with
                                   | (Ret j, c') => (Ret (kv.1, j), c')
                                   | (Raise e, c') => (Raise e, c')
                                   | (Stuck, c') => (Stuck, c')
                                   end)
                                props cache' with
                        | (Ret kvs, c) => (Ret (Some (JsObj (members kvs))), c)
                        | (Raise e, c) => (Raise e, c)
                        | (Stuck, c) => (Stuck, c)
                        end
                    | Some (OArray elems) =>
                        match ser_items
                                (λ kv c,
                                   serialize fuel' h (r :: stack)
                                             kv.1 kv.2 c)
                                (indexed elems) cache' with
                        | (Ret js, c) => (Ret (Some (JsArr (elements js))), c)
                        | (Raise e, c) => (Raise e, c)
                        | (Stuck, c) => (Stuck, c)
                        end
                    end
              end
          end
      end
  end.

(** [cleanCycles(obj)]: [JSON.parse(JSON.stringify(obj, replacer))] with a
    fresh cache; the root is found under the empty key.
    [JSON.stringify] gives [undefined] for a value without a JSON form,
    which [JSON.parse] rejects. *)
Definition cleanCycles (fuel : nat) (h : store) (obj : val) : outcome json :=
  match (serialize fuel h [] EmptyString obj []).1 with
  | Ret (Some j) => Ret j
  | Ret None => Raise SyntaxError
  | Raise e => Raise e
  | Stuck => Stuck
  end.

End Cleaner.

End JSONReporter.

(** ** The XUnit reporter: the root element *)

Module XUnit.

Import JsString.

(** An attribute value handed to [tag]. *)
Inductive AttrVal :=
| AStr (s : string)
| ANum (q : Q).

Section Tag.

(** [utils.escape], applied to attribute values of either kind. *)
Variable escape : AttrVal → string.

(** [key + '="' + escape(attrs[key]) + '"'] *)
Definition attr (kv : string * AttrVal) : string :=
  kv.1 +:+ "=" +:+ dquote +:+ escape kv.2 +:+ dquote.

(** [tag(name, attrs, close, content)]; [content] is [None] when the
    argument is omitted. *)
Definition tag (name : string) (attrs : list (string * AttrVal))
    (close : bool) (content : option string) : string :=
  let end_ := if close then "/>" else ">" in
  let pairs := map attr attrs in
  let t :=
    "<" +:+ name +:+
    (match pairs with
     | [] => EmptyString
     | _ => " " +:+ join " " pairs
     end) +:+ end_ in
  match content with
  | Some c => if falsy c then t else t +:+ c +:+ "</" +:+ name +:+ end_
  | None => t
  end.

(** [stats.duration / 1000 || 0] *)
Definition seconds (duration : Z) : Q :=
  let q := (inject_Z duration / 1000)%Q in
  if Qeq_bool q 0 then 0%Q else q.

(** The attributes of the root element, as the run-end handler builds
    them; [timestamp] is [new Date().toUTCString()]. *)
Definition testsuite_attrs (suiteName timestamp : string) (stats : Base.Stats)
    : list (string * AttrVal) :=
  [ ("name", AStr suiteName);
    ("tests", ANum (inject_Z (Base.s_tests stats)));
    ("failures", ANum 0);
    ("errors", ANum (inject_Z (Base.s_failures stats)));
    ("skipped", ANum (inject_Z (Base.s_tests stats - Base.s_failures stats
                                - Base.s_passes stats)));
    ("timestamp", AStr timestamp);
    ("time", ANum (seconds (Base.s_duration stats))) ].

(** The first line the run-end handler writes. *)
Definition testsuite_open (suiteName timestamp : string) (stats : Base.Stats)
    : string :=
  tag "testsuite" (testsuite_attrs suiteName timestamp stats) false None.

End Tag.

(** *** The lines of the tests *)

(** What [XUnit.prototype.test] and [Base.showDiff] read of the error of
    a failed test. *)
Record Failure := mkFailure {
  x_message : string;
  x_stack : string;
  x_actual : JsVal;
  x_expected : JsVal;
  x_showDiff : bool
}.

(** [test.state === STATE_FAILED] with [test.err]; otherwise
    [test.isPending()], or neither. *)
Inductive State :=
| failed (err : Failure)
| pending
| passed.

(** What is read of a test: [test.parent.fullTitle()], the title, the
    file, the duration ([None] for [undefined]) and the state. *)
Record TestCase := mkTestCase {
  tc_classname : string;
  tc_title : string;
  tc_file : string;
  tc_duration : option Z;
  tc_state : State
}.

Section Test.

(** [utils.escape]; the members [hideDiff], [showDiff] and
    [generateDiff] of the [Base] import; [path.relative(process.cwd(), _)]
    and the reporter option [showRelativePaths]. *)
Variable escape : AttrVal → string.
Variable hideDiff : bool.
Variable showDiff : Failure → bool.
Variable generateDiff : JsVal → JsVal → string.
Variable relative : string → string.
Variable showRelativePaths : bool.

Definition testFilePath (filepath : string) : string :=
  if showRelativePaths then relative filepath else filepath.

(** [test.duration / 1000 || 0] *)
Definition time (duration : option Z) : Q :=
  match duration with
  | Some d => seconds d
  | None => 0%Q
  end.

Definition testcase_attrs (t : TestCase) : list (string * AttrVal) :=
  [ ("classname", AStr (tc_classname t));
    ("name", AStr (tc_title t));
    ("file", AStr (testFilePath (tc_file t)));
    ("time", ANum (time (tc_duration t))) ].

(** The line [XUnit.prototype.test] writes for [t].  (The assignment to
    [Base.useColors] that comes first concerns what [generateDiff]
    returns, which is a parameter here.) *)
Definition test (t : TestCase) : string :=
  let attrs := testcase_attrs t in
  match tc_state t with
  | failed err =>
      let diff :=
        if negb hideDiff && showDiff err
        then nl +:+ generateDiff (x_actual err) (x_expected err)
        else EmptyString in
      tag escape "testcase" attrs false
        (Some (tag escape "failure" [] false
                 (Some (escape (AStr (x_message err)) +:+
                        escape (AStr diff) +:+ nl +:+
                        escape (AStr (x_stack err))))))
  | pending =>
      tag escape "testcase" attrs false
        (Some (tag escape "skipped" [] true None))
  | passed => tag escape "testcase" attrs true None
  end.

End Test.

End XUnit.

(** ** The Dot reporter *)

Module Dot.

Import JsString.

(** The test events the reporter listens to; a passing test carries the
    speed the pass handler of [Base] stored before. *)
Inductive event :=
| pending
| pass (speed : Base.Speed)
| fail.

Section Handlers.

(** [Base.color], and the constant [width] the handlers close over. *)
Variable color : string → string → string.
Variable width : Z.

(** [n % width === 0], which is [false] for the [NaN] of a zero [width]. *)
Definition breaks (n : Z) : bool :=
  if (width =? 0)%Z then false else (Z.rem n width =? 0)%Z.

(** The symbol written for an event, colored. *)
Definition symbol (ev : event) : string :=
  match ev with
  | pending => color "pending" ","
  | pass Base.slow => color "bright yellow" "."
  | pass Base.medium => color "medium" "."
  | pass Base.fast => color "fast" "."
  | fail => color "fail" "!"
  end.

(** One handler call: the counter after [++n] and the strings written. *)
Definition on_event (n : Z) (ev : event) : Z * list string :=
  let n' := (n + 1)%Z in
  (n', ((if breaks n' then [nl +:+ "  "] else []) ++ [symbol ev])%list).

Fixpoint run (n : Z) (events : list event) : Z * list string :=
  match events with
  | [] => (n, [])
  | ev :: rest =>
      let '(n1, out1) := on_event n ev in
      let '(n2, out2) := run n1 rest in
      (n2, (out1 ++ out2)%list)
  end.

(** What the handlers write for the test events of a run; [n] starts
    at [-1]. *)
Definition written (events : list event) : list string :=
  (run (-1) events).2.

End Handlers.

End Dot.

(** ** The Landing reporter *)

Module Landing.

Import JsString.

(** [x | 0] for an integer [x]. *)
Definition to_int32 (x : Z) : Z :=
  ((x + 2 ^ 31) mod 2 ^ 32 - 2 ^ 31)%Z.

(** A computation that writes to the stream and may throw; what was
    written before the throw stays written. *)
Definition W (A : Type) : Type := (list string * result A)%type.

Definition W_ret {A} (a : A) : W A := ([], Ok a).

Definition W_bind {A B} (m : W A) (k : A → W B) : W B :=
  match m with
  | (out, Ok a) => let '(out', r) := k a in ((out ++ out')%list, r)
  | (out, Throw e) => (out, Throw e)
  end.

Definition write (s : string) : W unit := ([s], Ok tt).

Definition eval {A} (r : result A) : W A := ([], r).

(** [Array(n).join(sep)] for an integer [n]: [n - 1] separators, a
    [RangeError] for a negative [n]. *)
Definition array_join (n : Z) (sep : string) : result string :=
  if (n <? 0)%Z then Throw RangeError
  else Ok (repeat sep (Z.to_nat n - 1)).

(** The variables the handlers assign. *)
Record State := mkState {
  plane : string;
  crashed : Z;
  n : Z;
  total : Z
}.

Section Handlers.

(** [Base.color], the constant [width], and the glyphs of the airplane
    and of the strip. *)
Variable color : string → string → string.
Variable width : Z.
Variable airplane dot : string.

Definition initial : State := mkState (color "plane" airplane) (-1) 0 0.

Definition runway : result string :=
  buf ← array_join width "-";
  mret ("  " +:+ color "runway" buf).

(** The handler of [EVENT_TEST_END] for a test that [failed] or not.
    The quotient is the one of two integers, which the division of
    doubles gives exactly below [2 ^ 53]. *)
Definition on_test_end (st : State) (failed : bool) : W State :=
  let '(col, n', total') :=
    if (crashed st =? -1)%Z
    then (to_int32 (Z.quot (width * (n st + 1)) (total st + 1)),
          (n st + 1)%Z, (total st + 1)%Z)
    else (crashed st, n st, total st) in
  let st' :=
    if failed
    then mkState (color "plane crash" airplane) col n' total'
    else mkState (plane st) (crashed st) n' total' in
  W_bind (write (esc +:+ "[" +:+ of_Z (width + 1) +:+ "D" +:+ esc +:+ "[2A"))
    (λ _,
  W_bind (eval runway) (λ r1,
  W_bind (write r1) (λ _,
  W_bind (write (nl +:+ "  ")) (λ _,
  W_bind (eval (array_join col dot)) (λ before,
  W_bind (write (color "runway" before)) (λ _,
  W_bind (write (plane st')) (λ _,
  W_bind (eval (array_join (width - col) dot)) (λ after,
  W_bind (write (color "runway" (after +:+ nl))) (λ _,
  W_bind (eval runway) (λ r2,
  W_bind (write r2) (λ _,
  W_bind (write (esc +:+ "[0m")) (λ _,
  W_ret st')))))))))))).

Fixpoint run (st : State) (events : list bool) : W State :=
  match events with
  | [] => W_ret st
  | failed :: rest => W_bind (on_test_end st failed) (λ st', run st' rest)
  end.

End Handlers.

End Landing.

(** ** The HTML reporter: the text of a failure *)

Module HTML.

Import JsString.

(** What the fail handler reads of [test.err]: the result of
    [toString()], the message and, as strings that are empty when the
    property is missing, the stack, the source URL and the HTML message;
    [f_line] is [None] when [line] is [undefined]. *)
Record FailErr := mkFailErr {
  f_toString : string;
  f_message : string;
  f_stack : string;
  f_sourceURL : string;
  f_line : option string;
  f_htmlMessage : string
}.

Section Fragment.

(** [utils.escape] *)
Variable escape : string → string.

(** The markup [fragment] assigns to [innerHTML]: every [%s] and [%e]
    of the template is replaced by the next argument, as it is or
    escaped, and the replacements are not scanned again.  The result is
    [None] when the arguments do not suffice. *)
Fixpoint fragment_html (html : string) (args : list string)
    : option string :=
  match html with
  | EmptyString => Some EmptyString
  | String a rest =>
      match rest with
      | String b rest' =>
          if Ascii.eqb a "%" && (Ascii.eqb b "s" || Ascii.eqb b "e")
          then
            match args with
            | [] => None
            | x :: args' =>
                r ← fragment_html rest' args';
                Some ((if Ascii.eqb b "s" then x else escape x) +:+ r)
            end
          else String a <$> fragment_html rest args
      | EmptyString => Some (String a EmptyString)
      end
  end.

(** [message] of the fail handler. *)
Definition message (err : FailErr) : string :=
  if String.eqb (f_toString err) "[object Error]" then f_message err
  else f_toString err.



End Fragment.

End HTML.

(** ** The List reporter *)

Module ListReporter.

Import JsString Base.

(** An argument of [consoleLog], and what the reporter puts out: a
    string written to the standard output or a call of [consoleLog]. *)
Inductive Arg :=
| num (q : Q)
| str (s : string).

Inductive Out :=
| stdout (s : string)
| console (args : list Arg).

(** The events the reporter listens to between the begin and the end
    of a run. *)
Inductive event :=
| test_begin (test : ref)
| test_pending (test : ref)
| test_pass (test : ref)
| test_fail (test err : ref).

Section Handlers.

Context `{lib : Lib}.

(** [Base.color], [Base.symbols.ok], what [Base.cursor.CR()] writes, and
    [test.fullTitle()] for the test at a reference. *)
Variable color : string → string → string.
Variable ok : string.
Variable CR : list string.
Variable fullTitle : ref → string.

(** [test.speed] as the key of a color. *)
Definition speed_name (s : option Speed) : string :=
  match s with
  | Some slow => "slow"
  | Some medium => "medium"
  | Some fast => "fast"
  | None => "undefined"
  end.

(** The handlers of one event, those of the [Base] constructor first;
    [n] is the counter of the reporter, returned as it stands after the
    event together with what was put out. *)
Definition on_event (n : nat) (ev : event) : M (nat * list Out) :=
  match ev with
  | test_begin test =>
      mret (n, [stdout (color "pass" ("    " +:+ fullTitle test +:+ ": "))])
  | test_pending test =>
      mret (n, [console [str (color "checkmark" "  -" +:+
                              color "pending" " %s");
                         str (fullTitle test)]])
  | test_pass test =>
      on_test_pass test;;
      t ← get_test test;
      mret (n, (map stdout CR ++
                [console [str (color "checkmark" ("  " +:+ ok) +:+
                               color "pass" " %s: " +:+
                               color (speed_name (t_speed t)) "%dms");
                          str (fullTitle test);
                          num (inject_Z (t_duration t))]])%list)
  | test_fail test err =>
      on_test_fail test err;;
      mret (S n, (map stdout CR ++
                  [console [str (color "fail" "  %d) %s");
                            num (inject_Z (Z.of_nat (S n)));
                            str (fullTitle test)]])%list)
  end.

Fixpoint run (n : nat) (events : list event) : M (nat * list Out) :=
  match events with
  | [] => mret (n, [])
  | ev :: rest =>
      r1 ← on_event n ev;
      r2 ← run r1.1 rest;
      mret (r2.1, (r1.2 ++ r2.2)%list)
  end.

End Handlers.

End ListReporter.

(** ** Concrete configurations, stores and worlds *)

Module Demo.

Import JsString Base.

Definition plainCfg : Config :=
  {| useColors := false; inlineDiffs := false; maxDiffSize := 8192;
     hideDiff := false |}.

Definition cfgWith (inline : bool) (maxSize : Z) : Config :=
  {| useColors := false; inlineDiffs := inline; maxDiffSize := maxSize;
     hideDiff := false |}.

(** The patch the [diff] package builds for two different one-line
    texts without a final newline. *)
Definition one_line_patch (a e : string) : string :=
  "Index: string" +:+ nl +:+
  "===================================================================" +:+ nl +:+
  "--- string" +:+ nl +:+ "+++ string" +:+ nl +:+ "@@ -1 +1 @@" +:+ nl +:+
  "-" +:+ a +:+ nl +:+ backslash +:+ " No newline at end of file" +:+ nl +:+
  "+" +:+ e +:+ nl +:+ backslash +:+ " No newline at end of file" +:+ nl.

Definition demoLib : Lib :=
  {| createPatch := λ _ a e, Ok (one_line_patch a e);
     diffWordsWithSpace := λ a e,
       Ok [mkChange a false true; mkChange e true false];
     stringify := λ v,
       match v with
       | JStr s => s
       | JNum n => of_Z n
       | _ => "[value]"
       end;
     milliseconds := λ n, of_Z n +:+ "ms" |}.

(** A [diff] package that always throws. *)
Definition brokenLib : Lib :=
  {| createPatch := λ _ _ _, Throw (LibraryError "createPatch");
     diffWordsWithSpace := λ _ _, Throw (LibraryError "diffWordsWithSpace");
     stringify := λ _, "[value]";
     milliseconds := λ n, of_Z n +:+ "ms" |}.

Definition plain_error (message stack : string) (cause : option ref) : ErrObj :=
  mkErr true None message stack cause false true JUndefined JUndefined None.

(** [new Error('boom')]: the stack starts with the name of the class. *)
Definition boom : ErrObj :=
  plain_error "boom" ("Error: boom" +:+ nl +:+ "    at f") None.

Definition boom_heap : heap := {[ 1%positive := boom ]}.

(** [err.cause = err] *)
Definition self_error : ErrObj :=
  plain_error "boom" ("Error: boom" +:+ nl +:+ "    at f") (Some 1%positive).

Definition self_cycle : heap := {[ 1%positive := self_error ]}.

(** [a.cause = b; b.cause = a] *)
Definition mutual_cycle : heap :=
  {[ 1%positive :=
       plain_error "outer" ("Error: outer" +:+ nl +:+ "    at f")
                   (Some 2%positive);
     2%positive :=
       plain_error "inner" ("Error: inner" +:+ nl +:+ "    at g")
                   (Some 1%positive) ]}.

(** An assertion failure with a diff, a second error and a thrown plain
    object that is not an [Error]. *)
Definition assertion : ErrObj :=
  mkErr true None "expected foo to equal bar"
        ("AssertionError: expected foo to equal bar" +:+ nl +:+ "    at f")
        None false true (JStr "foo") (JStr "bar") None.

Definition second : ErrObj :=
  plain_error "second" ("Error: second" +:+ nl +:+ "    at g") None.

Definition thrown_object : ErrObj :=
  mkErr false None "not an error" EmptyString None false true
        JUndefined JUndefined None.

Definition failing_test : Test :=
  mkTest None 5 75 None ["suite"; "fails"].

Definition passing_test (duration : Z) : Test :=
  mkTest None duration 75 None ["suite"; "passes"].

(** One test about to fail, with the three values above allocated. *)
Definition world0 : World :=
  mkWorld {[ 1%positive := assertion; 2%positive := second;
             3%positive := thrown_object ]}
          {[ 1%positive := failing_test; 2%positive := passing_test 10;
             3%positive := passing_test 120 ]}
          [] (mkStats 3 2 0 1 130).

(** One test that passed in 40ms, under the threshold of 75ms. *)
Definition world40 : World :=
  mkWorld ∅ {[ 1%positive := passing_test 40 ]} [] (mkStats 1 1 0 0 40).

(** [err = {message: 'boom'}; err.self = err] *)
Definition self_store : JSONReporter.store :=
  {[ 1%positive :=
       JSONReporter.OObject [("message", JSONReporter.VStr "boom");
                             ("self", JSONReporter.VRef 1%positive)] ]}.

(** The string form of a plain object. *)
Definition plain_toStr (r : ref) : result string := Ok "[object Object]".

(** No object has a callable [toJSON]. *)
Definition no_toJSON (r : ref) (key : string)
    : option (result JSONReporter.val) := None.

(** [obj = {n: 1n}; obj.self = obj] *)
Definition bigint_store : JSONReporter.store :=
  {[ 1%positive :=
       JSONReporter.OObject [("n", JSONReporter.VBigInt 1);
                             ("self", JSONReporter.VRef 1%positive)] ]}.

(** The string conversion of an object made by [Object.create(null)]. *)
Definition null_proto_toStr (r : ref) : result string := Throw TypeError.

(** [d = new Date(0); obj = {a: d, b: d}], and the [toJSON] of the
    date. *)
Definition date_store : JSONReporter.store :=
  {[ 1%positive :=
       JSONReporter.OObject [("a", JSONReporter.VRef 2%positive);
                             ("b", JSONReporter.VRef 2%positive)];
     2%positive := JSONReporter.OObject [] ]}.

Definition date_toJSON (r : ref) (key : string)
    : option (result JSONReporter.val) :=
  if decide (r = 2%positive)
  then Some (Ok (JSONReporter.VStr "1970-01-01T00:00:00.000Z"))
  else None.

(** An [escape] that leaves strings alone and prints integers in decimal. *)
Definition plain_escape (v : XUnit.AttrVal) : string :=
  match v with
  | XUnit.AStr s => s
  | XUnit.ANum q => of_Z (Qnum q / Zpos (Qden q))
  end.

(** The plain configuration with the diffs hidden. *)
Definition hiddenCfg : Config :=
  {| useColors := false; inlineDiffs := false; maxDiffSize := 8192;
     hideDiff := true |}.

(** An error whose stack does not hold its message; its cause is not
    even allocated. *)
Definition detached : ErrObj :=
  plain_error "boom" "    at f" (Some 2%positive).

Definition detached_heap : heap := {[ 1%positive := detached ]}.

(** An assertion on two numbers, and a world in which a test is about
    to fail with it. *)
Definition number_assertion : ErrObj :=
  mkErr true None "expected 1 to equal 2"
        ("AssertionError: expected 1 to equal 2" +:+ nl +:+ "    at f")
        None false true (JNum 1) (JNum 2) None.

Definition number_world : World :=
  mkWorld {[ 1%positive := number_assertion ]}
          {[ 1%positive := failing_test ]}
          [] (mkStats 1 0 0 1 5).

(** [inner = {x: 1}; obj = {a: inner, b: inner}] *)
Definition shared_store : JSONReporter.store :=
  {[ 1%positive :=
       JSONReporter.OObject [("a", JSONReporter.VRef 2%positive);
                             ("b", JSONReporter.VRef 2%positive)];
     2%positive := JSONReporter.OObject [("x", JSONReporter.VNum 1)] ]}.

(** A [color] that leaves the text alone. *)
Definition plain_color (type str : string) : string := str.


(** An [escape] of strings that changes nothing. *)
Definition id_escape (s : string) : string := s.

(** The title of the test at a reference. *)
Definition demo_title (r : ref) : string := "test " +:+ of_Z (Zpos r).

Section Worlds.

Context `{cfg : Config} `{lib : Lib}.

(** The test fails with the assertion ... *)
Definition world1 : World := run_world (on_test_fail 1%positive 1%positive world0).

(** ... and then a second time, with another [Error]. *)
Definition world2 : World := run_world (on_test_fail 1%positive 2%positive world1).

(** Or: the second fail event carries the plain object. *)
Definition world2' : World := run_world (on_test_fail 1%positive 3%positive world1).

End Worlds.

End Demo.

(** ** Predicates used in the statements *)

Import JsString Base.

(** The nodes of a chain: a set of allocated errors that holds the cause
    of each of its members. *)
Definition closed_under_cause (h : heap) (nodes : gset ref) : Prop :=
  ∀ r, r ∈ nodes →
       ∃ o, h !! r = Some o ∧ ∀ c, e_cause o = Some c → c ∈ nodes.

(** The object [a] is [o], possibly after [stringifyDiffObjs] ran on it
    for a diff that is shown. *)
Definition refines `{lib : Lib} (o a : ErrObj) : Prop :=
  a = o ∨ (showDiff o = true ∧ a = stringifyDiffObjs o).

(** The world [w] is [wb] up to such stringified errors. *)
Definition sim `{lib : Lib} (wb w : World) : Prop :=
  w_tests w = w_tests wb
  ∧ w_failures w = w_failures wb
  ∧ w_stats w = w_stats wb
  ∧ ∀ r, option_Forall2 refines (w_errs wb !! r) (w_errs w !! r).

(** The computation [m] logs and returns the same from every world that
    is [wb] up to stringified errors, and keeps the world so. *)
Definition tracks `{lib : Lib} {A} (wb : World) (m : M A) : Prop :=
  ∀ w, sim wb w →
       run_log (m w) = run_log (m wb)
       ∧ run_res (m w) = run_res (m wb)
       ∧ sim wb (run_world (m w)).

(** The number a block of the failure listing carries. *)
Definition block_number (c : LogCall) : option Z :=
  match c with
  | [LStr _; LNum n; LStr _; LStr _; LStr _] => Some n
  | _ => None
  end.

(** A computation's result with its value replaced. *)
Definition returning {A B} (r : Run A) (b : B) : Run B :=
  mkRun (run_world r) (run_log r)
        (match run_res r with
         | Ret _ => Ret b
         | Raise e => Raise e
         | Stuck => Stuck
         end).

(** Every cause of an allocated error is allocated. *)
Definition heap_closed (h : heap) : Prop := closed_under_cause h (dom h).

(** A world without dangling references: the failures are tests, the
    error of a test and the entries of its [multiple] sequence are
    allocated. *)
Definition world_wf (w : World) : Prop :=
  heap_closed (w_errs w)
  ∧ (∀ tr, tr ∈ w_failures w → is_Some (w_tests w !! tr))
  ∧ (∀ tr test e,
       w_tests w !! tr = Some test → t_err test = Some e →
       ∃ po, w_errs w !! e = Some po
             ∧ ∀ ms m, e_multiple po = Some ms → m ∈ ms →
                       is_Some (w_errs w !! m)).

(** The values an object holds. *)
Definition obj_values (o : JSONReporter.obj) : list JSONReporter.val :=
  match o with
  | JSONReporter.OObject props => map snd props
  | JSONReporter.OArray elems => elems
  end.

(** Every reference held by an allocated object is allocated. *)
Definition store_closed (h : JSONReporter.store) : Prop :=
  ∀ r o r', h !! r = Some o → JSONReporter.VRef r' ∈ obj_values o →
            is_Some (h !! r').

(** A store of plain data: the string conversion of every object
    returns, no object has a callable [toJSON], and none holds a
    [BigInt]. *)
Definition plain_store (toStr : ref → result string)
    (toJSON : ref → string → option (result JSONReporter.val))
    (h : JSONReporter.store) : Prop :=
  ∀ r o, h !! r = Some o →
         (∃ s, toStr r = Ok s)
         ∧ (∀ key, toJSON r key = None)
         ∧ JSONReporter.own_toJSON o = false
         ∧ ∀ n, JSONReporter.VBigInt n ∉ obj_values o.

(** A value a plain store may hold: an allocated reference, or a value
    that is no [BigInt]. *)
Definition servable (h : JSONReporter.store) (value : JSONReporter.val)
    : Prop :=
  (∀ r, value = JSONReporter.VRef r → is_Some (h !! r))
  ∧ ∀ n, value ≠ JSONReporter.VBigInt n.

(** A computation's result with a normal return replaced by a throw. *)
Definition then_raise {A B} (r : Run A) (e : Exn) : Run B :=
  mkRun (run_world r) (run_log r)
        (match run_res r with
         | Ret _ => Raise e
         | Raise x => Raise x
         | Stuck => Stuck
         end).

(** A computation that leaves every world as it is. *)
Definition read_only {A} (m : M A) : Prop := ∀ w, run_world (m w) = w.




(** The strip of the Landing reporter as it is drawn with the airplane
    at the end of the runway. *)
Definition landed (color : string → string → string) (width : Z)
    (dot pl : string) : list string :=
  [ esc +:+ "[" +:+ of_Z (width + 1) +:+ "D" +:+ esc +:+ "[2A";
    "  " +:+ color "runway" (repeat "-" (Z.to_nat width - 1));
    nl +:+ "  ";
    color "runway" (repeat dot (Z.to_nat width - 1));
    pl;
    color "runway" nl;
    "  " +:+ color "runway" (repeat "-" (Z.to_nat width - 1));
    esc +:+ "[0m" ].

(** The frames of a run in which the airplane stays there; [failed]
    tells whether a test failed before. *)
Fixpoint landed_frames (color : string → string → string) (width : Z)
    (airplane dot : string) (failed : bool) (events : list bool)
    : list string :=
  match events with
  | [] => []
  | f :: rest =>
      (landed color width dot
              (if failed || f then color "plane crash" airplane
               else color "plane" airplane)
       ++ landed_frames color width airplane dot (failed || f) rest)%list
  end.

(** The states a run of the Landing reporter goes through. *)
Definition landing_inv (color : string → string → string) (width : Z)
    (airplane : string) (failed : bool) (st : Landing.State) : Prop :=
  (0 ≤ Landing.n st)%Z ∧ Landing.total st = Landing.n st
  ∧ Landing.crashed st = (if failed then width else -1)%Z
  ∧ Landing.plane st
    = (if failed then color "plane crash" airplane
       else color "plane" airplane).

(** The opening tag of the [testcase] element of the XUnit report, up to
    its closing bracket. *)
Definition testcase_open (escape : XUnit.AttrVal → string)
    (relative : string → string) (showRelativePaths : bool)
    (t : XUnit.TestCase) : string :=
  "<testcase " +:+
  join " " (map (XUnit.attr escape)
              (XUnit.testcase_attrs relative showRelativePaths t)).

(** The number and the title of a line the List reporter prints for a
    failure. *)
Definition fail_line (o : ListReporter.Out) : option (Q * string) :=
  match o with
  | ListReporter.console
      [ListReporter.str _; ListReporter.num k; ListReporter.str title] =>
      Some (k, title)
  | _ => None
  end.

(** * Properties *)

(** ** String primitives *)

Lemma append_cons (a : ascii) (x y : string) :
  String a x +:+ y = String a (x +:+ y).
Proof. reflexivity. Qed.

Lemma append_nil_l (y : string) : EmptyString +:+ y = y.
Proof. reflexivity. Qed.

Lemma append_assoc (a b c : string) : (a +:+ b) +:+ c = a +:+ b +:+ c.
Proof.
  induction a as [|x a IH]; [now rewrite !append_nil_l|].
  rewrite !append_cons. now rewrite IH.
Qed.

Lemma take_drop (n : nat) (s : string) : take n s +:+ drop n s = s.
Proof.
  revert s; induction n as [|n IH]; intros [|a s]; simpl; try reflexivity.
  rewrite append_cons. f_equal. apply IH.
Qed.

Lemma len_take (n : nat) (s : string) : len (take n s) = Nat.min n (len s).
Proof.
  revert s; induction n as [|n IH]; intros [|a s]; simpl; try reflexivity.
  unfold len in *; simpl; now rewrite IH.
Qed.

Lemma take_0_substring (m : nat) (s : string) : take m s = substring 0 m s.
Proof.
  revert s; induction m as [|m IH]; intros [|a s]; simpl; try reflexivity.
  now rewrite IH.
Qed.

Lemma take_plus (i m : nat) (s : string) :
  take (i + m) s = take i s +:+ substring i m s.
Proof.
  revert s; induction i as [|i IH]; intros s.
  - simpl. rewrite append_nil_l. apply take_0_substring.
  - destruct s as [|a s]; simpl; [reflexivity|].
    rewrite append_cons. f_equal. apply IH.
Qed.

Lemma falsy_empty (s : string) : falsy s = true ↔ s = EmptyString.
Proof. destruct s; simpl; split; congruence. Qed.

Lemma falsy_false (s : string) : falsy s = false ↔ s ≠ EmptyString.
Proof. destruct s; simpl; split; congruence. Qed.

(** ** Flattening an error chain *)

Lemma message_index_Some (message stack : string) (i : nat) :
  message_index message stack = Some i ↔
  message ≠ EmptyString ∧ indexOf message stack = Some i.
Proof.
  unfold message_index. destruct (falsy message) eqn:F.
  - apply falsy_empty in F. split; [discriminate | tauto].
  - apply falsy_false in F. tauto.
Qed.

Lemma message_index_None (message stack : string) :
  message_index message stack = None ↔
  message = EmptyString ∨ indexOf message stack = None.
Proof.
  unfold message_index. destruct (falsy message) eqn:F.
  - apply falsy_empty in F. tauto.
  - apply falsy_false in F. tauto.
Qed.

(** C6, as the code has it: for an error without a cause whose non-empty
    message first occurs in the raw stack at index [i], [msg] is the raw
    stack up to and including that occurrence (so it is the message itself
    exactly when [i = 0]) and [stack] is the raw stack after that prefix
    and one further character; when the message is empty or does not
    occur, [msg] is the message and [stack] the whole raw stack. *)
Theorem C6_flatten_without_cause (h : heap) (err : ref) (o : ErrObj)
    (fuel : nat) :
  h !! err = Some o →
  e_cause o = None →
  (∀ i, err_message o ≠ EmptyString →
        indexOf (err_message o) (raw_stack o) = Some i →
        getFullErrorStack (S fuel) h err None
        = Some (mkFES (err_message o)
                      (take i (raw_stack o) +:+ err_message o)
                      (drop (i + len (err_message o) + 1) (raw_stack o)))
        ∧ take i (raw_stack o) +:+ err_message o
          = take (i + len (err_message o)) (raw_stack o)
        ∧ (i = 0 → take i (raw_stack o) +:+ err_message o = err_message o)
        ∧ (∀ p, p < i →
             substring p (len (err_message o)) (raw_stack o) ≠ err_message o))
  ∧ (err_message o = EmptyString ∨ indexOf (err_message o) (raw_stack o) = None →
     getFullErrorStack (S fuel) h err None
     = Some (mkFES (err_message o) (err_message o) (raw_stack o))).
Proof.
  intros Hh Hc. split.
  - intros i Hne Hi.
    assert (Hsub : substring i (len (err_message o)) (raw_stack o)
                   = err_message o)
      by (eapply index_correct1; exact Hi).
    assert (Hpre : take i (raw_stack o) +:+ err_message o
                   = take (i + len (err_message o)) (raw_stack o))
      by (rewrite take_plus, Hsub; reflexivity).
    repeat split.
    + simpl. rewrite Hh. simpl.
      assert (Hm : message_index (err_message o) (raw_stack o) = Some i)
        by (apply message_index_Some; auto).
      rewrite Hm, Hc, Hpre. reflexivity.
    + exact Hpre.
    + intros ->. reflexivity.
    + intros p Hp. eapply index_correct2; [exact Hi | lia | exact Hp].
  - intros Hnone. apply message_index_None in Hnone.
    simpl. rewrite Hh. simpl. rewrite Hnone. reflexivity.
Qed.

(** A witness for C6: [{message: 'boom', stack: 'boom\n    at f'}]. *)
Lemma C6_flatten_without_cause_witness :
  getFullErrorStack 1
    {[ 1%positive := Demo.plain_error "boom" ("boom" +:+ nl +:+ "    at f") None ]}
    1%positive None
  = Some (mkFES "boom" "boom" "    at f").
Proof.
  pose proof (C6_flatten_without_cause
    {[ 1%positive := Demo.plain_error "boom" ("boom" +:+ nl +:+ "    at f") None ]}
    1%positive
    (Demo.plain_error "boom" ("boom" +:+ nl +:+ "    at f") None) 0
    eq_refl eq_refl) as [H _].
  destruct (H 0 ltac:(discriminate) eq_refl) as [H1 _].
  exact H1.
Defined.

(** C6 as stated fails for [new Error('boom')]: the message occurs in the
    stack, there is no cause, and [msg] is ["Error: boom"], not the
    message. *)
Lemma C6_counterexample :
  Demo.boom_heap !! 1%positive = Some Demo.boom
  ∧ e_cause Demo.boom = None
  ∧ indexOf (err_message Demo.boom) (raw_stack Demo.boom) = Some 7
  ∧ getFullErrorStack 1 Demo.boom_heap 1%positive None
    = Some (mkFES "boom" "Error: boom" "    at f")
  ∧ "Error: boom" ≠ err_message Demo.boom.
Proof. repeat split; vm_compute; congruence. Qed.

Lemma seen_has_false (seen : option (gset ref)) (err : ref) :
  seen_has seen err = false → err ∉ default ∅ seen.
Proof.
  destruct seen as [s|]; simpl.
  - intros H. now apply bool_decide_eq_false in H.
  - intros _. apply not_elem_of_empty.
Qed.

Lemma unvisited_shrinks (nodes visited : gset ref) (err : ref) :
  err ∈ nodes → err ∉ visited →
  S (size (nodes ∖ ({[err]} ∪ visited))) = size (nodes ∖ visited).
Proof.
  intros Hin Hnot.
  assert (Heq : nodes ∖ visited = {[err]} ∪ nodes ∖ ({[err]} ∪ visited)).
  { apply set_eq. intros x. destruct (decide (x = err)) as [->|]; set_solver. }
  rewrite Heq.
  rewrite (size_union (C:=gset ref) {[err]} (nodes ∖ ({[err]} ∪ visited)))
    by set_solver.
  rewrite size_singleton. reflexivity.
Qed.

Lemma getFullErrorStack_unfold (fuel : nat) (h : heap) (err : ref)
    (seen : option (gset ref)) :
  getFullErrorStack (S fuel) h err seen
  = if seen_has seen err then Some circular
    else
      o ← h !! err;
      match message_index (err_message o) (raw_stack o) with
      | None => Some (mkFES (err_message o) (err_message o) (raw_stack o))
      | Some i =>
          match e_cause o with
          | None =>
              Some (mkFES (err_message o)
                      (take (i + len (err_message o)) (raw_stack o))
                      (drop (i + len (err_message o) + 1) (raw_stack o)))
          | Some c =>
              causeStack ← getFullErrorStack fuel h c
                             (Some (seen_add seen err));
              Some (mkFES (err_message o)
                      (take (i + len (err_message o)) (raw_stack o))
                      (drop (i + len (err_message o) + 1) (raw_stack o)
                       +:+ caused_by causeStack))
          end
      end.
Proof. reflexivity. Qed.

(** Frames suffice as soon as there are more of them than unvisited
    nodes. *)
Lemma getFullErrorStack_enough (h : heap) (nodes : gset ref) :
  closed_under_cause h nodes →
  ∀ fuel err seen,
    err ∈ nodes →
    size (nodes ∖ default ∅ seen) < fuel →
    is_Some (getFullErrorStack fuel h err seen).
Proof.
  intros Hclosed fuel. induction fuel as [|fuel IH]; intros err seen Hin Hsize.
  - lia.
  - rewrite getFullErrorStack_unfold.
    destruct (seen_has seen err) eqn:Hseen; [eauto|].
    apply seen_has_false in Hseen.
    destruct (Hclosed err Hin) as (o & Ho & Hcause).
    rewrite Ho. cbn [mbind option_bind].
    destruct (message_index _ _); [|eauto].
    destruct (e_cause o) as [c|] eqn:Hc; [|eauto].
    destruct (IH c (Some (seen_add seen err))) as [cs Hcs].
    + now apply Hcause.
    + cbn [default from_option id]. unfold seen_add.
      pose proof (unvisited_shrinks nodes (default ∅ seen) err Hin Hseen).
      lia.
    + rewrite Hcs. cbn [mbind option_bind]. eauto.
Qed.

Lemma getFullErrorStack_more_fuel (h : heap) (fuel : nat) :
  ∀ err seen r,
    getFullErrorStack fuel h err seen = Some r →
    getFullErrorStack (S fuel) h err seen = Some r.
Proof.
  induction fuel as [|fuel IH]; intros err seen r; [discriminate|].
  rewrite (getFullErrorStack_unfold (S fuel)), (getFullErrorStack_unfold fuel).
  destruct (seen_has seen err); [tauto|].
  destruct (h !! err) as [o|]; [|tauto]. cbn [mbind option_bind].
  destruct (message_index _ _); [|tauto].
  destruct (e_cause o) as [c|]; [|tauto].
  destruct (getFullErrorStack fuel h c (Some (seen_add seen err))) as [cs|] eqn:Hc;
    [|discriminate].
  rewrite (IH _ _ _ Hc). tauto.
Qed.

Lemma getFullErrorStack_fuel_le (h : heap) (fuel fuel' : nat) err seen r :
  (fuel ≤ fuel')%nat →
  getFullErrorStack fuel h err seen = Some r →
  getFullErrorStack fuel' h err seen = Some r.
Proof.
  induction 1 as [|fuel' _ IH]; [tauto|].
  intros H. apply getFullErrorStack_more_fuel. now apply IH.
Qed.

Lemma falsy_append_nl (a b : string) : falsy (a +:+ nl +:+ b) = false.
Proof. destruct a; [now rewrite append_nil_l | reflexivity]. Qed.

(** The record of an error with a cause, from the record of the cause. *)
Lemma getFullErrorStack_cause (fuel : nat) (h : heap) (err c : ref)
    (seen : option (gset ref)) (o : ErrObj) (i : nat) (cs : FullErrorStack) :
  h !! err = Some o →
  seen_has seen err = false →
  message_index (err_message o) (raw_stack o) = Some i →
  e_cause o = Some c →
  getFullErrorStack fuel h c (Some (seen_add seen err)) = Some cs →
  getFullErrorStack (S fuel) h err seen
  = Some (mkFES (err_message o)
            (take (i + len (err_message o)) (raw_stack o))
            (drop (i + len (err_message o) + 1) (raw_stack o) +:+
             nl +:+ "   Caused by: " +:+ fes_msg cs +:+
             (if falsy (fes_stack cs) then EmptyString
              else nl +:+ fes_stack cs))).
Proof.
  intros Ho Hseen Hi Hcause Hcs.
  rewrite getFullErrorStack_unfold, Hseen, Ho. cbn [mbind option_bind].
  rewrite Hi, Hcause, Hcs. reflexivity.
Qed.

Lemma getFullErrorStack_visited (fuel : nat) (h : heap) (c : ref)
    (seen : gset ref) :
  c ∈ seen →
  getFullErrorStack (S fuel) h c (Some seen)
  = Some (mkFES EmptyString "<circular>" EmptyString).
Proof.
  intros Hc. simpl. rewrite bool_decide_eq_true_2 by exact Hc. reflexivity.
Qed.

(** C1: on every chain, cyclic or not, flattening returns, and so does
    every call whose frame budget exceeds the number of distinct nodes of
    the chain: the top-level call nests at most that many recursive calls.
    A cause that is already in the visited set yields the [<circular>]
    record without recursion, and its parent appends exactly one
    ["Caused by: <circular>"] line with no stack after it.  Every other
    cause is flattened in turn, and its parent appends ["Caused by: "],
    the message part of the cause and, on a new line, the stack of the
    cause when that is not empty.  So on a mutual chain ([a.cause = b],
    [b.cause = a]) the record of [a] ends with the message part and the
    stack of [b] and then one [<circular>] line. *)
Theorem C1_cyclic_chain_terminates (h : heap) (nodes : gset ref) (err : ref) :
  err ∈ nodes →
  closed_under_cause h nodes →
  (∃ r, ∀ fuel, size nodes < fuel →
        getFullErrorStack fuel h err None = Some r)
  ∧ (∀ fuel c seen, c ∈ seen →
        getFullErrorStack (S fuel) h c (Some seen)
        = Some (mkFES EmptyString "<circular>" EmptyString))
  ∧ (∀ fuel seen o i c,
        h !! err = Some o →
        seen_has seen err = false →
        message_index (err_message o) (raw_stack o) = Some i →
        e_cause o = Some c →
        c ∈ seen_add seen err →
        getFullErrorStack (S (S fuel)) h err seen
        = Some (mkFES (err_message o)
                  (take (i + len (err_message o)) (raw_stack o))
                  (drop (i + len (err_message o) + 1) (raw_stack o)
                   +:+ nl +:+ "   Caused by: <circular>")))
  ∧ (∀ fuel seen o i c cs,
        h !! err = Some o →
        seen_has seen err = false →
        message_index (err_message o) (raw_stack o) = Some i →
        e_cause o = Some c →
        getFullErrorStack fuel h c (Some (seen_add seen err)) = Some cs →
        getFullErrorStack (S fuel) h err seen
        = Some (mkFES (err_message o)
                  (take (i + len (err_message o)) (raw_stack o))
                  (drop (i + len (err_message o) + 1) (raw_stack o) +:+
                   nl +:+ "   Caused by: " +:+ fes_msg cs +:+
                   (if falsy (fes_stack cs) then EmptyString
                    else nl +:+ fes_stack cs))))
  ∧ (∀ fuel o i b ob ib,
        h !! err = Some o →
        message_index (err_message o) (raw_stack o) = Some i →
        e_cause o = Some b →
        b ≠ err →
        h !! b = Some ob →
        message_index (err_message ob) (raw_stack ob) = Some ib →
        e_cause ob = Some err →
        getFullErrorStack (S (S (S fuel))) h err None
        = Some (mkFES (err_message o)
                  (take (i + len (err_message o)) (raw_stack o))
                  (drop (i + len (err_message o) + 1) (raw_stack o) +:+
                   nl +:+ "   Caused by: " +:+
                   take (ib + len (err_message ob)) (raw_stack ob) +:+
                   nl +:+
                   drop (ib + len (err_message ob) + 1) (raw_stack ob) +:+
                   nl +:+ "   Caused by: <circular>"))).
Proof.
  intros Hin Hclosed. split; [|split; [|split; [|split]]].
  - destruct (getFullErrorStack_enough h nodes Hclosed (S (size nodes)) err None)
      as [r Hr]; [exact Hin| |].
    + cbn [default from_option].
      assert (Hsub : nodes ∖ ∅ ⊆ nodes) by set_solver.
      apply subseteq_size in Hsub. lia.
    + exists r. intros fuel Hfuel.
      eapply getFullErrorStack_fuel_le; [|exact Hr]. lia.
  - intros fuel c seen Hc. now apply getFullErrorStack_visited.
  - intros fuel seen o i c Ho Hseen Hi Hcause Hc.
    rewrite (getFullErrorStack_cause (S fuel) h err c seen o i
               (mkFES EmptyString "<circular>" EmptyString)
               Ho Hseen Hi Hcause (getFullErrorStack_visited fuel h c _ Hc)).
    reflexivity.
  - intros fuel seen o i c cs. apply getFullErrorStack_cause.
  - intros fuel o i b ob ib Ho Hi Hcause Hne Hob Hib Hcauseb.
    assert (Hb : seen_has (Some (seen_add None err)) b = false).
    { unfold seen_has, seen_add. apply bool_decide_eq_false_2.
      cbn [default from_option]. set_solver. }
    assert (Herr : err ∈ seen_add (Some (seen_add None err)) b).
    { unfold seen_add. cbn [default from_option]. set_solver. }
    pose proof (getFullErrorStack_cause (S fuel) h b err _ ob ib _
                  Hob Hb Hib Hcauseb
                  (getFullErrorStack_visited fuel h err _ Herr)) as Hcs.
    cbn [fes_msg fes_stack falsy] in Hcs.
    rewrite (getFullErrorStack_cause (S (S fuel)) h err b None o i _
               Ho eq_refl Hi Hcause Hcs).
    cbn [fes_msg fes_stack]. rewrite falsy_append_nl.
    reflexivity.
Qed.

Lemma self_cycle_closed : closed_under_cause Demo.self_cycle {[ 1%positive ]}.
Proof.
  intros r Hr. apply elem_of_singleton in Hr. subst r.
  eexists. split; [reflexivity|].
  intros c Hc. injection Hc as <-. now apply elem_of_singleton.
Defined.

Lemma mutual_cycle_closed :
  closed_under_cause Demo.mutual_cycle {[ 1%positive; 2%positive ]}.
Proof.
  intros r Hr. apply elem_of_union in Hr as [Hr|Hr];
    apply elem_of_singleton in Hr; subst r;
    (eexists; split; [reflexivity|]);
    intros c Hc; injection Hc as <-; set_solver.
Defined.

(** A witness for C1: the self-referential error, and the
    mutually-referential pair, whose record holds the message part and
    the stack of the second error before the one marker. *)
Lemma C1_cyclic_chain_terminates_witness :
  getFullErrorStack 2 Demo.self_cycle 1%positive None
  = Some (mkFES "boom" "Error: boom"
                ("    at f" +:+ nl +:+ "   Caused by: <circular>"))
  ∧ getFullErrorStack 3 Demo.mutual_cycle 1%positive None
    = Some (mkFES "outer" "Error: outer"
              ("    at f" +:+ nl +:+ "   Caused by: Error: inner" +:+ nl +:+
               "    at g" +:+ nl +:+ "   Caused by: <circular>")).
Proof.
  split.
  - destruct (C1_cyclic_chain_terminates Demo.self_cycle {[ 1%positive ]}
                1%positive (proj2 (elem_of_singleton _ _) eq_refl)
                self_cycle_closed) as (_ & _ & H & _).
    assert (Hmem : 1%positive ∈ seen_add None 1%positive)
      by (unfold seen_add; apply elem_of_union_l; now apply elem_of_singleton).
    exact (H 0 None Demo.self_error 7 1%positive
             eq_refl eq_refl eq_refl eq_refl Hmem).
  - destruct (C1_cyclic_chain_terminates Demo.mutual_cycle
                {[ 1%positive; 2%positive ]} 1%positive
                ltac:(set_solver) mutual_cycle_closed) as (_ & _ & _ & _ & H).
    refine (H 0 (Demo.plain_error "outer" ("Error: outer" +:+ nl +:+ "    at f")
                   (Some 2%positive))
              7 2%positive
              (Demo.plain_error "inner" ("Error: inner" +:+ nl +:+ "    at g")
                 (Some 1%positive))
              7 eq_refl eq_refl eq_refl _ eq_refl eq_refl eq_refl).
    discriminate.
Defined.

(** The frames of the mutually-referential pair: two do not suffice. *)
Example mutual_cycle_flattened :
  getFullErrorStack 2 Demo.mutual_cycle 1%positive None = None.
Proof. vm_compute. reflexivity. Qed.

(** ** The pass handler *)

Lemma Qgtb_true (a b : Q) : Qgtb a b = true ↔ (b < a)%Q.
Proof.
  unfold Qgtb. rewrite negb_true_iff, <- not_true_iff_false, Qle_bool_iff.
  split; [apply Qnot_le_lt | apply Qlt_not_le].
Qed.

Lemma Qgtb_false (a b : Q) : Qgtb a b = false ↔ (a <= b)%Q.
Proof.
  unfold Qgtb. rewrite negb_false_iff, Qle_bool_iff. reflexivity.
Qed.

Lemma speed_of_slow (d T : Z) : (T < d)%Z → speed_of d T = slow.
Proof.
  intros H. unfold speed_of.
  rewrite (proj2 (Qgtb_true (inject_Z d) (inject_Z T))); [reflexivity|].
  now rewrite <- Zlt_Qlt.
Qed.

Lemma speed_of_medium (d T : Z) :
  (d ≤ T)%Z → (inject_Z T / 2 < inject_Z d)%Q → speed_of d T = medium.
Proof.
  intros H1 H2. unfold speed_of.
  rewrite (proj2 (Qgtb_false (inject_Z d) (inject_Z T)))
    by now rewrite <- Zle_Qle.
  now rewrite (proj2 (Qgtb_true (inject_Z d) (inject_Z T / 2)) H2).
Qed.

Lemma speed_of_fast (d T : Z) :
  (d ≤ T)%Z → (inject_Z d <= inject_Z T / 2)%Q → speed_of d T = fast.
Proof.
  intros H1 H2. unfold speed_of.
  rewrite (proj2 (Qgtb_false (inject_Z d) (inject_Z T)))
    by now rewrite <- Zle_Qle.
  now rewrite (proj2 (Qgtb_false (inject_Z d) (inject_Z T / 2)) H2).
Qed.

(** The half of the threshold, in integers. *)
Lemma half_lt (d T : Z) : (inject_Z T / 2 < inject_Z d)%Q ↔ (T < 2 * d)%Z.
Proof.
  unfold Qlt, Qdiv, Qmult, Qinv, inject_Z. cbn. lia.
Qed.

(** C4: for a test whose duration and slow threshold [T] are whole
    numbers of milliseconds, the pass handler stores [slow] when
    [duration > T], [medium] when [duration <= T] and [duration > T/2]
    (that is, [2 * duration > T]), and [fast] otherwise; with [T = 75],
    durations 100, 40 and 10 give slow, medium and fast. *)
Theorem C4_speed_classification (w : World) (test : ref) (t : Test) :
  w_tests w !! test = Some t →
  ∃ t',
    run_res (on_test_pass test w) = Ret tt
    ∧ w_tests (run_world (on_test_pass test w)) !! test = Some t'
    ∧ t_duration t' = t_duration t ∧ t_slow t' = t_slow t
    ∧ t_err t' = t_err t ∧ t_titlePath t' = t_titlePath t
    ∧ ((t_slow t < t_duration t)%Z → t_speed t' = Some slow)
    ∧ ((t_duration t ≤ t_slow t)%Z →
       (inject_Z (t_slow t) / 2 < inject_Z (t_duration t))%Q →
       t_speed t' = Some medium)
    ∧ ((t_duration t ≤ t_slow t)%Z → (t_slow t < 2 * t_duration t)%Z →
       t_speed t' = Some medium)
    ∧ ((t_duration t ≤ t_slow t)%Z →
       (inject_Z (t_duration t) <= inject_Z (t_slow t) / 2)%Q →
       t_speed t' = Some fast)
    ∧ ((t_duration t ≤ t_slow t)%Z → (2 * t_duration t ≤ t_slow t)%Z →
       t_speed t' = Some fast)
    ∧ speed_of 100 75 = slow
    ∧ speed_of 40 75 = medium
    ∧ speed_of 10 75 = fast.
Proof.
  intros Ht.
  exists (set_speed t (speed_of (t_duration t) (t_slow t))).
  unfold on_test_pass, mbind, M_bind, get_test, set_test. simpl.
  rewrite Ht. simpl. rewrite lookup_insert_eq.
  repeat split.
  - intros H. now rewrite speed_of_slow.
  - intros H1 H2. now rewrite speed_of_medium.
  - intros H1 H2. rewrite speed_of_medium; [reflexivity | exact H1|].
    now apply half_lt.
  - intros H1 H2. now rewrite speed_of_fast.
  - intros H1 H2. rewrite speed_of_fast; [reflexivity | exact H1|].
    apply Qnot_lt_le. intros Hlt. apply half_lt in Hlt. lia.
Qed.

(** A witness for C4: the tests that took 120ms, 40ms and 10ms under a
    75ms threshold. *)
Lemma C4_speed_classification_witness :
  t_speed <$> w_tests (run_world (on_test_pass 3%positive Demo.world0))
                !! 3%positive
  = Some (Some slow)
  ∧ t_speed <$> w_tests (run_world (on_test_pass 1%positive Demo.world40))
                  !! 1%positive
    = Some (Some medium)
  ∧ t_speed <$> w_tests (run_world (on_test_pass 2%positive Demo.world0))
                  !! 2%positive
    = Some (Some fast).
Proof.
  split; [|split].
  - destruct (C4_speed_classification Demo.world0 3%positive
                (Demo.passing_test 120) eq_refl)
      as (t' & _ & Hl & _ & _ & _ & _ & Hs & _).
    rewrite Hl. simpl. f_equal. apply Hs. reflexivity.
  - destruct (C4_speed_classification Demo.world40 1%positive
                (Demo.passing_test 40) eq_refl)
      as (t' & _ & Hl & _ & _ & _ & _ & _ & _ & Hm & _).
    rewrite Hl. simpl. f_equal. apply Hm; [discriminate | reflexivity].
  - destruct (C4_speed_classification Demo.world0 2%positive
                (Demo.passing_test 10) eq_refl)
      as (t' & _ & Hl & _ & _ & _ & _ & _ & _ & _ & _ & Hf & _).
    rewrite Hl. simpl. f_equal. apply Hf; discriminate.
Defined.

(** ** The fail handler *)

Lemma stringifyDiffObjs_multiple `{lib : Lib} (o : ErrObj) :
  e_multiple (stringifyDiffObjs o) = e_multiple o.
Proof. unfold stringifyDiffObjs. now destruct (_ || _). Qed.

(** C5, as the code has it: a fail event for an allocated value [err] on
    a test always returns and appends the test to the failures; when the
    test holds an error and [err] is an [Error] instance, the held error
    stays and [err] is appended to its [multiple] sequence; otherwise
    [err] becomes the test's error, whatever the test held before. *)
Theorem C5_fail_event `{lib : Lib} (w : World) (test err : ref) (t : Test)
    (o : ErrObj) :
  w_tests w !! test = Some t →
  w_errs w !! err = Some o →
  (∀ prior, t_err t = Some prior → is_Some (w_errs w !! prior)) →
  run_res (on_test_fail test err w) = Ret tt
  ∧ w_failures (run_world (on_test_fail test err w))
    = (w_failures w ++ [test])%list
  ∧ (∀ prior p,
       t_err t = Some prior → e_isError o = true →
       w_errs w !! prior = Some p →
       w_tests (run_world (on_test_fail test err w)) !! test = Some t
       ∧ e_multiple <$> w_errs (run_world (on_test_fail test err w)) !! prior
         = Some (Some (default [] (e_multiple p) ++ [err])%list))
  ∧ (t_err t = None ∨ e_isError o = false →
     t_err <$> w_tests (run_world (on_test_fail test err w)) !! test
     = Some (Some err)).
Proof.
  intros Ht Ho Hprior.
  assert (Hw1 : ∀ prior p, w_errs w !! prior = Some p →
                 ∃ p1, <[err:=stringifyDiffObjs o]> (w_errs w) !! prior = Some p1
                       ∧ e_multiple p1 = e_multiple p).
  { intros prior p Hp. destruct (decide (err = prior)) as [->|Hne].
    - rewrite lookup_insert_eq. eexists; split; [reflexivity|].
      rewrite stringifyDiffObjs_multiple. congruence.
    - rewrite lookup_insert_ne by exact Hne. eauto. }
  unfold on_test_fail, mbind, M_bind, get_err, get_test, set_err, set_test,
    push_failure, mret, M_ret, with_errs.
  rewrite Ho.
  destruct (showDiff o) eqn:Hsd;
    cbn [w_errs w_tests w_failures w_stats run_world run_log run_res];
    rewrite Ht;
    (destruct (t_err t) as [prior|] eqn:Hte;
     [destruct (Hprior prior eq_refl) as [p0 Hp0];
      destruct (Hw1 prior p0 Hp0) as (p1 & Hp1 & Hm1);
      destruct (e_isError o) eqn:Hie;
      cbn [w_errs w_tests w_failures w_stats run_world run_log run_res];
      rewrite ?Hp1, ?Hp0;
      cbn [w_errs w_tests w_failures w_stats run_world run_log run_res]
     |cbn [w_errs w_tests w_failures w_stats run_world run_log run_res]]).
  all: repeat split; try discriminate; try (intros [?|?]; discriminate).
  all: try (intros prior' p' Heq _ Hp'; injection Heq as <-;
            rewrite lookup_insert_eq; cbn; split; [exact Ht|];
            rewrite ?Hm1; congruence).
  all: try (intros _; rewrite lookup_insert_eq; reflexivity).
  all: try exact Ht.
  all: match goal with
       | H : Some _ = Some _ |- _ => injection H as <-
       end;
       rewrite lookup_insert_eq; cbn; rewrite ?Hm1; congruence.
Qed.

(** A witness for C5: the second [Error] of a test that already failed. *)
Lemma C5_fail_event_witness :
  e_multiple <$> w_errs (@Demo.world2 Demo.demoLib) !! 1%positive
  = Some (Some [2%positive]).
Proof.
  destruct (@C5_fail_event Demo.demoLib (@Demo.world1 Demo.demoLib)
              1%positive 2%positive
              (set_test_err Demo.failing_test 1%positive) Demo.second
              eq_refl eq_refl) as (_ & _ & H & _).
  - intros prior Hp. injection Hp as <-. eexists. reflexivity.
  - destruct (H 1%positive Demo.assertion eq_refl eq_refl eq_refl) as [_ Hm].
    exact Hm.
Defined.

(** C5 as stated fails when a test that holds an [Error] fails again with
    a value that is not an [Error]: the held error is a genuine one, and
    it is replaced. *)
Lemma C5_counterexample :
  t_err <$> w_tests (@Demo.world1 Demo.demoLib) !! 1%positive
  = Some (Some 1%positive)
  ∧ e_isError <$> w_errs (@Demo.world1 Demo.demoLib) !! 1%positive = Some true
  ∧ e_isError <$> w_errs (@Demo.world1 Demo.demoLib) !! 3%positive = Some false
  ∧ t_err <$> w_tests (@Demo.world2' Demo.demoLib) !! 1%positive
    = Some (Some 3%positive)
  ∧ w_failures (@Demo.world2' Demo.demoLib) = [1%positive; 1%positive].
Proof. repeat split; vm_compute; reflexivity. Qed.

(** ** Diff generation *)

Lemma len_take_le (n : nat) (s : string) : (len (take n s) ≤ n)%nat.
Proof. rewrite len_take. lia. Qed.

(** C2: with [maxDiffSize = N > 0] and an input longer than [N], the
    diff is computed on the first [N] characters of each input and the
    truncation notice naming [N] follows it; with [maxDiffSize = 0] the
    diff is computed on the whole inputs and returned as it is.  (The
    diff is the inline or the unified one, and it is assumed to return;
    a diff that throws is the subject of C3.) *)
Theorem C2_generateDiff_truncation `{cfg : Config} `{lib : Lib}
    (actual expected : string) :
  ((0 < maxDiffSize)%Z →
   (maxDiffSize < Z.of_nat (len actual)
    ∨ maxDiffSize < Z.of_nat (len expected))%Z →
   ∀ r,
     (if inlineDiffs then inlineDiff else unifiedDiff)
       (take (Z.to_nat maxDiffSize) actual)
       (take (Z.to_nat maxDiffSize) expected) = Ok r →
     generateDiff actual expected
     = Ok (r +:+ nl +:+ "      [mocha] output truncated to " +:+
           of_Z maxDiffSize +:+ " characters, see " +:+ dquote +:+
           "maxDiffSize" +:+ dquote +:+ " reporter-option" +:+ nl)
     ∧ (len (take (Z.to_nat maxDiffSize) actual) ≤ Z.to_nat maxDiffSize)%nat
     ∧ (len (take (Z.to_nat maxDiffSize) expected) ≤ Z.to_nat maxDiffSize)%nat
     ∧ actual = take (Z.to_nat maxDiffSize) actual
                +:+ drop (Z.to_nat maxDiffSize) actual
     ∧ expected = take (Z.to_nat maxDiffSize) expected
                  +:+ drop (Z.to_nat maxDiffSize) expected)
  ∧ (maxDiffSize = 0%Z →
     ∀ r,
       (if inlineDiffs then inlineDiff else unifiedDiff) actual expected
       = Ok r →
       generateDiff actual expected = Ok r).
Proof.
  split.
  - intros Hpos Hlong r Hr.
    repeat split; try apply len_take_le; try (symmetry; apply take_drop).
    unfold generateDiff, generateDiff_body.
    rewrite (proj2 (Z.ltb_lt 0 maxDiffSize) Hpos).
    assert (Hskip : (0 <? Z.max (Z.of_nat (len actual) - maxDiffSize)
                               (Z.of_nat (len expected) - maxDiffSize))%Z = true)
      by (apply Z.ltb_lt; lia).
    destruct inlineDiffs; rewrite Hr; cbn; rewrite Hskip; reflexivity.
  - intros Hzero r Hr.
    unfold generateDiff, generateDiff_body. rewrite Hzero.
    cbn. destruct inlineDiffs; rewrite Hr; reflexivity.
Qed.

(** A witness for C2: ['foo'] against ['bar'] under [maxDiffSize = 2]. *)
Lemma C2_generateDiff_truncation_witness :
  ∃ r, @unifiedDiff (Demo.cfgWith false 2) Demo.demoLib "fo" "ba" = Ok r
       ∧ @generateDiff (Demo.cfgWith false 2) Demo.demoLib "foo" "bar"
         = Ok (r +:+ truncation_notice 2).
Proof.
  destruct (@C2_generateDiff_truncation (Demo.cfgWith false 2) Demo.demoLib
              "foo" "bar") as [H _].
  eexists. split; [vm_compute; reflexivity|].
  refine (proj1 (H _ _ _ _)).
  - reflexivity.
  - left. reflexivity.
  - vm_compute. reflexivity.
Defined.

Lemma generateDiff_returns `{cfg : Config} `{lib : Lib}
    (actual expected : string) :
  ∃ s, generateDiff actual expected = Ok s.
Proof.
  unfold generateDiff, try_catch.
  destruct (generateDiff_body actual expected); eauto.
Qed.

(** C3: [generateDiff] returns a string for all inputs, whatever the
    [diff] package does; when the body of its [try] block throws, the
    string is the fallback notice, which is a single line between two
    newlines. *)
Theorem C3_generateDiff_never_throws `{cfg : Config} `{lib : Lib}
    (actual expected : string) :
  (∃ s, generateDiff actual expected = Ok s)
  ∧ (∀ e, generateDiff actual expected ≠ Throw e)
  ∧ (∀ e, generateDiff_body actual expected = Throw e →
          generateDiff actual expected = Ok fallback_notice)
  ∧ (∃ line, fallback_notice = nl +:+ line +:+ nl
             ∧ contains nl line = false).
Proof.
  pose proof (generateDiff_returns actual expected) as H.
  repeat split.
  - exact H.
  - intros e He. destruct H as [s Hs]. congruence.
  - intros e He. unfold generateDiff. rewrite He. reflexivity.
  - exists ("      " +:+ color "diff added" "+ expected" +:+ " " +:+
            color "diff removed" "- actual:  failed to generate Mocha diff").
    unfold fallback_notice, color. destruct useColors; vm_compute; split; reflexivity.
Qed.

(** A witness for C3: a [diff] package that throws on every call. *)
Lemma C3_generateDiff_never_throws_witness :
  @generateDiff Demo.plainCfg Demo.brokenLib "foo" "bar"
  = Ok (nl +:+ "      + expected - actual:  failed to generate Mocha diff" +:+ nl).
Proof.
  destruct (@C3_generateDiff_never_throws Demo.plainCfg Demo.brokenLib
              "foo" "bar") as (_ & _ & H & _).
  exact (H (LibraryError "createPatch") eq_refl).
Defined.

(** ** The failure listing *)

Section Listing.

Context `{cfg : Config} `{lib : Lib}.

Lemma run_bind {A B} (m : M A) (k : A → M B) (w : World) :
  (m ≫= k) w
  = match run_res (m w) with
    | Ret a =>
        mkRun (run_world (k a (run_world (m w))))
              (run_log (m w) ++ run_log (k a (run_world (m w))))
              (run_res (k a (run_world (m w))))
    | Raise e => mkRun (run_world (m w)) (run_log (m w)) (Raise e)
    | Stuck => mkRun (run_world (m w)) (run_log (m w)) Stuck
    end.
Proof.
  unfold mbind, M_bind. destruct (m w) as [w1 l1 [a|e|]]; simpl;
    [destruct (k a w1)|..]; reflexivity.
Qed.

Lemma render_entry_run (i : nat) (test : Test) (err : ref) (w : World) :
  render_entry i test (Some err) w
  = match getFullErrorStack (S (size (w_errs w))) (w_errs w) err None with
    | None => mkRun w [] Stuck
    | Some fes =>
        match w_errs w !! err with
        | None => mkRun w [] Stuck
        | Some o =>
            if negb hideDiff && showDiff o
            then
              let w' := with_errs w (<[err := stringifyDiffObjs o]> (w_errs w)) in
              match generateDiff_of (stringifyDiffObjs o) with
              | Ret d =>
                  mkRun w' [block i test diff_fmt (diff_msg o fes d) fes]
                        (Ret tt)
              | Raise e => mkRun w' [] (Raise e)
              | Stuck => mkRun w' [] Stuck
              end
            else mkRun w [block i test plain_fmt (plain_msg o fes) fes]
                       (Ret tt)
        end
    end.
Proof.
  unfold render_entry, mbind, M_bind, full_stack, get_err, set_err, lift,
    consoleLog, mret, M_ret, with_errs.
  destruct (getFullErrorStack _ _ _ _) as [fes|]; [|reflexivity].
  destruct (w_errs w !! err) as [o|]; [|reflexivity].
  destruct (negb hideDiff && showDiff o); [|reflexivity].
  cbn [w_errs w_tests w_failures w_stats run_world run_log run_res].
  destruct (generateDiff_of (stringifyDiffObjs o)); reflexivity.
Qed.

Lemma pick_err_run (tr : ref) (test : Test) (loc : ListLocals) (w : World) :
  pick_err tr test loc w
  = mkRun w []
      (match t_err test with
       | None => Ret (None, loc)
       | Some e =>
           match w_errs w !! e with
           | None => Stuck
           | Some po =>
               match e_multiple po with
               | None => Ret (Some e, loc)
               | Some ms =>
                   if decide (loc.1 = Some tr)
                   then Ret (head loc.2, (loc.1, tail loc.2))
                   else Ret (Some e, (Some tr, ms))
               end
           end
       end).
Proof.
  unfold pick_err, mbind, M_bind, get_err, mret, M_ret.
  destruct (t_err test) as [e|]; [|reflexivity].
  destruct (w_errs w !! e) as [po|]; [|reflexivity].
  destruct (e_multiple po) as [ms|]; [|reflexivity].
  destruct loc as [mt me]. cbn [fst snd].
  destruct (decide (mt = Some tr)); reflexivity.
Qed.


(** *** Stringified errors *)

Lemma stringifyDiffObjs_idem (o : ErrObj) :
  stringifyDiffObjs (stringifyDiffObjs o) = stringifyDiffObjs o.
Proof.
  unfold stringifyDiffObjs.
  destruct (negb (isString (e_actual o)) || negb (isString (e_expected o)))
    eqn:H; [reflexivity|].
  now rewrite H.
Qed.

Lemma showDiff_stringifyDiffObjs (o : ErrObj) :
  showDiff o = true → showDiff (stringifyDiffObjs o) = true.
Proof.
  unfold stringifyDiffObjs.
  destruct (negb (isString (e_actual o)) || negb (isString (e_expected o)));
    [|tauto].
  unfold showDiff. cbn. rewrite !andb_true_iff. tauto.
Qed.

Lemma refines_refl (o : ErrObj) : refines o o.
Proof. now left. Qed.

Lemma refines_stringified (o a : ErrObj) :
  refines o a → stringifyDiffObjs a = stringifyDiffObjs o.
Proof. intros [->|[_ ->]]; [reflexivity | apply stringifyDiffObjs_idem]. Qed.

Lemma refines_showDiff (o a : ErrObj) :
  refines o a → showDiff a = showDiff o.
Proof.
  intros [->|[H ->]]; [reflexivity|].
  rewrite H. now apply showDiff_stringifyDiffObjs.
Qed.

Lemma refines_fields (o a : ErrObj) :
  refines o a →
  e_isError a = e_isError o ∧ e_inspect a = e_inspect o
  ∧ e_message a = e_message o ∧ e_stack a = e_stack o
  ∧ e_cause a = e_cause o ∧ e_uncaught a = e_uncaught o
  ∧ e_multiple a = e_multiple o.
Proof.
  intros [->|[_ ->]]; [tauto|].
  unfold stringifyDiffObjs. destruct (_ || _); cbn; tauto.
Qed.

Lemma sim_refl (w : World) : sim w w.
Proof.
  repeat split. intros r. destruct (w_errs w !! r); constructor.
  apply refines_refl.
Qed.

Lemma sim_lookup (wb w : World) (r : ref) :
  sim wb w →
  (w_errs wb !! r = None ∧ w_errs w !! r = None)
  ∨ (∃ o a, w_errs wb !! r = Some o ∧ w_errs w !! r = Some a ∧ refines o a).
Proof.
  intros (_ & _ & _ & H). specialize (H r).
  inversion H; [right; eauto | left; split; congruence].
Qed.

Lemma sim_size (wb w : World) : sim wb w → size (w_errs w) = size (w_errs wb).
Proof.
  intros H. rewrite <- !size_dom. f_equal. apply set_eq. intros r.
  rewrite !elem_of_dom.
  destruct (sim_lookup wb w r H) as [[-> ->]|(o & a & -> & -> & _)];
    split; eauto.
Qed.

Lemma sim_getFullErrorStack (wb w : World) :
  sim wb w →
  ∀ fuel err seen,
    getFullErrorStack fuel (w_errs w) err seen
    = getFullErrorStack fuel (w_errs wb) err seen.
Proof.
  intros H fuel. induction fuel as [|fuel IH]; intros err seen; [reflexivity|].
  rewrite !getFullErrorStack_unfold.
  destruct (seen_has seen err); [reflexivity|].
  destruct (sim_lookup wb w err H) as [[-> ->]|(o & a & -> & -> & Hr)];
    [reflexivity|].
  apply refines_fields in Hr as (_ & Hi & Hm & Hs & Hc & _).
  cbn [mbind option_bind].
  unfold err_message, raw_stack, err_message. rewrite Hi, Hm, Hs, Hc.
  destruct (message_index _ _); [|reflexivity].
  destruct (e_cause o); [|reflexivity].
  now rewrite IH.
Qed.

Lemma sim_update (wb w : World) (err : ref) (o : ErrObj) :
  sim wb w → w_errs wb !! err = Some o → showDiff o = true →
  sim wb (with_errs w (<[err := stringifyDiffObjs o]> (w_errs w))).
Proof.
  intros (Ht & Hf & Hs & Hh) Ho Hd. repeat split; try assumption.
  intros r. cbn. destruct (decide (err = r)) as [<-|Hne].
  - rewrite lookup_insert_eq, Ho. constructor. right. auto.
  - rewrite lookup_insert_ne by exact Hne. apply Hh.
Qed.

(** *** Computations that only stringify *)

Lemma tracks_ret {A} (wb : World) (a : A) : tracks wb (mret a).
Proof. intros w H. repeat split; exact H || apply H. Qed.

Lemma tracks_lift {A} (wb : World) (o : outcome A) : tracks wb (lift o).
Proof. intros w H. repeat split; exact H || apply H. Qed.

Lemma tracks_consoleLog (wb : World) (args : LogCall) :
  tracks wb (consoleLog args).
Proof. intros w H. repeat split; exact H || apply H. Qed.

Lemma tracks_get_test (wb : World) (t : ref) : tracks wb (get_test t).
Proof.
  intros w H. unfold get_test. cbn. destruct H as (Ht & Hf & Hs & Hh).
  rewrite Ht. repeat split; assumption.
Qed.

Lemma tracks_get_stats (wb : World) : tracks wb get_stats.
Proof.
  intros w H. unfold get_stats. cbn. destruct H as (Ht & Hf & Hs & Hh).
  rewrite Hs. repeat split; assumption.
Qed.

Lemma tracks_get_failures (wb : World) : tracks wb get_failures.
Proof.
  intros w H. unfold get_failures. cbn. destruct H as (Ht & Hf & Hs & Hh).
  rewrite Hf. repeat split; assumption.
Qed.

Lemma tracks_bind {A B} (wb : World) (m : M A) (k : A → M B) :
  tracks wb m → (∀ a, tracks wb (k a)) → tracks wb (m ≫= k).
Proof.
  intros Hm Hk w Hw. rewrite !run_bind.
  destruct (Hm w Hw) as (Hl & Hr & Hs).
  destruct (Hm wb (sim_refl wb)) as (_ & _ & Hsb).
  rewrite Hr, Hl. destruct (run_res (m wb)) as [a|e|]; cbn.
  - destruct (Hk a _ Hs) as (Hl1 & Hr1 & Hs1).
    destruct (Hk a _ Hsb) as (Hl2 & Hr2 & Hs2).
    repeat split; [congruence | congruence | apply Hs1..].
  - repeat split; apply Hs.
  - repeat split; apply Hs.
Qed.

Lemma tracks_pick_err (wb : World) (tr : ref) (test : Test) (loc : ListLocals) :
  tracks wb (pick_err tr test loc).
Proof.
  intros w Hw. rewrite !pick_err_run. cbn.
  repeat split; try apply Hw.
  destruct (t_err test) as [e|]; [|reflexivity].
  destruct (sim_lookup wb w e Hw) as [[-> ->]|(o & a & -> & -> & Hr)];
    [reflexivity|].
  apply refines_fields in Hr as (_ & _ & _ & _ & _ & _ & ->). reflexivity.
Qed.

Lemma tracks_render_entry (wb : World) (i : nat) (test : Test)
    (err : option ref) :
  tracks wb (render_entry i test err).
Proof.
  destruct err as [err|]; [|apply tracks_lift].
  intros w Hw. rewrite !render_entry_run.
  rewrite (sim_size wb w Hw), (sim_getFullErrorStack wb w Hw).
  destruct (getFullErrorStack _ _ _ _) as [fes|]; [|repeat split; apply Hw].
  destruct (sim_lookup wb w err Hw) as [[-> ->]|(o & a & Ho & -> & Hr)];
    [repeat split; apply Hw|].
  rewrite Ho, (refines_showDiff o a Hr), (refines_stringified o a Hr).
  unfold diff_msg, plain_msg.
  destruct (refines_fields o a Hr) as (_ & _ & _ & _ & _ & -> & _).
  destruct (negb hideDiff && showDiff o) eqn:Hc;
    [|repeat split; apply Hw].
  apply andb_true_iff in Hc as [_ Hd]. cbn zeta.
  pose proof (sim_update wb w err o Hw Ho Hd) as Hu.
  destruct (generateDiff_of (stringifyDiffObjs o)); cbn;
    repeat split; apply Hu.
Qed.

Lemma tracks_list_entry (wb : World) (i : nat) (tr : ref) (loc : ListLocals) :
  tracks wb (list_entry i tr loc).
Proof.
  unfold list_entry.
  apply tracks_bind; [apply tracks_get_test|]. intros test.
  apply tracks_bind; [apply tracks_pick_err|]. intros picked.
  apply tracks_bind; [apply tracks_render_entry|]. intros _.
  apply tracks_ret.
Qed.

Lemma tracks_forEach_from {A} (wb : World) (f : nat → ref → A → M A) :
  (∀ i x a, tracks wb (f i x a)) →
  ∀ l i a, tracks wb (forEach_from f i l a).
Proof.
  intros Hf l. induction l as [|x l IH]; intros i a; cbn [forEach_from].
  - apply tracks_ret.
  - apply tracks_bind; [apply Hf|]. intros a'. apply IH.
Qed.

Lemma tracks_list_failures (wb : World) (failures : list ref) :
  tracks wb (list_failures failures).
Proof.
  unfold list_failures.
  apply tracks_bind; [apply tracks_consoleLog|]. intros _.
  apply tracks_bind; [|intros _; apply tracks_ret].
  apply tracks_forEach_from. intros. apply tracks_list_entry.
Qed.

Lemma tracks_epilogue (wb : World) : tracks wb epilogue.
Proof.
  unfold epilogue.
  apply tracks_bind; [apply tracks_get_stats|]. intros stats.
  apply tracks_bind; [apply tracks_consoleLog|]. intros _.
  apply tracks_bind; [apply tracks_consoleLog|]. intros _.
  apply tracks_bind.
  { destruct (negb _); [apply tracks_consoleLog | apply tracks_ret]. }
  intros _. apply tracks_bind; [|intros _; apply tracks_consoleLog].
  destruct (negb _); [|apply tracks_ret].
  apply tracks_bind; [apply tracks_consoleLog|]. intros _.
  apply tracks_bind; [apply tracks_get_failures|]. intros failures.
  apply tracks_bind; [apply tracks_list_failures|]. intros _.
  apply tracks_consoleLog.
Qed.

(** *** Numbering and the errors of one test *)


Lemma list_entry_run (i : nat) (tr : ref) (loc : ListLocals) (w : World)
    (test : Test) :
  w_tests w !! tr = Some test →
  list_entry i tr loc w
  = match run_res (pick_err tr test loc w) with
    | Ret picked => returning (render_entry i test picked.1 w) picked.2
    | Raise e => mkRun w [] (Raise e)
    | Stuck => mkRun w [] Stuck
    end.
Proof.
  intros Ht. unfold list_entry, mbind, M_bind, get_test. rewrite Ht.
  rewrite pick_err_run. cbn [run_res].
  destruct (match t_err test with Some _ => _ | None => _ end)
    as [picked|e|]; [|reflexivity..].
  unfold returning, mret, M_ret. cbv beta. cbn [app].
  destruct (render_entry _ _ _ _) as [w1 l1 [[]|e|]]; cbn;
    rewrite ?app_nil_r; reflexivity.
Qed.




(** *** No stuck state in a well-formed world *)

Lemma full_stack_returns (w : World) (err : ref) :
  heap_closed (w_errs w) → is_Some (w_errs w !! err) →
  ∃ fes, full_stack err w = mkRun w [] (Ret fes).
Proof.
  intros Hc Herr. unfold full_stack.
  destruct (getFullErrorStack_enough (w_errs w) (dom (w_errs w)) Hc
              (S (size (w_errs w))) err None) as [fes Hf].
  - now apply elem_of_dom.
  - cbn [default from_option]. rewrite difference_empty_L, size_dom. lia.
  - rewrite Hf. eauto.
Qed.

Lemma stringified_strings (o : ErrObj) :
  showDiff o = true →
  ∃ a e, e_actual (stringifyDiffObjs o) = JStr a
         ∧ e_expected (stringifyDiffObjs o) = JStr e.
Proof.
  intros _. unfold stringifyDiffObjs.
  destruct (e_actual o) eqn:Ha; destruct (e_expected o) eqn:He; cbn;
    rewrite ?Ha, ?He; eauto.
Qed.

Lemma generateDiff_of_stringified (o : ErrObj) :
  showDiff o = true → generateDiff_of (stringifyDiffObjs o) ≠ Stuck.
Proof.
  intros H. destruct (stringified_strings o H) as (a & e & Ha & He).
  unfold generateDiff_of. rewrite Ha, He.
  destruct (generateDiff_returns a e) as [s ->]. discriminate.
Qed.

Lemma render_entry_not_stuck (i : nat) (test : Test) (err : option ref)
    (w : World) :
  heap_closed (w_errs w) →
  (∀ r, err = Some r → is_Some (w_errs w !! r)) →
  run_res (render_entry i test err w) ≠ Stuck.
Proof.
  intros Hc Herr. destruct err as [err|]; [|discriminate].
  rewrite render_entry_run.
  destruct (full_stack_returns w err Hc (Herr err eq_refl)) as [fes Hf].
  unfold full_stack in Hf.
  destruct (getFullErrorStack _ _ _ _) as [fes'|]; [|discriminate].
  destruct (Herr err eq_refl) as [o ->].
  destruct (negb hideDiff && showDiff o) eqn:Hd; [|discriminate].
  apply andb_true_iff in Hd as [_ Hd]. cbn zeta.
  pose proof (generateDiff_of_stringified o Hd).
  destruct (generateDiff_of (stringifyDiffObjs o)); cbn; congruence.
Qed.

Lemma sim_allocated (wb w : World) (r : ref) :
  sim wb w → is_Some (w_errs wb !! r) → is_Some (w_errs w !! r).
Proof.
  intros Hs [o Ho].
  destruct (sim_lookup wb w r Hs) as [[H _]|(o' & a & _ & Ha & _)];
    [congruence | eauto].
Qed.

Lemma sim_wf (wb w : World) : sim wb w → world_wf wb → world_wf w.
Proof.
  intros Hs (Hc & Hf & He). pose proof Hs as (Ht & Hfl & _ & _).
  split; [|split].
  - intros r Hr. apply elem_of_dom in Hr as [a Ha].
    destruct (sim_lookup wb w r Hs) as [[_ H]|(o & a' & Ho & Ha' & Href)];
      [congruence|].
    destruct (Hc r) as (o' & Ho' & Hcause); [apply elem_of_dom; eauto|].
    exists a'. split; [exact Ha'|]. intros c Hca.
    apply refines_fields in Href as (_ & _ & _ & _ & Hcc & _).
    apply elem_of_dom. apply (sim_allocated wb w c Hs).
    apply elem_of_dom. apply Hcause. congruence.
  - intros tr Htr. rewrite Ht. apply Hf. now rewrite <- Hfl.
  - intros tr test e Htest Hte. rewrite Ht in Htest.
    destruct (He tr test e Htest Hte) as (po & Hpo & Hms).
    destruct (sim_lookup wb w e Hs) as [[H _]|(o & a & Ho & Ha & Href)];
      [congruence|].
    exists a. split; [exact Ha|]. intros ms m Hm Hin.
    apply refines_fields in Href as (_ & _ & _ & _ & _ & _ & Hmm).
    apply (sim_allocated wb w m Hs). apply (Hms ms m); [congruence | exact Hin].
Qed.

Lemma forEach_list_entry_not_stuck (l : list ref) :
  ∀ i loc w,
    world_wf w →
    (∀ tr, tr ∈ l → is_Some (w_tests w !! tr)) →
    (∀ m, m ∈ loc.2 → is_Some (w_errs w !! m)) →
    run_res (forEach_from list_entry i l loc w) ≠ Stuck.
Proof.
  induction l as [|tr l IH]; intros i loc w Hwf Hl Hloc; [discriminate|].
  cbn [forEach_from]. rewrite run_bind.
  destruct (Hl tr) as [test Ht]; [left|].
  rewrite (list_entry_run i tr loc w test Ht), pick_err_run.
  cbn [run_res].
  pose proof Hwf as (Hc & Hf & He).
  assert (Hpick : ∃ picked,
            match t_err test with
            | Some e =>
                match w_errs w !! e with
                | Some po =>
                    match e_multiple po with
                    | Some ms =>
                        if decide (loc.1 = Some tr)
                        then Ret (head loc.2, (loc.1, tail loc.2))
                        else Ret (Some e, (Some tr, ms))
                    | None => Ret (Some e, loc)
                    end
                | None => Stuck
                end
            | None => Ret (None, loc)
            end = Ret picked
            ∧ (∀ r, picked.1 = Some r → is_Some (w_errs w !! r))
            ∧ (∀ m, m ∈ picked.2.2 → is_Some (w_errs w !! m))).
  { destruct loc as [mt me]. cbn [fst snd] in *.
    destruct (t_err test) as [e|] eqn:Hte.
    - destruct (He tr test e Ht Hte) as (po & Hpo & Hms). rewrite Hpo.
      destruct (e_multiple po) as [ms|] eqn:Hm.
      + destruct (decide (mt = Some tr)).
        * eexists. split; [reflexivity|]. cbn [fst snd]. split.
          -- intros r Hr. apply Hloc. destruct me; [discriminate|].
             injection Hr as ->. left.
          -- intros m Hin. apply Hloc. destruct me; [exact Hin|].
             now right.
        * eexists. split; [reflexivity|]. cbn [fst snd]. split.
          -- intros r Hr. injection Hr as <-. eauto.
          -- intros m Hin. now apply (Hms ms m).
      + eexists. split; [reflexivity|]. cbn [fst snd]. split.
        -- intros r Hr. injection Hr as <-. eauto.
        -- exact Hloc.
    - eexists. split; [reflexivity|]. cbn [fst snd]. split.
      + discriminate.
      + exact Hloc. }
  destruct Hpick as (picked & -> & Hp1 & Hp2).
  unfold returning. cbn [run_res run_world run_log].
  pose proof (render_entry_not_stuck i test picked.1 w Hc Hp1) as Hns.
  destruct (tracks_render_entry w i test picked.1 w (sim_refl w))
    as (_ & _ & Hsim).
  destruct (run_res (render_entry i test picked.1 w)) as [[]|e|];
    [|discriminate|congruence].
  cbn [run_res]. apply IH.
  - now apply (sim_wf w).
  - intros tr' Htr'. destruct Hsim as (-> & _). apply Hl. now right.
  - intros m Hm. apply (sim_allocated w _ m Hsim). now apply Hp2.
Qed.

(** In a world without dangling references the epilogue returns or
    throws: the model never gets stuck. *)
Lemma epilogue_not_stuck (w : World) :
  world_wf w → run_res (epilogue w) ≠ Stuck.
Proof.
  intros Hwf. unfold epilogue.
  rewrite run_bind. cbn [get_stats run_res run_world run_log].
  rewrite run_bind. cbn [consoleLog run_res run_world run_log].
  rewrite run_bind. cbn [consoleLog run_res run_world run_log].
  rewrite run_bind.
  assert (Hpend : ∀ w',
            run_res ((if negb (s_pending (w_stats w) =? 0)%Z
                      then consoleLog
                             [LStr (color "pending" " " +:+
                                    color "pending" " %d pending");
                              LNum (s_pending (w_stats w))]
                      else mret tt) w') = Ret tt
            ∧ run_world ((if negb (s_pending (w_stats w) =? 0)%Z
                          then consoleLog
                                 [LStr (color "pending" " " +:+
                                        color "pending" " %d pending");
                                  LNum (s_pending (w_stats w))]
                          else mret tt) w') = w').
  { intros w'. destruct (negb _); split; reflexivity. }
  destruct (Hpend w) as [-> ->]. cbn [run_res].
  rewrite run_bind.
  destruct (negb (s_failures (w_stats w) =? 0)%Z); [|discriminate].
  rewrite run_bind. cbn [consoleLog run_res run_world run_log].
  rewrite run_bind. cbn [get_failures run_res run_world run_log].
  rewrite run_bind. unfold list_failures at 1 2 3 4.
  rewrite run_bind. cbn [consoleLog run_res run_world run_log].
  rewrite run_bind.
  pose proof (forEach_list_entry_not_stuck (w_failures w) 0 (None, []) w Hwf)
    as Hns.
  destruct (run_res (forEach_from list_entry 0 (w_failures w) (None, []) w));
    cbn; try discriminate.
  intros _. apply Hns; [apply Hwf | | reflexivity].
  intros m Hm. now apply elem_of_nil in Hm.
Qed.


(** C8: running the epilogue a second time, on the world the first run
    left, logs the same calls and ends the same way; the first run leaves
    the statistics and the failures as they were.  (By
    [epilogue_not_stuck] the runs return or throw in every world without
    dangling references.) *)
Theorem C8_epilogue_idempotent (w : World) :
  run_log (epilogue (run_world (epilogue w))) = run_log (epilogue w)
  ∧ run_res (epilogue (run_world (epilogue w))) = run_res (epilogue w)
  ∧ w_stats (run_world (epilogue w)) = w_stats w
  ∧ w_failures (run_world (epilogue w)) = w_failures w.
Proof.
  destruct (tracks_epilogue w w (sim_refl w)) as (_ & _ & Hs).
  destruct (tracks_epilogue w _ Hs) as (Hl & Hr & _).
  repeat split; try assumption; apply Hs.
Qed.

End Listing.



(** The epilogue of that run: two passing, one failing, two blocks. *)
Example epilogue_twice :
  run_res (epilogue (cfg:=Demo.plainCfg) (lib:=Demo.demoLib)
             (Demo.world2 (lib:=Demo.demoLib))) = Ret tt
  ∧ map block_number
        (run_log (epilogue (cfg:=Demo.plainCfg) (lib:=Demo.demoLib)
                    (Demo.world2 (lib:=Demo.demoLib))))
    = [None; None; None; None; Some 1%Z; Some 2%Z; None; None]
  ∧ run_log (epilogue (cfg:=Demo.plainCfg) (lib:=Demo.demoLib)
               (run_world (epilogue (cfg:=Demo.plainCfg) (lib:=Demo.demoLib)
                             (Demo.world2 (lib:=Demo.demoLib)))))
    = run_log (epilogue (cfg:=Demo.plainCfg) (lib:=Demo.demoLib)
                 (Demo.world2 (lib:=Demo.demoLib))).
Proof. repeat split; vm_compute; reflexivity. Qed.

(** ** The cycle cleaner of the JSON reporter *)

Import JSONReporter.

Section CleanerProofs.

Variable toStr : ref → result string.
Variable toJSON : ref → string → option (result val).

Lemma ser_items_returns {A B} (f : A → list ref → outcome B * list ref)
    (c0 : list ref) (items : list A) :
  (∀ x c, x ∈ items → c0 ⊆ c → ∃ y c', f x c = (Ret y, c') ∧ c ⊆ c') →
  ∀ c, c0 ⊆ c →
       ∃ ys c', ser_items f items c = (Ret ys, c') ∧ c ⊆ c'
                ∧ Forall2 (λ x y, ∃ c1 c2, c0 ⊆ c1 ∧ f x c1 = (Ret y, c2))
                          items ys.
Proof.
  induction items as [|x items IH]; intros Hf c Hc.
  - exists [], c. repeat split; [reflexivity | constructor].
  - destruct (Hf x c) as (y & c1 & Hy & Hc1); [left | exact Hc |].
    destruct (IH (λ x' c' Hx', Hf x' c' (list_elem_of_further _ _ _ Hx')) c1)
      as (ys & c2 & Hys & Hc2 & Hall); [etrans; eassumption|].
    exists (y :: ys), c2. cbn [ser_items]. rewrite Hy, Hys.
    repeat split; [etrans; eassumption|].
    constructor; [eauto | exact Hall].
Qed.

Lemma replacer_seen (r : ref) (s : string) (cache : list ref) :
  r ∈ cache → toStr r = Ok s →
  replacer toStr (VRef r) cache = (Ok (VStr s), cache).
Proof.
  intros H Hs. unfold replacer. rewrite bool_decide_eq_true_2 by exact H.
  now rewrite Hs.
Qed.

Lemma replacer_fresh (r : ref) (cache : list ref) :
  r ∉ cache →
  replacer toStr (VRef r) cache = (Ok (VRef r), (cache ++ [r])%list).
Proof. intros H. unfold replacer. now rewrite bool_decide_eq_false_2. Qed.

(** In a store of plain data [toJSON] changes nothing. *)
Lemma call_toJSON_plain (h : store) (key : string) (r : ref) :
  plain_store toStr toJSON h → is_Some (h !! r) →
  call_toJSON toJSON h key (VRef r) = Ret (VRef r).
Proof.
  intros Hplain [o Ho]. destruct (Hplain r o Ho) as (_ & Hj & Hown & _).
  unfold call_toJSON. now rewrite Hj, Ho, Hown.
Qed.

Lemma serialize_seen (fuel : nat) (h : store) (stack : list ref)
    (key : string) (r : ref) (s : string) (cache : list ref) :
  plain_store toStr toJSON h → is_Some (h !! r) →
  r ∈ cache → toStr r = Ok s →
  serialize toStr toJSON (S fuel) h stack key (VRef r) cache
  = (Ret (Some (JsStr s)), cache).
Proof.
  intros Hplain Hr H Hs. cbn [serialize].
  rewrite (call_toJSON_plain h key r Hplain Hr).
  now rewrite (replacer_seen r s cache H Hs).
Qed.

Lemma uncached_shrinks (h : store) (cache : list ref) (r : ref) (c : list ref) :
  is_Some (h !! r) → r ∉ cache → (cache ++ [r])%list ⊆ c →
  (size (dom h ∖ list_to_set c) < size (dom h ∖ list_to_set cache))%nat.
Proof.
  intros Hr Hn Hc. apply subset_size. apply strict_spec_alt. split.
  - intros x. rewrite !elem_of_difference, !elem_of_list_to_set.
    intros [Hx Hnc]. split; [exact Hx|]. intros Hin. apply Hnc, Hc.
    apply elem_of_app. now left.
  - intros Heq. assert (Hin : r ∈ dom h ∖ list_to_set (C:=gset ref) cache).
    { apply elem_of_difference. split; [now apply elem_of_dom|].
      now rewrite elem_of_list_to_set. }
    rewrite <- Heq in Hin. apply elem_of_difference in Hin as [_ Hin].
    apply Hin. rewrite elem_of_list_to_set. apply Hc, elem_of_app. right.
    now left.
Qed.

(** The values of the indexed elements are the elements. *)
Lemma indexed_values (elems : list val) (kv : string * val) :
  kv ∈ indexed elems → kv.2 ∈ elems.
Proof.
  unfold indexed. intros H. apply list_elem_of_lookup in H as [i Hi].
  rewrite list_lookup_imap in Hi.
  destruct (elems !! i) as [v|] eqn:Hv; [|discriminate].
  injection Hi as <-. cbn. apply list_elem_of_lookup. eauto.
Qed.

Lemma plain_values_servable (h : store) (r : ref) (o : obj) (v : val) :
  store_closed h → plain_store toStr toJSON h →
  h !! r = Some o → v ∈ obj_values o → servable h v.
Proof.
  intros Hclosed Hplain Ho Hv. split.
  - intros r' ->. now apply (Hclosed r o r' Ho).
  - intros n ->. destruct (Hplain r o Ho) as (_ & _ & _ & Hbig).
    now apply (Hbig n).
Qed.

Lemma serialize_returns (h : store) :
  store_closed h → plain_store toStr toJSON h →
  ∀ fuel stack key value cache,
    servable h value →
    stack ⊆ cache →
    (size (dom h ∖ list_to_set cache) < fuel)%nat →
    ∃ j cache',
      serialize toStr toJSON fuel h stack key value cache = (Ret j, cache')
      ∧ cache ⊆ cache'.
Proof.
  intros Hclosed Hplain fuel. induction fuel as [|fuel IH];
    intros stack key value cache [Hval Hbig] Hstack Hsize; [lia|].
  destruct value as [| | b | n | | s | n | | r];
    try (eexists _, cache; split; [reflexivity | done]).
  { now destruct (Hbig n). }
  pose proof (Hval r eq_refl) as Hr.
  destruct (decide (r ∈ cache)) as [Hin|Hnin].
  { destruct Hr as [o Ho]. destruct (Hplain r o Ho) as ([s Hs] & _).
    rewrite (serialize_seen fuel h stack key r s cache Hplain
               (mk_is_Some _ _ Ho) Hin Hs).
    eauto. }
  cbn [serialize]. rewrite (call_toJSON_plain h key r Hplain Hr).
  rewrite (replacer_fresh r cache Hnin).
  rewrite bool_decide_eq_false_2 by (intros Hs; apply Hnin, Hstack, Hs).
  destruct Hr as [o Ho]. rewrite Ho.
  assert (Hinner : ∀ k v c, servable h v →
            (cache ++ [r])%list ⊆ c →
            ∃ j c', serialize toStr toJSON fuel h (r :: stack) k v c
                    = (Ret j, c')
                    ∧ c ⊆ c').
  { intros k v c Hv Hc. apply IH; [exact Hv| |].
    - intros x Hx. apply Hc. apply elem_of_cons in Hx as [->|Hx].
      + apply elem_of_app. right. now left.
      + apply elem_of_app. left. now apply Hstack.
    - pose proof (uncached_shrinks h cache r c (mk_is_Some _ _ Ho) Hnin Hc).
      lia. }
  assert (Hgrow : cache ⊆ (cache ++ [r])%list)
    by (intros x Hx; apply elem_of_app; now left).
  destruct o as [props|elems].
  - destruct (ser_items_returns
                (λ kv c,
                   match serialize toStr toJSON fuel h (r :: stack)
                                   kv.1 kv.2 c with
                   | (Ret j, c') => (Ret (kv.1, j), c')
                   | (Raise e, c') => (Raise e, c')
                   | (Stuck, c') => (Stuck, c')
                   end)
                (cache ++ [r])%list props) with (c := (cache ++ [r])%list)
      as (kvs & c' & Hk & Hc' & _); [|done|].
    + intros kv c Hkv Hc.
      destruct (Hinner kv.1 kv.2 c) as (j & c' & Hj & Hc'); [|exact Hc|].
      * apply (plain_values_servable h r (OObject props) kv.2 Hclosed Hplain Ho).
        cbn. apply list_elem_of_fmap. eauto.
      * rewrite Hj. eauto.
    + rewrite Hk. eexists _, c'. split; [reflexivity|]. etrans; eassumption.
  - destruct (ser_items_returns
                (λ kv c, serialize toStr toJSON fuel h (r :: stack)
                                   kv.1 kv.2 c)
                (cache ++ [r])%list (indexed elems))
      with (c := (cache ++ [r])%list)
      as (js & c' & Hk & Hc' & _); [|done|].
    + intros kv c Hkv Hc. apply Hinner; [|exact Hc].
      apply (plain_values_servable h r (OArray elems) kv.2 Hclosed Hplain Ho).
      now apply indexed_values.
    + rewrite Hk. eexists _, c'. split; [reflexivity|]. etrans; eassumption.
Qed.

Lemma members_elem (k : string) (j : json) (kvs : list (string * option json)) :
  (k, Some j) ∈ kvs → (k, j) ∈ members kvs.
Proof.
  intros H. unfold members. apply list_elem_of_omap.
  exists (k, Some j). split; [exact H | reflexivity].
Qed.

Lemma serialize_root (h : store) (fuel : nat) (root : ref) (o : obj) :
  plain_store toStr toJSON h →
  h !! root = Some o →
  serialize toStr toJSON (S fuel) h [] EmptyString (VRef root) []
  = match o with
    | OObject props =>
        match ser_items
                (λ kv c,
                   match serialize toStr toJSON fuel h [root] kv.1 kv.2 c with
                   | (Ret j, c') => (Ret (kv.1, j), c')
                   | (Raise e, c') => (Raise e, c')
                   | (Stuck, c') => (Stuck, c')
                   end)
                props [root] with
        | (Ret kvs, c) => (Ret (Some (JsObj (members kvs))), c)
        | (Raise e, c) => (Raise e, c)
        | (Stuck, c) => (Stuck, c)
        end
    | OArray elems =>
        match ser_items
                (λ kv c, serialize toStr toJSON fuel h [root] kv.1 kv.2 c)
                (indexed elems) [root] with
        | (Ret js, c) => (Ret (Some (JsArr (elements js))), c)
        | (Raise e, c) => (Raise e, c)
        | (Stuck, c) => (Stuck, c)
        end
    end.
Proof.
  intros Hplain Ho. cbn [serialize].
  rewrite (call_toJSON_plain h EmptyString root Hplain (mk_is_Some _ _ Ho)).
  cbn [replacer].
  rewrite bool_decide_eq_false_2 by apply not_elem_of_nil.
  rewrite bool_decide_eq_false_2 by apply not_elem_of_nil.
  cbn [app]. rewrite Ho. reflexivity.
Qed.

Lemma uncached_root (h : store) (root : ref) (c : list ref) (fuel : nat) :
  is_Some (h !! root) → [root] ⊆ c → (size h < S fuel)%nat →
  (size (dom h ∖ list_to_set c) < fuel)%nat.
Proof.
  intros Hr Hc Hsize.
  pose proof (uncached_shrinks h [] root c Hr (not_elem_of_nil _) Hc) as H.
  cbn [list_to_set foldr] in H.
  rewrite difference_empty_L, size_dom in H. lia.
Qed.

Lemma cleanCycles_object (h : store) (fuel : nat) (root : ref)
    (props : list (string * val)) :
  store_closed h → plain_store toStr toJSON h →
  h !! root = Some (OObject props) → (size h < S fuel)%nat →
  ∃ kvs,
    cleanCycles toStr toJSON (S fuel) h (VRef root)
    = Ret (JsObj (members kvs))
    ∧ Forall2 (λ kv y, ∃ c1 c2 j,
                 [root] ⊆ c1 ∧ y = (kv.1, j)
                 ∧ serialize toStr toJSON fuel h [root] kv.1 kv.2 c1
                   = (Ret j, c2))
              props kvs.
Proof.
  intros Hclosed Hplain Ho Hsize. unfold cleanCycles.
  rewrite (serialize_root h fuel root _ Hplain Ho).
  destruct (ser_items_returns
              (λ kv c,
                 match serialize toStr toJSON fuel h [root] kv.1 kv.2 c with
                 | (Ret j, c') => (Ret (kv.1, j), c')
                 | (Raise e, c') => (Raise e, c')
                 | (Stuck, c') => (Stuck, c')
                 end)
              [root] props) with (c := [root])
    as (kvs & c' & Hk & _ & Hall); [|done|].
  - intros kv c Hkv Hc.
    destruct (serialize_returns h Hclosed Hplain fuel [root] kv.1 kv.2 c)
      as (j & c1 & Hj & Hc1); [|exact Hc| |].
    + apply (plain_values_servable h root (OObject props) kv.2
               Hclosed Hplain Ho).
      cbn. apply list_elem_of_fmap. eauto.
    + apply (uncached_root h root c fuel); eauto.
    + rewrite Hj. eauto.
  - rewrite Hk. cbn. exists kvs. split; [reflexivity|].
    eapply Forall2_impl; [exact Hall|]. cbn.
    intros kv y (c1 & c2 & Hc1 & Hy).
    destruct (serialize toStr toJSON fuel h [root] kv.1 kv.2 c1)
      as [[j|e|] c3] eqn:Hs; try discriminate.
    injection Hy as <- <-. eauto 10.
Qed.

Lemma cleanCycles_array (h : store) (fuel : nat) (root : ref)
    (elems : list val) :
  store_closed h → plain_store toStr toJSON h →
  h !! root = Some (OArray elems) → (size h < S fuel)%nat →
  ∃ js,
    cleanCycles toStr toJSON (S fuel) h (VRef root)
    = Ret (JsArr (elements js))
    ∧ Forall2 (λ kv j, ∃ c1 c2,
                 [root] ⊆ c1
                 ∧ serialize toStr toJSON fuel h [root] kv.1 kv.2 c1
                   = (Ret j, c2))
              (indexed elems) js.
Proof.
  intros Hclosed Hplain Ho Hsize. unfold cleanCycles.
  rewrite (serialize_root h fuel root _ Hplain Ho).
  destruct (ser_items_returns
              (λ kv c, serialize toStr toJSON fuel h [root] kv.1 kv.2 c)
              [root] (indexed elems))
    with (c := [root]) as (js & c' & Hk & _ & Hall); [|done|].
  - intros kv c Hkv Hc.
    apply (serialize_returns h Hclosed Hplain fuel [root] kv.1 kv.2 c);
      [|exact Hc|].
    + apply (plain_values_servable h root (OArray elems) kv.2
               Hclosed Hplain Ho).
      now apply indexed_values.
    + apply (uncached_root h root c fuel); eauto.
  - rewrite Hk. cbn. exists js. split; [reflexivity | exact Hall].
Qed.

Lemma indexed_lookup (elems : list val) (i : nat) (v : val) :
  elems !! i = Some v →
  indexed elems !! i = Some (of_Z (Z.of_nat i), v).
Proof.
  intros H. unfold indexed. now rewrite list_lookup_imap, H.
Qed.

Lemma fuel_two (h : store) (root : ref) (fuel : nat) :
  is_Some (h !! root) → (size h < fuel)%nat → ∃ fuel', fuel = S (S fuel').
Proof.
  intros [o Ho] Hsize.
  destruct (decide (size h = 0)) as [Hz|].
  { apply map_size_empty_inv in Hz. subst h. now rewrite lookup_empty in Ho. }
  destruct fuel as [|[|fuel']]; [lia | lia | eauto].
Qed.

(** C9, as the code has it: in a closed store of plain data (the string
    conversion of every object returns, no object has a callable
    [toJSON], none holds a [BigInt]) [cleanCycles] returns a JSON tree
    for any allocated object, which is finite and so has a JSON text;
    when the object is the value of one of its own properties (or one of
    its own elements), that property (element) of the result is the
    string form of the object. *)
Theorem C9_cleanCycles_self_reference (h : store) (root : ref) (fuel : nat) :
  store_closed h →
  plain_store toStr toJSON h →
  is_Some (h !! root) →
  (size h < fuel)%nat →
  (∃ j, cleanCycles toStr toJSON fuel h (VRef root) = Ret j)
  ∧ (∀ props k s,
       h !! root = Some (OObject props) →
       (k, VRef root) ∈ props →
       toStr root = Ok s →
       ∃ fields,
         cleanCycles toStr toJSON fuel h (VRef root) = Ret (JsObj fields)
         ∧ (k, JsStr s) ∈ fields)
  ∧ (∀ elems i s,
       h !! root = Some (OArray elems) →
       elems !! i = Some (VRef root) →
       toStr root = Ok s →
       ∃ items,
         cleanCycles toStr toJSON fuel h (VRef root) = Ret (JsArr items)
         ∧ items !! i = Some (JsStr s)).
Proof.
  intros Hclosed Hplain Hroot Hsize.
  destruct (fuel_two h root fuel Hroot Hsize) as [fuel' ->].
  split; [|split].
  - destruct Hroot as [[props|elems] Ho].
    + destruct (cleanCycles_object h _ root props Hclosed Hplain Ho Hsize)
        as (kvs & -> & _). eauto.
    + destruct (cleanCycles_array h _ root elems Hclosed Hplain Ho Hsize)
        as (js & -> & _). eauto.
  - intros props k s Ho Hk Hs.
    destruct (cleanCycles_object h _ root props Hclosed Hplain Ho Hsize)
      as (kvs & -> & Hall).
    eexists. split; [reflexivity|].
    apply list_elem_of_lookup in Hk as [i Hi].
    destruct (Forall2_lookup_l _ _ _ _ _ Hall Hi)
      as (y & Hy & c1 & c2 & j & Hc1 & -> & Hser).
    cbn [fst snd] in Hser, Hy.
    rewrite (serialize_seen fuel' h [root] k root s c1 Hplain Hroot) in Hser;
      [|apply Hc1; now left|exact Hs].
    injection Hser as <- _.
    apply members_elem. apply list_elem_of_lookup. eauto.
  - intros elems i s Ho Hi Hs.
    destruct (cleanCycles_array h _ root elems Hclosed Hplain Ho Hsize)
      as (js & -> & Hall).
    eexists. split; [reflexivity|].
    destruct (Forall2_lookup_l _ _ _ _ _ Hall (indexed_lookup elems i _ Hi))
      as (j & Hj & c1 & c2 & Hc1 & Hser).
    cbn [fst snd] in Hser.
    rewrite (serialize_seen fuel' h [root] _ root s c1 Hplain Hroot) in Hser;
      [|apply Hc1; now left|exact Hs].
    injection Hser as <- _.
    unfold elements. rewrite list_lookup_fmap, Hj. reflexivity.
Qed.

End CleanerProofs.

Lemma self_store_closed : store_closed Demo.self_store.
Proof.
  intros r o r' Hr Hin. unfold Demo.self_store in Hr.
  apply lookup_singleton_Some in Hr as [<- <-].
  cbn in Hin. apply elem_of_cons in Hin as [Hin|Hin]; [discriminate|].
  apply elem_of_cons in Hin as [Hin|Hin]; [|now apply elem_of_nil in Hin].
  injection Hin as ->. eexists. reflexivity.
Defined.

Lemma self_store_plain :
  plain_store Demo.plain_toStr Demo.no_toJSON Demo.self_store.
Proof.
  intros r o Hr. unfold Demo.self_store in Hr.
  apply lookup_singleton_Some in Hr as [<- <-].
  split; [eexists; reflexivity|]. split; [reflexivity|].
  split; [reflexivity|].
  intros n Hin. cbn in Hin.
  apply elem_of_cons in Hin as [Hin|Hin]; [discriminate|].
  apply elem_of_cons in Hin as [Hin|Hin]; [discriminate|].
  now apply elem_of_nil in Hin.
Defined.

(** A witness for C9: [err.self = err]. *)
Lemma C9_cleanCycles_self_reference_witness :
  ∃ fields,
    cleanCycles Demo.plain_toStr Demo.no_toJSON 2 Demo.self_store
                (VRef 1%positive)
    = Ret (JsObj fields)
    ∧ ("self", JsStr "[object Object]") ∈ fields.
Proof.
  destruct (C9_cleanCycles_self_reference Demo.plain_toStr Demo.no_toJSON
              Demo.self_store 1%positive 2 self_store_closed
              self_store_plain) as (_ & H & _).
  - eexists. reflexivity.
  - vm_compute. lia.
  - apply (H _ "self" _ eq_refl); [|reflexivity].
    apply list_elem_of_further. left.
Defined.

(** C9 as stated fails for self-referencing objects outside plain data.
    The object [{n: 1n, self: obj}] holds a [BigInt], on which
    [JSON.stringify] throws a [TypeError]; an object made by
    [Object.create(null)] with [obj.self = obj] has no string
    conversion, so the replacer's ['' + value] throws a [TypeError]. *)
Lemma C9_counterexample :
  Demo.bigint_store !! 1%positive
  = Some (OObject [("n", VBigInt 1); ("self", VRef 1%positive)])
  ∧ cleanCycles Demo.plain_toStr Demo.no_toJSON 2 Demo.bigint_store
                (VRef 1%positive)
    = Raise TypeError
  ∧ Demo.self_store !! 1%positive
    = Some (OObject [("message", VStr "boom"); ("self", VRef 1%positive)])
  ∧ Demo.null_proto_toStr 1%positive = Throw TypeError
  ∧ cleanCycles Demo.null_proto_toStr Demo.no_toJSON 2 Demo.self_store
                (VRef 1%positive)
    = Raise TypeError.
Proof. repeat split; vm_compute; reflexivity. Qed.

Example self_store_cleaned :
  cleanCycles Demo.plain_toStr Demo.no_toJSON 2 Demo.self_store
              (VRef 1%positive)
  = Ret (JsObj [("message", JsStr "boom"); ("self", JsStr "[object Object]")])
  ∧ cleanCycles Demo.plain_toStr Demo.no_toJSON 2 Demo.self_store VUndefined
    = Raise SyntaxError.
Proof. split; vm_compute; reflexivity. Qed.

(** ** The root element of the XUnit report *)

Lemma seconds_cases (d : Z) :
  XUnit.seconds d
  = if (d =? 0)%Z then 0%Q else (inject_Z d / 1000)%Q.
Proof.
  unfold XUnit.seconds. cbv zeta.
  destruct (d =? 0)%Z eqn:Hd.
  - apply Z.eqb_eq in Hd as ->. reflexivity.
  - destruct (Qeq_bool (inject_Z d / 1000) 0) eqn:Hq; [|reflexivity].
    apply Qeq_bool_eq in Hq. apply Z.eqb_neq in Hd.
    unfold Qeq in Hq. cbn in Hq. lia.
Qed.

Lemma testsuite_open_text (escape : XUnit.AttrVal → string)
    (suiteName timestamp : string) (stats : Stats) :
  XUnit.testsuite_open escape suiteName timestamp stats
  = "<testsuite name=" +:+ dquote +:+ escape (XUnit.AStr suiteName) +:+
    dquote +:+
    " tests=" +:+ dquote +:+
    escape (XUnit.ANum (inject_Z (s_tests stats))) +:+ dquote +:+
    " failures=" +:+ dquote +:+ escape (XUnit.ANum 0) +:+ dquote +:+
    " errors=" +:+ dquote +:+
    escape (XUnit.ANum (inject_Z (s_failures stats))) +:+ dquote +:+
    " skipped=" +:+ dquote +:+
    escape (XUnit.ANum (inject_Z (s_tests stats - s_failures stats
                                  - s_passes stats))) +:+ dquote +:+
    " timestamp=" +:+ dquote +:+ escape (XUnit.AStr timestamp) +:+
    dquote +:+
    " time=" +:+ dquote +:+
    escape (XUnit.ANum (if (s_duration stats =? 0)%Z then 0%Q
                        else (inject_Z (s_duration stats) / 1000)%Q)) +:+
    dquote +:+ ">".
Proof.
  rewrite <- seconds_cases.
  unfold XUnit.testsuite_open, XUnit.testsuite_attrs, XUnit.tag, XUnit.attr.
  cbn [map fst snd]. unfold join. cbn [String.concat].
  rewrite !append_assoc. reflexivity.
Qed.

(** C10: whatever the statistics, the text of the root element is
    [<testsuite] followed by seven attributes in this order, each as
    [key="escape(value)"]: the suite name, [tests], [failures] with the
    number 0, [errors] with the run's failure count, [skipped] with
    [tests - failures - passes], the timestamp and the time in seconds
    (0 for a duration of 0).  With an [escape] that prints 0 as [0] the
    element carries [failures="0"]. *)
Theorem C10_testsuite_attributes (escape : XUnit.AttrVal → string)
    (suiteName timestamp : string) (stats : Stats) :
  XUnit.testsuite_open escape suiteName timestamp stats
  = "<testsuite name=" +:+ dquote +:+ escape (XUnit.AStr suiteName) +:+
    dquote +:+
    " tests=" +:+ dquote +:+
    escape (XUnit.ANum (inject_Z (s_tests stats))) +:+ dquote +:+
    " failures=" +:+ dquote +:+ escape (XUnit.ANum 0) +:+ dquote +:+
    " errors=" +:+ dquote +:+
    escape (XUnit.ANum (inject_Z (s_failures stats))) +:+ dquote +:+
    " skipped=" +:+ dquote +:+
    escape (XUnit.ANum (inject_Z (s_tests stats - s_failures stats
                                  - s_passes stats))) +:+ dquote +:+
    " timestamp=" +:+ dquote +:+ escape (XUnit.AStr timestamp) +:+
    dquote +:+
    " time=" +:+ dquote +:+
    escape (XUnit.ANum (if (s_duration stats =? 0)%Z then 0%Q
                        else (inject_Z (s_duration stats) / 1000)%Q)) +:+
    dquote +:+ ">"
  ∧ (escape (XUnit.ANum 0) = "0" →
     XUnit.testsuite_open escape suiteName timestamp stats
     = "<testsuite name=" +:+ dquote +:+ escape (XUnit.AStr suiteName) +:+
       dquote +:+
       " tests=" +:+ dquote +:+
       escape (XUnit.ANum (inject_Z (s_tests stats))) +:+ dquote +:+
       " failures=" +:+ dquote +:+ "0" +:+ dquote +:+
       " errors=" +:+ dquote +:+
       escape (XUnit.ANum (inject_Z (s_failures stats))) +:+ dquote +:+
       " skipped=" +:+ dquote +:+
       escape (XUnit.ANum (inject_Z (s_tests stats - s_failures stats
                                     - s_passes stats))) +:+ dquote +:+
       " timestamp=" +:+ dquote +:+ escape (XUnit.AStr timestamp) +:+
       dquote +:+
       " time=" +:+ dquote +:+
       escape (XUnit.ANum (if (s_duration stats =? 0)%Z then 0%Q
                           else (inject_Z (s_duration stats) / 1000)%Q)) +:+
       dquote +:+ ">").
Proof.
  split; [apply testsuite_open_text|].
  intros H. rewrite testsuite_open_text. now rewrite H.
Qed.

(** A witness for C10: an [escape] that prints integers in decimal, for
    a run of three tests with one failure that took two seconds. *)
Lemma C10_testsuite_attributes_witness :
  XUnit.testsuite_open Demo.plain_escape "Mocha Tests"
    "Thu, 01 Jan 1970 00:00:00 GMT" (mkStats 3 2 0 1 2000)
  = "<testsuite name=" +:+ dquote +:+ "Mocha Tests" +:+ dquote +:+
    " tests=" +:+ dquote +:+ "3" +:+ dquote +:+
    " failures=" +:+ dquote +:+ "0" +:+ dquote +:+
    " errors=" +:+ dquote +:+ "1" +:+ dquote +:+
    " skipped=" +:+ dquote +:+ "0" +:+ dquote +:+
    " timestamp=" +:+ dquote +:+ "Thu, 01 Jan 1970 00:00:00 GMT" +:+ dquote +:+
    " time=" +:+ dquote +:+ "2" +:+ dquote +:+ ">".
Proof.
  etrans.
  - apply (proj2 (C10_testsuite_attributes Demo.plain_escape "Mocha Tests"
                    "Thu, 01 Jan 1970 00:00:00 GMT" (mkStats 3 2 0 1 2000))).
    reflexivity.
  - vm_compute. reflexivity.
Defined.

(** A run without skipped tests and of no duration. *)
Example testsuite_open_demo :
  XUnit.testsuite_open Demo.plain_escape "suite" "now" (mkStats 2 1 0 1 0)
  = "<testsuite name=" +:+ dquote +:+ "suite" +:+ dquote +:+
    " tests=" +:+ dquote +:+ "2" +:+ dquote +:+
    " failures=" +:+ dquote +:+ "0" +:+ dquote +:+
    " errors=" +:+ dquote +:+ "1" +:+ dquote +:+
    " skipped=" +:+ dquote +:+ "0" +:+ dquote +:+
    " timestamp=" +:+ dquote +:+ "now" +:+ dquote +:+
    " time=" +:+ dquote +:+ "0" +:+ dquote +:+ ">".
Proof. vm_compute. reflexivity. Qed.

(** * Further properties *)

(** ** Colors, padding and diffs *)

Lemma split_nonempty (c : ascii) (s : string) : split c s ≠ [].
Proof.
  destruct s as [|a s]; cbn [split]; [discriminate|].
  destruct (Ascii.eqb a c); [discriminate|]. destruct (split c s); discriminate.
Qed.

Lemma join_cons (sep x : string) (xs : list string) :
  xs ≠ [] → join sep (x :: xs) = x +:+ sep +:+ join sep xs.
Proof. destruct xs; [congruence | reflexivity]. Qed.

Lemma join_split (c : ascii) (s : string) :
  join (String c EmptyString) (split c s) = s.
Proof.
  induction s as [|a s IH]; [reflexivity|]. cbn [split].
  destruct (Ascii.eqb a c) eqn:Hac.
  - apply Ascii.eqb_eq in Hac as ->.
    rewrite join_cons by apply split_nonempty. now rewrite IH.
  - pose proof (split_nonempty c s) as Hne.
    destruct (split c s) as [|x xs]; [congruence|].
    destruct xs as [|y ys].
    + cbn in *. now rewrite IH.
    + rewrite join_cons by discriminate. rewrite join_cons in IH by discriminate.
      rewrite append_cons. now rewrite IH.
Qed.

Lemma map_color_plain `{cfg : Config} (name : string) (l : list string) :
  useColors = false → map (color name) l = l.
Proof.
  intros H. induction l as [|x l IH]; [reflexivity|].
  cbn [map]. rewrite IH. unfold color. now rewrite H.
Qed.

(** X1: with the colors switched off, [colorLines] returns its argument
    as it is, line breaks included: splitting at the newlines and joining
    again loses nothing. *)
Theorem X1_colorLines_without_colors `{cfg : Config} (name str : string) :
  useColors = false → colorLines name str = str.
Proof.
  intros H. unfold colorLines. rewrite (map_color_plain name _ H).
  apply (join_split "010"%char).
Qed.

(** A witness for X1: two lines under the plain configuration. *)
Lemma X1_colorLines_without_colors_witness :
  colorLines (cfg:=Demo.plainCfg) "diff added" ("+a" +:+ nl +:+ "+b")
  = "+a" +:+ nl +:+ "+b".
Proof.
  apply (X1_colorLines_without_colors (cfg:=Demo.plainCfg)). reflexivity.
Defined.

Lemma len_append (a b : string) : len (a +:+ b) = len a + len b.
Proof.
  induction a as [|c a IH]; [reflexivity|].
  rewrite append_cons. unfold len in *. cbn [String.length]. now rewrite IH.
Qed.

Lemma len_repeat_space (n : nat) : len (repeat " " n) = n.
Proof.
  induction n as [|n IH]; [reflexivity|].
  cbn [repeat]. rewrite len_append, IH. reflexivity.
Qed.

Lemma take_all (n : nat) (s : string) : (len s ≤ n)%nat → take n s = s.
Proof.
  revert s; induction n as [|n IH]; intros [|a s] H; cbn in *;
    try reflexivity; try lia.
  f_equal. apply IH. unfold len in *. lia.
Qed.

(** *** Padding *)

Lemma pad_fits (str : string) (width : nat) :
  (len str ≤ width + 1)%nat →
  pad str width = Ok (repeat " " (width - len str) +:+ str).
Proof.
  intros H. unfold pad, array_join_spaces.
  assert (Hn : (Z.of_nat width - Z.of_nat (len str) + 1 <? 0)%Z = false)
    by (apply Z.ltb_ge; lia).
  rewrite Hn. cbn.
  replace (Z.to_nat (Z.of_nat width - Z.of_nat (len str) + 1) - 1)%nat
    with (width - len str)%nat by lia.
  reflexivity.
Qed.

Lemma pad_len (str s : string) (width : nat) :
  pad str width = Ok s → len s = Nat.max width (len str).
Proof.
  intros H. destruct (decide (len str ≤ width + 1)%nat) as [Hle|Hgt].
  - rewrite (pad_fits str width Hle) in H. injection H as <-.
    rewrite len_append, len_repeat_space. lia.
  - unfold pad, array_join_spaces in H.
    assert (Hn : (Z.of_nat width - Z.of_nat (len str) + 1 <? 0)%Z = true)
      by (apply Z.ltb_lt; lia).
    rewrite Hn in H. discriminate.
Qed.

(** X3: [pad] puts spaces before a string that is shorter than the
    width and leaves a string of the width, or one character longer,
    as it is; the result is as long as the longer of the two.  For a
    string more than one character longer than the width,
    [Array(len - str.length + 1)] has a negative length and [pad]
    throws a [RangeError]. *)
Theorem X3_pad_bounds (str : string) (width : nat) :
  ((len str ≤ width + 1)%nat →
   pad str width = Ok (repeat " " (width - len str) +:+ str)
   ∧ ∀ s, pad str width = Ok s → len s = Nat.max width (len str))
  ∧ ((width + 1 < len str)%nat → pad str width = Throw RangeError).
Proof.
  split.
  - intros H. split; [now apply pad_fits|]. intros s. apply pad_len.
  - intros H. unfold pad, array_join_spaces.
    assert (Hn : (Z.of_nat width - Z.of_nat (len str) + 1 <? 0)%Z = true)
      by (apply Z.ltb_lt; lia).
    now rewrite Hn.
Qed.

(** A witness for X3: a digit padded to three columns, and a string of
    five characters that does not fit. *)
Lemma X3_pad_bounds_witness :
  pad "7" 3 = Ok "  7" ∧ pad "12345" 3 = Throw RangeError.
Proof.
  split.
  - apply (X3_pad_bounds "7" 3). cbn. lia.
  - apply (X3_pad_bounds "12345" 3). cbn. lia.
Defined.

(** *** Decimal digits *)

Lemma len_pretty_N_go_ge (x : N) (s : string) :
  (String.length s ≤ String.length (pretty_N_go x s))%nat.
Proof.
  revert s. induction (N.lt_wf_0 x) as [x _ IH]; intros s.
  destruct (decide (x = 0)%N) as [->|Hx]; [now rewrite pretty_N_go_0|].
  rewrite pretty_N_go_step by lia.
  etrans; [|apply IH; apply N.div_lt; lia]. cbn. lia.
Qed.

Lemma len_pretty_N_go_mono (y : N) :
  ∀ x s s', (x ≤ y)%N → String.length s = String.length s' →
    (String.length (pretty_N_go x s) ≤ String.length (pretty_N_go y s'))%nat.
Proof.
  induction (N.lt_wf_0 y) as [y _ IH]; intros x s s' Hxy Hs.
  destruct (decide (x = 0)%N) as [->|Hx].
  - rewrite pretty_N_go_0, Hs. apply len_pretty_N_go_ge.
  - rewrite (pretty_N_go_step x), (pretty_N_go_step y) by lia.
    apply IH.
    + apply N.div_lt; lia.
    + apply N.Div0.div_le_mono. exact Hxy.
    + cbn. now rewrite Hs.
Qed.

Lemma len_of_Z_mono (x y : Z) :
  (0 < x ≤ y)%Z → (len (of_Z x) ≤ len (of_Z y))%nat.
Proof.
  intros [Hx Hxy]. destruct x as [|p|p]; try lia. destruct y as [|q|q]; try lia.
  unfold of_Z, len, pretty, pretty_Z, pretty, pretty_positive, pretty, pretty_N.
  rewrite !decide_False by discriminate.
  apply len_pretty_N_go_mono; [lia | reflexivity].
Qed.

Section DiffExtras.

Context `{cfg : Config} `{lib : Lib}.

Lemma number_lines_returns (width : nat) (lines : list string) :
  ∀ index,
    (len (of_Z (Z.of_nat (index + length lines))) ≤ width)%nat →
    ∃ l, number_lines width index lines = Ok l.
Proof.
  induction lines as [|line rest IH]; intros index Hw; [eexists; reflexivity|].
  cbn [number_lines length] in *.
  assert (Hp : (len (of_Z (Z.of_nat (index + 1))) ≤ width + 1)%nat).
  { etrans; [apply (len_of_Z_mono _ (Z.of_nat (index + S (length rest)))); lia|].
    lia. }
  rewrite (pad_fits (of_Z (Z.of_nat (index + 1))) width Hp).
  destruct (IH (S index)) as [l ->].
  - replace (S index + length rest)%nat with (index + S (length rest))%nat by lia.
    exact Hw.
  - eexists. reflexivity.
Qed.

(** [inlineDiff] returns whenever the diff package does: its own
    padding never throws. *)
Lemma inlineDiff_returns (actual expected : string) :
  (∀ changes, diffWordsWithSpace actual expected = Ok changes →
              ∃ s, inlineDiff actual expected = Ok s)
  ∧ (∀ e, inlineDiff actual expected = Throw e →
          diffWordsWithSpace actual expected = Throw e).
Proof.
  assert (H : ∀ changes, diffWordsWithSpace actual expected = Ok changes →
              ∃ s, inlineDiff actual expected = Ok s).
  { intros changes Hc. unfold inlineDiff, errorDiff. rewrite Hc.
    cbn [mbind result_bind mret result_ret].
    match goal with
    | |- context [(4 <? ?n)%nat] => destruct (4 <? n)%nat
    end; [|eexists; reflexivity].
    match goal with
    | |- context [number_lines ?w 0 ?ls] =>
        destruct (number_lines_returns w ls 0) as [l Hl]; [cbn; lia|]
    end.
    rewrite Hl. cbn [mbind result_bind mret result_ret]. eexists. reflexivity. }
  split; [exact H|].
  intros e He. destruct (diffWordsWithSpace actual expected) as [cs|e'] eqn:Hd.
  - destruct (H cs eq_refl) as [s Hs]. congruence.
  - unfold inlineDiff, errorDiff in He. rewrite Hd in He. cbn in He. congruence.
Qed.

(** X4: the only exception the [try] block of [generateDiff] can meet
    is one thrown by the diff package itself, called on the inputs after
    their truncation: the padding of the line numbers and the rest of the
    rendering never throw. *)
Theorem X4_diff_throws_only_from_package (actual expected : string)
    (e : Exn) :
  generateDiff_body actual expected = Throw e →
  let a := if (0 <? maxDiffSize)%Z
           then take (Z.to_nat maxDiffSize) actual else actual in
  let x := if (0 <? maxDiffSize)%Z
           then take (Z.to_nat maxDiffSize) expected else expected in
  if inlineDiffs
  then diffWordsWithSpace a x = Throw e
  else createPatch "string" a x = Throw e.
Proof.
  unfold generateDiff_body. intros H. cbn zeta.
  destruct (0 <? maxDiffSize)%Z; cbn [mbind result_bind] in H;
    destruct inlineDiffs.
  all: try match type of H with
       | context [inlineDiff ?a ?x] =>
           destruct (inlineDiff a x) as [r|e'] eqn:Hi; [discriminate|];
           injection H as ->; now apply inlineDiff_returns
       end.
  all: match type of H with
       | context [unifiedDiff ?a ?x] =>
           unfold unifiedDiff in H;
           destruct (createPatch "string" a x) as [r|e'];
           [discriminate | exact H]
       end.
Qed.

(** X2: with a positive [maxDiffSize] that both inputs fit in,
    [generateDiff] returns the inline or the unified diff of the whole
    inputs, without the truncation notice. *)
Theorem X2_generateDiff_within_limit (actual expected r : string) :
  (0 < maxDiffSize)%Z →
  (Z.of_nat (len actual) ≤ maxDiffSize)%Z →
  (Z.of_nat (len expected) ≤ maxDiffSize)%Z →
  (if inlineDiffs then inlineDiff else unifiedDiff) actual expected = Ok r →
  generateDiff actual expected = Ok r.
Proof.
  intros Hpos Ha He Hr. unfold generateDiff, generateDiff_body.
  rewrite (proj2 (Z.ltb_lt 0 maxDiffSize) Hpos).
  rewrite !take_all by lia.
  assert (Hskip : (0 <? Z.max (Z.of_nat (len actual) - maxDiffSize)
                             (Z.of_nat (len expected) - maxDiffSize))%Z = false)
    by (apply Z.ltb_ge; lia).
  destruct inlineDiffs; rewrite Hr; cbn; rewrite Hskip; reflexivity.
Qed.

End DiffExtras.

(** A witness for X2: two short one-line texts. *)
Lemma X2_generateDiff_within_limit_witness :
  ∃ r, unifiedDiff (cfg:=Demo.plainCfg) (lib:=Demo.demoLib) "foo" "bar" = Ok r
       ∧ generateDiff (cfg:=Demo.plainCfg) (lib:=Demo.demoLib) "foo" "bar"
         = Ok r.
Proof.
  eexists. split; [vm_compute; reflexivity|].
  apply (X2_generateDiff_within_limit (cfg:=Demo.plainCfg)
           (lib:=Demo.demoLib)).
  - reflexivity.
  - vm_compute. discriminate.
  - vm_compute. discriminate.
  - vm_compute. reflexivity.
Defined.

(** A witness for X4: a diff package whose [createPatch] throws. *)
Lemma X4_diff_throws_only_from_package_witness :
  createPatch (Lib:=Demo.brokenLib) "string" "foo" "bar"
  = Throw (LibraryError "createPatch").
Proof.
  exact (X4_diff_throws_only_from_package
           (cfg:=Demo.plainCfg) (lib:=Demo.brokenLib) "foo" "bar"
           (LibraryError "createPatch") eq_refl).
Defined.

(** ** Flattening: the cause of an error whose message is not found *)

(** X5: for an error whose message is empty or does not occur in its
    stack, [getFullErrorStack] returns the message and the whole stack
    and never looks at the cause: one frame suffices whatever the cause
    is, allocated or not. *)
Theorem X5_stack_without_message_ignores_cause (h : heap) (err : ref) (o : ErrObj)
    (seen : option (gset ref)) (fuel : nat) :
  h !! err = Some o →
  seen_has seen err = false →
  err_message o = EmptyString
  ∨ indexOf (err_message o) (raw_stack o) = None →
  getFullErrorStack (S fuel) h err seen
  = Some (mkFES (err_message o) (err_message o) (raw_stack o)).
Proof.
  intros Ho Hs Hn. apply message_index_None in Hn.
  rewrite getFullErrorStack_unfold, Hs, Ho. cbn [mbind option_bind].
  now rewrite Hn.
Qed.

(** A witness for X5: the message is not in the stack, the cause is a
    reference that is not allocated. *)
Lemma X5_stack_without_message_ignores_cause_witness :
  getFullErrorStack 1 Demo.detached_heap 1%positive None
  = Some (mkFES "boom" "boom" "    at f").
Proof.
  apply (X5_stack_without_message_ignores_cause Demo.detached_heap
           1%positive Demo.detached None 0).
  - reflexivity.
  - reflexivity.
  - right. vm_compute. reflexivity.
Defined.

(** ** More on the fail handler and the diffs *)

Section MoreRendering.

Context `{cfg : Config} `{lib : Lib}.

Lemma stringifyDiffObjs_strings (o : ErrObj) :
  isString (e_actual (stringifyDiffObjs o)) = true
  ∧ isString (e_expected (stringifyDiffObjs o)) = true.
Proof.
  unfold stringifyDiffObjs.
  destruct (isString (e_actual o)) eqn:Ha;
    destruct (isString (e_expected o)) eqn:He; cbn; auto.
Qed.

(** X9: after a fail event the reported value carries the diff values
    the listing needs: when its diff is to be shown, [actual] and
    [expected] are strings (the [utils.stringify] forms, unless both
    were strings already) and the diff is still to be shown; otherwise
    the two values are as they were. *)
Theorem X9_fail_event_stringifies (w : World) (test err : ref) (t : Test)
    (o : ErrObj) :
  w_tests w !! test = Some t →
  w_errs w !! err = Some o →
  (∀ prior, t_err t = Some prior → is_Some (w_errs w !! prior)) →
  ∃ o',
    w_errs (run_world (on_test_fail test err w)) !! err = Some o'
    ∧ e_actual o' = e_actual (if showDiff o then stringifyDiffObjs o else o)
    ∧ e_expected o' = e_expected (if showDiff o then stringifyDiffObjs o else o)
    ∧ (showDiff o = true →
       isString (e_actual o') = true ∧ isString (e_expected o') = true
       ∧ showDiff o' = true).
Proof.
  intros Ht Ho Hprior.
  set (o1 := if showDiff o then stringifyDiffObjs o else o).
  set (h1 := if showDiff o then <[err := stringifyDiffObjs o]> (w_errs w)
             else w_errs w).
  assert (Ho1 : h1 !! err = Some o1).
  { unfold h1, o1. destruct (showDiff o); [apply lookup_insert_eq | exact Ho]. }
  assert (Hfacts : showDiff o = true →
            isString (e_actual o1) = true ∧ isString (e_expected o1) = true
            ∧ showDiff o1 = true).
  { intros Hs. unfold o1. rewrite Hs.
    destruct (stringifyDiffObjs_strings o) as [Ha He].
    repeat split; [exact Ha | exact He |].
    now apply showDiff_stringifyDiffObjs. }
  assert (Hrun : ∃ o', w_errs (run_world (on_test_fail test err w)) !! err
                       = Some o'
                       ∧ e_actual o' = e_actual o1
                       ∧ e_expected o' = e_expected o1
                       ∧ showDiff o' = showDiff o1).
  { assert (Hh1 : ∀ prior, is_Some (w_errs w !! prior) → is_Some (h1 !! prior)).
    { intros prior [p Hp]. unfold h1. destruct (showDiff o); [|eauto].
      destruct (decide (err = prior)) as [->|Hne];
        [rewrite lookup_insert_eq | rewrite lookup_insert_ne by exact Hne];
        eauto. }
    unfold on_test_fail, mbind, M_bind, get_err, get_test, set_err, set_test,
      push_failure, mret, M_ret, with_errs.
    rewrite Ho. fold o1.
    assert (Hkeep : ∃ o', h1 !! err = Some o' ∧ e_actual o' = e_actual o1
                          ∧ e_expected o' = e_expected o1
                          ∧ showDiff o' = showDiff o1) by eauto.
    unfold h1 in *.
    destruct (showDiff o);
      cbn [w_errs w_tests w_failures w_stats run_world run_log run_res];
      rewrite Ht;
      (destruct (t_err t) as [prior|] eqn:Hte;
       [destruct (Hh1 prior (Hprior prior eq_refl)) as [p1 Hp1];
        destruct (e_isError o);
        cbn [w_errs w_tests w_failures w_stats run_world run_log run_res];
        rewrite ?Hp1;
        cbn [w_errs w_tests w_failures w_stats run_world run_log run_res]
       |cbn [w_errs w_tests w_failures w_stats run_world run_log run_res]]);
      try exact Hkeep.
    all: destruct (decide (prior = err)) as [->|Hne];
      [rewrite lookup_insert_eq; eexists; split; [reflexivity|];
       replace p1 with o1 by congruence; repeat split
      |rewrite lookup_insert_ne by exact Hne; exact Hkeep]. }
  destruct Hrun as (o' & Ho' & Ha & He & Hs).
  exists o'. repeat split; try assumption.
  - rewrite Ha. now apply Hfacts.
  - rewrite He. now apply Hfacts.
  - rewrite Hs. now apply Hfacts.
Qed.

(** *** The numbered lines of an inline diff *)

Lemma number_lines_gutters (width : nat) (lines : list string) :
  ∀ index,
    (len (of_Z (Z.of_nat (index + length lines))) ≤ width)%nat →
    ∃ out, number_lines width index lines = Ok out
           ∧ Forall2 (λ line o, ∃ g, o = g +:+ " | " +:+ line
                                     ∧ len g = width) lines out.
Proof.
  induction lines as [|line rest IH]; intros index Hw.
  - exists []. split; [reflexivity | constructor].
  - cbn [number_lines length] in *.
    assert (Hp : (len (of_Z (Z.of_nat (index + 1))) ≤ width)%nat).
    { etrans; [apply (len_of_Z_mono _ (Z.of_nat (index + S (length rest)))); lia|].
      exact Hw. }
    assert (Hpad := pad_fits (of_Z (Z.of_nat (index + 1))) width
                      ltac:(lia)).
    rewrite Hpad.
    destruct (IH (S index)) as (out & Hout & Hall).
    + replace (S index + length rest)%nat with (index + S (length rest))%nat
        by lia.
      exact Hw.
    + rewrite Hout. eexists. split; [reflexivity|].
      constructor; [|exact Hall].
      eexists. split; [reflexivity|].
      rewrite (pad_len _ _ _ Hpad). lia.
Qed.

(** X11: the numbered lines of an inline diff are aligned: every line
    gets a gutter of the width of the largest line number before the
    bar, and the numbering never throws. *)
Theorem X11_number_lines_aligned (lines : list string) :
  ∃ out,
    number_lines (len (of_Z (Z.of_nat (length lines)))) 0 lines = Ok out
    ∧ Forall2 (λ line o,
                 ∃ g, o = g +:+ " | " +:+ line
                      ∧ len g = len (of_Z (Z.of_nat (length lines))))
              lines out.
Proof. apply number_lines_gutters. cbn. lia. Qed.

(** *** The lines of a unified diff *)

Lemma omap_length_le {A B} (f : A → option B) (l : list A) :
  (length (omap f l) ≤ length l)%nat.
Proof.
  induction l as [|x l IH]; [reflexivity|]. cbn.
  destruct (f x); cbn; lia.
Qed.

(** X10: the unified diff drops the five header lines of the patch and
    nothing that the patch adds or removes: every later line that
    starts with [+] or [-] is in the output, indented and colored, even
    when its text holds [@@] or the no-newline marker. *)
Theorem X10_unifiedDiff_keeps_changes (actual expected patch : string) :
  createPatch "string" actual expected = Ok patch →
  ∃ out,
    unifiedDiff actual expected
    = Ok (nl +:+ "      " +:+ colorLines "diff added" "+ expected" +:+ " " +:+
          colorLines "diff removed" "- actual" +:+ nl +:+ nl +:+ join nl out)
    ∧ (length out ≤ length (split "010"%char patch) - 5)%nat
    ∧ ∀ line, line ∈ skipn 5 (split "010"%char patch) →
        (first_char_is "+"%char line = true →
         ("      " +:+ colorLines "diff added" line) ∈ out)
        ∧ (first_char_is "-"%char line = true →
           ("      " +:+ colorLines "diff removed" line) ∈ out).
Proof.
  intros Hp. unfold unifiedDiff. rewrite Hp. cbn [mbind result_bind mret result_ret].
  eexists. split; [reflexivity|]. split.
  - etrans; [apply omap_length_le|]. now rewrite length_skipn.
  - intros line Hin. split; intros Hc; apply list_elem_of_omap;
      exists line; (split; [exact Hin|]); unfold cleanUp; rewrite Hc.
    + reflexivity.
    + destruct (first_char_is "+"%char line) eqn:Hplus; [|reflexivity].
      destruct line as [|a l]; [discriminate|]. cbn in Hc, Hplus.
      apply Ascii.eqb_eq in Hc, Hplus. congruence.
Qed.

(** *** The assertion prefix of a message *)

Lemma before_app (c : ascii) (p r : string) :
  c ∉ list_ascii_of_string p → before c (p +:+ String c r) = p.
Proof.
  induction p as [|a p IH]; intros Hc.
  - rewrite append_nil_l. cbn [before]. now rewrite Ascii.eqb_refl.
  - rewrite append_cons. cbn [before].
    destruct (Ascii.eqb a c) eqn:Hac.
    + apply Ascii.eqb_eq in Hac as ->. exfalso. apply Hc. left.
    + f_equal. apply IH. intros Hin. apply Hc. now right.
Qed.

Lemma before_without (c : ascii) (s : string) : c ∉ list_ascii_of_string (before c s).
Proof.
  induction s as [|a s IH]; cbn [before list_ascii_of_string]; [apply not_elem_of_nil|].
  destruct (Ascii.eqb a c) eqn:Hac; [apply not_elem_of_nil|].
  cbn [list_ascii_of_string]. intros Hin. apply elem_of_cons in Hin as [->|Hin]; [|tauto].
  now rewrite Ascii.eqb_refl in Hac.
Qed.

Lemma before_drop (c : ascii) (s : string) :
  s = before c s +:+ drop (len (before c s)) s.
Proof.
  induction s as [|a s IH]; [reflexivity|]. cbn [before].
  destruct (Ascii.eqb a c); [reflexivity|].
  rewrite append_cons. unfold len in *. cbn [String.length drop]. now f_equal.
Qed.

Lemma drop_app (p r : string) : drop (len p) (p +:+ r) = r.
Proof.
  induction p as [|a p IH]; [now destruct r|].
  rewrite append_cons. unfold len in *. cbn [String.length drop]. exact IH.
Qed.

Lemma prefix_app (p r : string) : String.prefix p (p +:+ r) = true.
Proof.
  induction p as [|a p IH]; [now destruct r|].
  rewrite append_cons. cbn [String.prefix].
  destruct (ascii_dec a a); [exact IH | congruence].
Qed.

Lemma prefix_inv (p s : string) :
  String.prefix p s = true → ∃ r, s = p +:+ r.
Proof.
  revert s. induction p as [|a p IH]; intros s H; [now exists s|].
  destruct s as [|b s]; [discriminate|]. cbn [String.prefix] in H.
  destruct (ascii_dec a b) as [->|]; [|discriminate].
  destruct (IH s H) as [r ->]. exists r. now rewrite append_cons.
Qed.

(** X12: the pattern [/^([^:]+): expected/] of the listing matches
    exactly the messages that start with a non-empty text without a
    colon followed by [: expected], and its group is that text. *)
Theorem X12_match_expected_spec (message p : string) :
  match_expected message = Some p
  ↔ (p ≠ EmptyString ∧ (":"%char ∉ list_ascii_of_string p)
     ∧ ∃ rest, message = p +:+ ": expected" +:+ rest).
Proof.
  unfold match_expected. split.
  - destruct (negb (falsy (before ":" message))
              && String.prefix ": expected"
                   (drop (len (before ":" message)) message)) eqn:Hb;
      [|discriminate].
    intros [= <-]. apply andb_true_iff in Hb as [Hne Hpre].
    split; [|split].
    + destruct (before ":" message); [discriminate | congruence].
    + apply before_without.
    + destruct (prefix_inv _ _ Hpre) as [r Hr]. exists r.
      rewrite <- Hr. apply before_drop.
  - intros (Hne & Hc & rest & ->).
    change (": expected" +:+ rest) with (String ":" (" expected" +:+ rest)).
    rewrite (before_app ":" p _ Hc).
    rewrite drop_app.
    change (String ":" (" expected" +:+ rest)) with (": expected" +:+ rest).
    rewrite prefix_app.
    destruct p; [congruence|reflexivity].
Qed.

End MoreRendering.

(** A witness for X9: an assertion on two numbers. *)
Lemma X9_fail_event_stringifies_witness :
  ∃ o',
    w_errs (run_world (on_test_fail (lib:=Demo.demoLib) 1%positive 1%positive
                         Demo.number_world)) !! 1%positive
    = Some o'
    ∧ isString (e_actual o') = true ∧ isString (e_expected o') = true.
Proof.
  destruct (X9_fail_event_stringifies (lib:=Demo.demoLib) Demo.number_world
              1%positive 1%positive Demo.failing_test Demo.number_assertion
              eq_refl eq_refl) as (o' & Ho & _ & _ & Hs).
  - intros prior Hp. discriminate.
  - exists o'. split; [exact Ho|].
    destruct (Hs eq_refl) as (Ha & He & _). split; [exact Ha | exact He].
Defined.

(** A witness for X10: the patch of two one-line texts. *)
Lemma X10_unifiedDiff_keeps_changes_witness :
  ∃ out,
    unifiedDiff (cfg:=Demo.plainCfg) (lib:=Demo.demoLib) "foo" "bar"
    = Ok (nl +:+ "      " +:+
          colorLines (cfg:=Demo.plainCfg) "diff added" "+ expected" +:+
          " " +:+
          colorLines (cfg:=Demo.plainCfg) "diff removed" "- actual" +:+
          nl +:+ nl +:+ join nl out)
    ∧ ("      " +:+ colorLines (cfg:=Demo.plainCfg) "diff added" "+bar")
      ∈ out.
Proof.
  destruct (X10_unifiedDiff_keeps_changes (cfg:=Demo.plainCfg)
              (lib:=Demo.demoLib) "foo" "bar"
              (Demo.one_line_patch "foo" "bar") eq_refl)
    as (out & Hout & _ & Hin).
  exists out. split; [exact Hout|].
  destruct (Hin "+bar") as [H _]; [|apply H; reflexivity].
  vm_compute. do 2 apply list_elem_of_further. apply list_elem_of_here.
Defined.

(** The pattern on an assertion message, and on a message that starts
    with a colon. *)
Example match_expected_demo :
  match_expected "AssertionError: expected 1 to equal 2"
  = Some "AssertionError"
  ∧ match_expected ": expected" = None.
Proof. split; reflexivity. Qed.

(** ** More on the listing and the epilogue *)

Section ListingExtras.

Context `{cfg : Config} `{lib : Lib}.

Lemma entry_facts_preserved (w : World) (i : nat) (test test' : Test)
    (x : option ref) (tr e : ref) :
  w_tests w !! tr = Some test' →
  (∃ po, w_errs w !! e = Some po ∧ is_Some (e_multiple po)) →
  w_tests (run_world (render_entry i test x w)) !! tr = Some test'
  ∧ ∃ po, w_errs (run_world (render_entry i test x w)) !! e = Some po
          ∧ is_Some (e_multiple po).
Proof.
  intros Ht (po & Hpo & Hm).
  destruct (tracks_render_entry w i test x w (sim_refl w)) as (_ & _ & Hsim).
  split.
  - destruct Hsim as (-> & _). exact Ht.
  - destruct (sim_lookup _ _ e Hsim) as [[H1 _]|(o & a & Ho & Ha & Href)];
      [congruence|].
    exists a. split; [exact Ha|].
    apply refines_fields in Href as (_ & _ & _ & _ & _ & _ & ->).
    replace o with po by congruence. exact Hm.
Qed.

Lemma forEach_from_cons {A} (f : nat → ref → A → M A) (i : nat) (x : ref)
    (l : list ref) (a : A) :
  forEach_from f i (x :: l) a = f i x a ≫= λ a', forEach_from f (S i) l a'.
Proof. reflexivity. Qed.

Lemma replicate_S_cons {A} (n : nat) (x : A) :
  replicate (S n) x = x :: replicate n x.
Proof. reflexivity. Qed.

(** One entry more than the errors left. *)
Lemma deal_overrun (tr e : ref) (test : Test) :
  t_err test = Some e →
  ∀ q i w,
    w_tests w !! tr = Some test →
    (∃ po, w_errs w !! e = Some po ∧ is_Some (e_multiple po)) →
    forEach_from list_entry i (replicate (S (length q)) tr) (Some tr, q) w
    = then_raise (render_errors i test q w) TypeError.
Proof.
  intros He q. induction q as [|x q IH]; intros i w Ht Hpo.
  - cbn [length replicate forEach_from render_errors].
    rewrite run_bind, (list_entry_run i tr _ w test Ht), pick_err_run, He.
    destruct Hpo as (po & -> & [ms ->]). cbn [fst snd].
    rewrite decide_True by reflexivity. reflexivity.
  - cbn [length render_errors].
    rewrite replicate_S_cons, forEach_from_cons.
    rewrite !run_bind, (list_entry_run i tr _ w test Ht), pick_err_run, He.
    pose proof Hpo as (po & Hpo' & [ms Hms]). rewrite Hpo', Hms.
    cbn [run_res fst snd head tail].
    rewrite decide_True by reflexivity.
    unfold returning at 1 2 3 4 5 6 7. unfold then_raise at 1.
    cbn [run_res run_world run_log fst snd].
    destruct (entry_facts_preserved w i test test (Some x) tr e Ht Hpo)
      as [Ht' Hpo''].
    destruct (run_res (render_entry i test (Some x) w)) as [[]|err|] eqn:Hr;
      [|reflexivity..].
    rewrite (IH (S i) _ Ht' Hpo''). reflexivity.
Qed.

(** X6: the listing throws a [TypeError] where an entry has no error
    to print.  An entry whose test holds no error throws at once,
    before anything is logged; a test with a [multiple] sequence that
    is listed once more than it has errors gets all its blocks printed
    and throws at the entry after the last. *)
Theorem X6_list_entries_beyond_errors (w : World) (i : nat) (tr : ref)
    (test : Test) (loc : ListLocals) :
  w_tests w !! tr = Some test →
  (t_err test = None → list_entry i tr loc w = mkRun w [] (Raise TypeError))
  ∧ (∀ e po ms,
       t_err test = Some e →
       w_errs w !! e = Some po →
       e_multiple po = Some ms →
       loc.1 ≠ Some tr →
       forEach_from list_entry i (replicate (S (S (length ms))) tr) loc w
       = then_raise (render_errors i test (e :: ms) w) TypeError).
Proof.
  intros Ht. split.
  - intros He. rewrite (list_entry_run i tr loc w test Ht), pick_err_run, He.
    reflexivity.
  - intros e po ms He Hpo Hms Hloc.
    cbn [render_errors]. rewrite replicate_S_cons, forEach_from_cons.
    rewrite !run_bind, (list_entry_run i tr _ w test Ht), pick_err_run, He,
      Hpo, Hms.
    rewrite decide_False by exact Hloc.
    cbn [run_res fst snd].
    unfold returning at 1 2 3 4 5 6 7. unfold then_raise at 1.
    cbn [run_res run_world run_log fst snd].
    destruct (entry_facts_preserved w i test test (Some e) tr e Ht)
      as [Ht' Hpo'']; [eauto|].
    destruct (run_res (render_entry i test (Some e) w)) as [[]|err|] eqn:Hr;
      [|reflexivity..].
    rewrite (deal_overrun tr e test He ms (S i) _ Ht' Hpo''). reflexivity.
Qed.

(** *** What a listing changes *)

Lemma read_only_bind {A B} (m : M A) (k : A → M B) :
  read_only m → (∀ a, read_only (k a)) → read_only (m ≫= k).
Proof.
  intros Hm Hk w. rewrite run_bind. specialize (Hm w).
  destruct (run_res (m w)); cbn [run_world]; [|exact Hm..].
  rewrite Hk. exact Hm.
Qed.

Lemma read_only_render_entry (i : nat) (test : Test) (err : option ref) :
  hideDiff = true → read_only (render_entry i test err).
Proof.
  intros Hh w. destruct err as [err|]; [|reflexivity].
  rewrite render_entry_run, Hh. cbn [negb andb].
  destruct (getFullErrorStack _ _ _ _); [|reflexivity].
  destruct (w_errs w !! err); reflexivity.
Qed.

Lemma read_only_list_entry (i : nat) (tr : ref) (loc : ListLocals) :
  hideDiff = true → read_only (list_entry i tr loc).
Proof.
  intros Hh. unfold list_entry.
  apply read_only_bind; [intros w; reflexivity|]. intros test.
  apply read_only_bind; [intros w; now rewrite pick_err_run|]. intros picked.
  apply read_only_bind; [now apply read_only_render_entry|]. intros _ w.
  reflexivity.
Qed.

Lemma read_only_forEach_from {A} (f : nat → ref → A → M A) :
  (∀ i x a, read_only (f i x a)) →
  ∀ l i a, read_only (forEach_from f i l a).
Proof.
  intros Hf l. induction l as [|x l IH]; intros i a; [intros w; reflexivity|].
  rewrite forEach_from_cons. apply read_only_bind; [apply Hf|].
  intros a'. apply IH.
Qed.

Lemma read_only_list_failures (failures : list ref) :
  hideDiff = true → read_only (list_failures failures).
Proof.
  intros Hh. unfold list_failures.
  apply read_only_bind; [intros w; reflexivity|]. intros _.
  apply read_only_bind; [|intros _ w; reflexivity].
  apply read_only_forEach_from. intros. now apply read_only_list_entry.
Qed.

Lemma read_only_epilogue : hideDiff = true → read_only epilogue.
Proof.
  intros Hh. unfold epilogue.
  apply read_only_bind; [intros w; reflexivity|]. intros stats.
  apply read_only_bind; [intros w; reflexivity|]. intros _.
  apply read_only_bind; [intros w; reflexivity|]. intros _.
  apply read_only_bind; [destruct (negb _); intros w; reflexivity|]. intros _.
  apply read_only_bind; [|intros _ w; reflexivity].
  destruct (negb _); [|intros w; reflexivity].
  apply read_only_bind; [intros w; reflexivity|]. intros _.
  apply read_only_bind; [intros w; reflexivity|]. intros failures.
  apply read_only_bind; [now apply read_only_list_failures|]. intros _ w.
  reflexivity.
Qed.

Lemma sim_explicit (w w' : World) :
  sim w w' →
  w_tests w' = w_tests w ∧ w_failures w' = w_failures w
  ∧ w_stats w' = w_stats w
  ∧ ∀ r,
      match w_errs w !! r with
      | None => w_errs w' !! r = None
      | Some o =>
          w_errs w' !! r = Some o
          ∨ (showDiff o = true ∧ w_errs w' !! r = Some (stringifyDiffObjs o))
      end.
Proof.
  intros Hs. pose proof Hs as (Ht & Hf & Hst & _).
  repeat split; try assumption. intros r.
  destruct (sim_lookup w w' r Hs) as [[-> ->]|(o & a & -> & -> & [->|[Hd ->]])];
    auto.
Qed.

(** X7: the epilogue changes nothing but the diff values of errors:
    the tests, the failures and the statistics stay, and every error
    object is as before or, when its diff is shown, stringified.  With
    the diffs hidden the world is left exactly as it was. *)
Theorem X7_epilogue_only_stringifies (w : World) :
  (w_tests (run_world (epilogue w)) = w_tests w
   ∧ w_failures (run_world (epilogue w)) = w_failures w
   ∧ w_stats (run_world (epilogue w)) = w_stats w
   ∧ ∀ r,
       match w_errs w !! r with
       | None => w_errs (run_world (epilogue w)) !! r = None
       | Some o =>
           w_errs (run_world (epilogue w)) !! r = Some o
           ∨ (showDiff o = true
              ∧ w_errs (run_world (epilogue w)) !! r
                = Some (stringifyDiffObjs o))
       end)
  ∧ (hideDiff = true → run_world (epilogue w) = w).
Proof.
  split.
  - apply sim_explicit. apply (tracks_epilogue w w (sim_refl w)).
  - intros Hh. now apply read_only_epilogue.
Qed.

(** *** Fail events, then the listing *)







End ListingExtras.

(** A witness for X6: the test that failed twice, listed three times. *)
Lemma X6_list_entries_beyond_errors_witness :
  forEach_from (list_entry (cfg:=Demo.plainCfg) (lib:=Demo.demoLib)) 0
               (replicate 3 1%positive) (None, [])
               (Demo.world2 (lib:=Demo.demoLib))
  = then_raise
      (render_errors (cfg:=Demo.plainCfg) (lib:=Demo.demoLib) 0
                     (set_test_err Demo.failing_test 1%positive)
                     [1%positive; 2%positive]
                     (Demo.world2 (lib:=Demo.demoLib)))
      TypeError.
Proof.
  destruct (X6_list_entries_beyond_errors (cfg:=Demo.plainCfg)
              (lib:=Demo.demoLib) (Demo.world2 (lib:=Demo.demoLib))
              0 1%positive (set_test_err Demo.failing_test 1%positive)
              (None, []) eq_refl) as [_ H].
  refine (H 1%positive (set_multiple Demo.assertion (Some [2%positive]))
            [2%positive] eq_refl eq_refl eq_refl _).
  discriminate.
Defined.

(** A witness for X7: the epilogue of the run with the test that failed
    twice, the diffs hidden. *)
Lemma X7_epilogue_only_stringifies_witness :
  run_world (epilogue (cfg:=Demo.hiddenCfg) (lib:=Demo.demoLib)
               (Demo.world2 (lib:=Demo.demoLib)))
  = Demo.world2 (lib:=Demo.demoLib).
Proof.
  apply (X7_epilogue_only_stringifies (cfg:=Demo.hiddenCfg)
           (lib:=Demo.demoLib)).
  reflexivity.
Defined.


(** ** More on the cycle cleaner *)

Section CleanerExtras.

Variable toStr : ref → result string.
Variable toJSON : ref → string → option (result val).

Lemma ser_items_grows {A B} (f : A → list ref → outcome B * list ref)
    (items : list A) :
  (∀ x c, x ∈ items → c ⊆ (f x c).2) →
  ∀ c, c ⊆ (ser_items f items c).2.
Proof.
  induction items as [|x items IH]; intros Hf c; [done|].
  cbn [ser_items].
  pose proof (Hf x c (list_elem_of_here _ _)) as Hx.
  destruct (f x c) as [[y|e|] c1]; cbn [snd] in *; try exact Hx.
  pose proof (IH (λ x' c' Hx', Hf x' c' (list_elem_of_further _ _ _ Hx')) c1)
    as Hrest.
  destruct (ser_items f items c1) as [[ys|e|] c2]; cbn [snd] in *;
    etrans; eassumption.
Qed.

Lemma replacer_grows (value : val) (cache : list ref) :
  cache ⊆ (replacer toStr value cache).2.
Proof.
  destruct value as [| | b | n | | s | n | | r]; cbn [replacer snd];
    try done.
  destruct (bool_decide (r ∈ cache)); cbn [snd]; [done|].
  intros x Hx. apply elem_of_app. now left.
Qed.

Lemma serialize_grows (h : store) (fuel : nat) :
  ∀ stack key value cache,
    cache ⊆ (serialize toStr toJSON fuel h stack key value cache).2.
Proof.
  induction fuel as [|fuel IH]; intros stack key value cache; [done|].
  cbn [serialize].
  destruct (call_toJSON toJSON h key value) as [value1|e|]; [|done|done].
  pose proof (replacer_grows value1 cache) as Hgrow.
  destruct (replacer toStr value1 cache) as [[value'|e] cache'];
    cbn [snd] in Hgrow; [|exact Hgrow].
  destruct value' as [| | b | n | | s | n | | r]; cbn [snd];
    try exact Hgrow.
  destruct (bool_decide (r ∈ stack)); [exact Hgrow|].
  destruct (h !! r) as [[props|elems]|]; [| |exact Hgrow].
  - match goal with
    | |- context [ser_items ?f props ?c] =>
        pose proof (ser_items_grows f props) as Hs;
        specialize (Hs (λ kv c0 _, ltac:(
          cbn beta;
          pose proof (IH (r :: stack) kv.1 kv.2 c0) as Hk;
          destruct (serialize toStr toJSON fuel h (r :: stack) kv.1 kv.2 c0)
            as [[]?];
          exact Hk)) c);
        destruct (ser_items f props c) as [[kvs|e|] c2]
    end; cbn [snd] in *; etrans; eassumption.
  - pose proof (ser_items_grows
                  (λ kv c, serialize toStr toJSON fuel h (r :: stack)
                                     kv.1 kv.2 c)
                  (indexed elems)
                  (λ kv c0 _, IH (r :: stack) kv.1 kv.2 c0) cache') as Hs.
    destruct (ser_items _ (indexed elems) _) as [[js|e|] c2];
      cbn [snd] in *; etrans; eassumption.
Qed.

(** In a store of plain data, a reference that was serialized is
    cached. *)
Lemma serialize_caches (h : store) (fuel : nat) (stack : list ref)
    (key : string) (r : ref) (cache : list ref) :
  plain_store toStr toJSON h → is_Some (h !! r) →
  r ∈ (serialize toStr toJSON (S fuel) h stack key (VRef r) cache).2.
Proof.
  intros Hplain Hal. cbn [serialize].
  rewrite (call_toJSON_plain toStr toJSON h key r Hplain Hal).
  cbn [replacer].
  destruct (bool_decide (r ∈ cache)) eqn:Hin.
  { apply bool_decide_eq_true_1 in Hin.
    destruct (toStr r) as [s|e]; exact Hin. }
  assert (Hr : r ∈ (cache ++ [r])%list)
    by (apply elem_of_app; right; left).
  destruct (bool_decide (r ∈ stack)); [exact Hr|].
  destruct (h !! r) as [[props|elems]|]; [| |exact Hr].
  - match goal with
    | |- context [ser_items ?f props ?c] =>
        pose proof (ser_items_grows f props) as Hs;
        specialize (Hs (λ kv c0 _, ltac:(
          cbn beta;
          pose proof (serialize_grows h fuel (r :: stack) kv.1 kv.2 c0)
            as Hk;
          destruct (serialize toStr toJSON fuel h (r :: stack) kv.1 kv.2 c0)
            as [[]?];
          exact Hk)) c);
        destruct (ser_items f props c) as [[kvs|e|] c2]
    end; cbn [snd] in *; apply Hs, Hr.
  - pose proof (ser_items_grows
                  (λ kv c, serialize toStr toJSON fuel h (r :: stack)
                                     kv.1 kv.2 c)
                  (indexed elems)
                  (λ kv c0 _, serialize_grows h fuel (r :: stack)
                                              kv.1 kv.2 c0)
                  (cache ++ [r])%list) as Hs.
    destruct (ser_items _ (indexed elems) _) as [[js|e|] c2];
      cbn [snd] in *; apply Hs, Hr.
Qed.

(** The item at a position is serialized with the cache the items
    before it left. *)
Lemma ser_items_lookup {A B} (f : A → list ref → outcome B * list ref)
    (items : list A) :
  ∀ c ys c' j x,
    ser_items f items c = (Ret ys, c') →
    items !! j = Some x →
    ∃ cj y, (ser_items f (firstn j items) c).2 = cj
            ∧ (f x cj).1 = Ret y
            ∧ ys !! j = Some y.
Proof.
  induction items as [|x0 items IH]; intros c ys c' j x Hs Hj;
    [now rewrite lookup_nil in Hj|].
  cbn [ser_items] in Hs.
  destruct (f x0 c) as [[y0|e|] c1] eqn:Hf0; try discriminate.
  destruct (ser_items f items c1) as [[ys1|e|] c2] eqn:Hrest; try discriminate.
  injection Hs as <- <-.
  destruct j as [|j].
  - injection Hj as <-. exists c, y0. cbn. now rewrite Hf0.
  - cbn in Hj. destruct (IH c1 ys1 c2 j x Hrest Hj) as (cj & y & Hc & Hy & Hl).
    exists cj, y. split; [|split; [exact Hy | exact Hl]].
    cbn [firstn ser_items]. rewrite Hf0.
    destruct (ser_items f (firstn j items) c1) as [[]?]; exact Hc.
Qed.

(** The cache after a prefix of the items holds what the item at an
    earlier position cached. *)
Lemma ser_items_prefix_caches {A B}
    (f : A → list ref → outcome B * list ref) (r : ref) (items : list A) :
  (∀ x c, c ⊆ (f x c).2) →
  ∀ c ys c' i j x,
    ser_items f items c = (Ret ys, c') →
    items !! i = Some x → (i < j)%nat →
    (∀ c0, r ∈ (f x c0).2) →
    r ∈ (ser_items f (firstn j items) c).2.
Proof.
  intros Hgrow.
  induction items as [|x0 items IH]; intros c ys c' i j x Hs Hi Hij Hr;
    [now rewrite lookup_nil in Hi|].
  destruct j as [|j]; [lia|].
  cbn [ser_items] in Hs. cbn [firstn ser_items].
  destruct (f x0 c) as [[y0|e|] c1] eqn:Hf0; try discriminate.
  destruct (ser_items f items c1) as [[ys1|e|] c2] eqn:Hrest; try discriminate.
  destruct i as [|i].
  - injection Hi as <-.
    assert (Hc1 : r ∈ c1) by (specialize (Hr c); now rewrite Hf0 in Hr).
    pose proof (ser_items_grows f (firstn j items) (λ x' c0 _, Hgrow x' c0) c1)
      as Hg.
    destruct (ser_items f (firstn j items) c1) as [[]?]; cbn [snd] in *;
      apply Hg, Hc1.
  - cbn in Hi.
    pose proof (IH c1 ys1 c2 i j x Hrest Hi ltac:(lia) Hr) as Hin.
    destruct (ser_items f (firstn j items) c1) as [[]?]; exact Hin.
Qed.

(** X13: on plain data (the string conversion of every object returns,
    no object has a callable [toJSON], none holds a [BigInt]) the
    replacement is not limited to cycles: when two properties (or two
    elements) of the root hold the same object, the later one is the
    string form of that object in the result. *)
Theorem X13_cleanCycles_repeated_reference (h : store) (root r : ref)
    (s : string) (fuel i j : nat) :
  store_closed h →
  plain_store toStr toJSON h →
  (size h < fuel)%nat →
  (i < j)%nat →
  toStr r = Ok s →
  (∀ props k1 k2,
     h !! root = Some (OObject props) →
     props !! i = Some (k1, VRef r) →
     props !! j = Some (k2, VRef r) →
     ∃ fields,
       cleanCycles toStr toJSON fuel h (VRef root) = Ret (JsObj fields)
       ∧ (k2, JsStr s) ∈ fields)
  ∧ (∀ elems,
       h !! root = Some (OArray elems) →
       elems !! i = Some (VRef r) →
       elems !! j = Some (VRef r) →
       ∃ items,
         cleanCycles toStr toJSON fuel h (VRef root) = Ret (JsArr items)
         ∧ items !! j = Some (JsStr s)).
Proof.
  intros Hclosed Hplain Hsize Hij Hstr. split.
  - intros props k1 k2 Ho Hi Hj.
    destruct (fuel_two h root fuel) as [fuel' ->]; [eauto | exact Hsize|].
    assert (Hal : is_Some (h !! r)).
    { apply (Hclosed root (OObject props) r Ho). cbn.
      apply list_elem_of_fmap. exists (k1, VRef r). split; [reflexivity|].
      apply list_elem_of_lookup. eauto. }
    set (f := λ (kv : string * val) (c : list ref),
                match serialize toStr toJSON (S fuel') h [root]
                                kv.1 kv.2 c with
                | (Ret j0, c') => (Ret (kv.1, j0), c')
                | (Raise e, c') => (Raise e, c')
                | (Stuck, c') => (Stuck, c')
                end).
    assert (Hgrow : ∀ x c, c ⊆ (f x c).2).
    { intros x c. unfold f.
      pose proof (serialize_grows h (S fuel') [root] x.1 x.2 c) as Hk.
      destruct (serialize toStr toJSON (S fuel') h [root] x.1 x.2 c)
        as [[]?]; exact Hk. }
    assert (Hret : ∃ kvs c', ser_items f props [root] = (Ret kvs, c')).
    { destruct (cleanCycles_object toStr toJSON h _ root props
                  Hclosed Hplain Ho Hsize) as (kvs & Hcc & _).
      unfold cleanCycles in Hcc.
      rewrite (serialize_root toStr toJSON h _ root _ Hplain Ho) in Hcc.
      fold f in Hcc.
      destruct (ser_items f props [root]) as [[kvs'|e|] c']; try discriminate.
      eauto. }
    destruct Hret as (kvs & c' & Hs).
    exists (members kvs). split.
    { unfold cleanCycles.
      rewrite (serialize_root toStr toJSON h _ root _ Hplain Ho).
      fold f. now rewrite Hs. }
    destruct (ser_items_lookup f props [root] kvs c' j _ Hs Hj)
      as (cj & y & Hcj & Hy & Hl).
    assert (Hin : r ∈ cj).
    { rewrite <- Hcj.
      apply (ser_items_prefix_caches f r props Hgrow [root] kvs c' i j
               (k1, VRef r) Hs Hi Hij).
      intros c0. unfold f. cbn [fst snd].
      pose proof (serialize_caches h fuel' [root] k1 r c0 Hplain Hal) as Hk.
      destruct (serialize toStr toJSON (S fuel') h [root] k1 (VRef r) c0)
        as [[]?]; exact Hk. }
    unfold f in Hy. cbn [fst snd] in Hy.
    rewrite (serialize_seen toStr toJSON fuel' h [root] k2 r s cj
               Hplain Hal Hin Hstr) in Hy.
    cbn in Hy. injection Hy as <-.
    apply members_elem. apply list_elem_of_lookup. eauto.
  - intros elems Ho Hi Hj.
    destruct (fuel_two h root fuel) as [fuel' ->]; [eauto | exact Hsize|].
    assert (Hal : is_Some (h !! r)).
    { apply (Hclosed root (OArray elems) r Ho). cbn.
      apply list_elem_of_lookup. eauto. }
    set (f := λ (kv : string * val) (c : list ref),
                serialize toStr toJSON (S fuel') h [root] kv.1 kv.2 c).
    assert (Hret : ∃ js c',
              ser_items f (indexed elems) [root] = (Ret js, c')).
    { destruct (cleanCycles_array toStr toJSON h _ root elems
                  Hclosed Hplain Ho Hsize) as (js & Hcc & _).
      unfold cleanCycles in Hcc.
      rewrite (serialize_root toStr toJSON h _ root _ Hplain Ho) in Hcc.
      fold f in Hcc.
      destruct (ser_items f (indexed elems) [root]) as [[js'|e|] c'];
        try discriminate.
      eauto. }
    destruct Hret as (js & c' & Hs).
    exists (elements js). split.
    { unfold cleanCycles.
      rewrite (serialize_root toStr toJSON h _ root _ Hplain Ho).
      fold f. now rewrite Hs. }
    destruct (ser_items_lookup f (indexed elems) [root] js c' j _ Hs
                (indexed_lookup elems j _ Hj))
      as (cj & y & Hcj & Hy & Hl).
    assert (Hin : r ∈ cj).
    { rewrite <- Hcj.
      apply (ser_items_prefix_caches f r (indexed elems)
               (λ x c, serialize_grows h (S fuel') [root] x.1 x.2 c)
               [root] js c' i j _ Hs (indexed_lookup elems i _ Hi) Hij).
      intros c0. unfold f. cbn [fst snd].
      apply (serialize_caches h fuel' [root] _ r c0 Hplain Hal). }
    unfold f in Hy. cbn [fst snd] in Hy.
    rewrite (serialize_seen toStr toJSON fuel' h [root] _ r s cj
               Hplain Hal Hin Hstr) in Hy.
    cbn in Hy. injection Hy as <-.
    unfold elements. rewrite list_lookup_fmap, Hl. reflexivity.
Qed.

End CleanerExtras.

Lemma shared_store_closed : store_closed Demo.shared_store.
Proof.
  intros r o r' Hr Hin. unfold Demo.shared_store in Hr.
  apply lookup_insert_Some in Hr as [[<- <-]|[_ Hr]].
  - cbn in Hin.
    assert (r' = 2%positive) as ->.
    { apply elem_of_cons in Hin as [Hin|Hin]; [congruence|].
      apply elem_of_cons in Hin as [Hin|Hin]; [congruence|].
      now apply elem_of_nil in Hin. }
    eexists. reflexivity.
  - apply lookup_singleton_Some in Hr as [<- <-]. cbn in Hin.
    apply elem_of_cons in Hin as [Hin|Hin]; [discriminate|].
    now apply elem_of_nil in Hin.
Defined.

Lemma shared_store_plain :
  plain_store Demo.plain_toStr Demo.no_toJSON Demo.shared_store.
Proof.
  intros r o Hr. unfold Demo.shared_store in Hr.
  split; [eexists; reflexivity|]. split; [reflexivity|].
  apply lookup_insert_Some in Hr as [[<- <-]|[_ Hr]].
  - split; [reflexivity|]. intros n Hin. cbn in Hin.
    apply elem_of_cons in Hin as [Hin|Hin]; [discriminate|].
    apply elem_of_cons in Hin as [Hin|Hin]; [discriminate|].
    now apply elem_of_nil in Hin.
  - apply lookup_singleton_Some in Hr as [<- <-].
    split; [reflexivity|]. intros n Hin. cbn in Hin.
    apply elem_of_cons in Hin as [Hin|Hin]; [discriminate|].
    now apply elem_of_nil in Hin.
Defined.

(** A witness for X13: the two properties of the root hold the same
    object, which is no cycle. *)
Lemma X13_cleanCycles_repeated_reference_witness :
  ∃ fields,
    cleanCycles Demo.plain_toStr Demo.no_toJSON 3 Demo.shared_store
                (VRef 1%positive)
    = Ret (JsObj fields)
    ∧ ("b", JsStr "[object Object]") ∈ fields.
Proof.
  destruct (X13_cleanCycles_repeated_reference Demo.plain_toStr
              Demo.no_toJSON Demo.shared_store 1%positive 2%positive
              "[object Object]" 3 0 1
              shared_store_closed shared_store_plain) as [H _].
  - vm_compute. lia.
  - lia.
  - reflexivity.
  - exact (H _ "a" "b" eq_refl eq_refl eq_refl).
Defined.

(** The result for that store in full. *)
Example shared_store_cleaned :
  cleanCycles Demo.plain_toStr Demo.no_toJSON 3 Demo.shared_store
              (VRef 1%positive)
  = Ret (JsObj [("a", JsObj [("x", JsNum 1)]);
                ("b", JsStr "[object Object]")]).
Proof. vm_compute. reflexivity. Qed.

(** Outside plain data the later holder need not get the string form:
    [toJSON] runs before the replacer, so a [Date] held twice gives its
    ISO string both times. *)
Example date_store_cleaned :
  cleanCycles Demo.plain_toStr Demo.date_toJSON 3 Demo.date_store
              (VRef 1%positive)
  = Ret (JsObj [("a", JsStr "1970-01-01T00:00:00.000Z");
                ("b", JsStr "1970-01-01T00:00:00.000Z")]).
Proof. vm_compute. reflexivity. Qed.

(** ** The rows of the Dot reporter *)

Section DotProofs.

Variable color : string → string → string.

Lemma dot_run_app (width n : Z) (l1 l2 : list Dot.event) :
  Dot.run color width n (l1 ++ l2)
  = ((Dot.run color width (n + Z.of_nat (length l1)) l2).1,
     ((Dot.run color width n l1).2
      ++ (Dot.run color width (n + Z.of_nat (length l1)) l2).2)%list).
Proof.
  revert n. induction l1 as [|ev l1 IH]; intros n.
  - cbn [app length Dot.run snd]. rewrite Z.add_0_r.
    now destruct (Dot.run color width n l2).
  - cbn [app length Dot.run Dot.on_event]. rewrite IH.
    replace (n + 1 + Z.of_nat (length l1))%Z
      with (n + Z.of_nat (S (length l1)))%Z by lia.
    destruct (Dot.run color width (n + 1) l1) as [n2 out2].
    cbn [fst snd]. now rewrite <- !app_assoc.
Qed.

Lemma dot_run_no_break (width n : Z) (l : list Dot.event) :
  (∀ j, (j < length l)%nat →
        Dot.breaks width (n + 1 + Z.of_nat j) = false) →
  (Dot.run color width n l).2 = map (Dot.symbol color) l.
Proof.
  revert n. induction l as [|ev l IH]; intros n Hb; [reflexivity|].
  cbn [Dot.run Dot.on_event map].
  pose proof (Hb 0%nat ltac:(cbn; lia)) as H0.
  rewrite Z.add_0_r in H0. rewrite H0.
  specialize (IH (n + 1)%Z).
  destruct (Dot.run color width (n + 1) l) as [n2 out2]. cbn [snd app] in *.
  f_equal. apply IH. intros j Hj.
  replace (n + 1 + 1 + Z.of_nat j)%Z with (n + 1 + Z.of_nat (S j))%Z by lia.
  apply Hb. cbn. lia.
Qed.

(** One row: at most [width] events, the first of them at a multiple of
    [width]. *)
Lemma dot_run_row (width : Z) (m : nat) (row : list Dot.event) :
  (0 < width)%Z → row ≠ [] → (Z.of_nat (length row) ≤ width)%Z →
  (Dot.run color width (Z.of_nat m * width - 1) row).2
  = (nl +:+ "  ") :: map (Dot.symbol color) row.
Proof.
  intros Hw Hne Hlen. destruct row as [|ev row]; [congruence|].
  cbn [Dot.run Dot.on_event map].
  replace (Z.of_nat m * width - 1 + 1)%Z with (Z.of_nat m * width)%Z by lia.
  assert (Hb : Dot.breaks width (Z.of_nat m * width) = true).
  { unfold Dot.breaks. rewrite (proj2 (Z.eqb_neq width 0)) by lia.
    apply Z.eqb_eq. apply Z.rem_mul. lia. }
  rewrite Hb.
  pose proof (dot_run_no_break width (Z.of_nat m * width) row) as Hrow.
  destruct (Dot.run color width (Z.of_nat m * width) row) as [n2 out2].
  cbn [snd app] in *. f_equal. f_equal. apply Hrow.
  intros j Hj. unfold Dot.breaks.
  rewrite (proj2 (Z.eqb_neq width 0)) by lia.
  apply Z.eqb_neq. cbn [length] in Hlen.
  rewrite Z.rem_mod_nonneg by lia.
  replace (Z.of_nat m * width + 1 + Z.of_nat j)%Z
    with ((1 + Z.of_nat j) + Z.of_nat m * width)%Z by lia.
  rewrite Z.mod_add by lia. rewrite Z.mod_small by lia. lia.
Qed.

Lemma dot_rows_from (width : Z) :
  (0 < width)%Z →
  ∀ k (events : list Dot.event) m,
    (length events ≤ k * Z.to_nat width)%nat →
    (Dot.run color width (Z.of_nat m * width - 1) events).2
    = flat_map (λ row, (nl +:+ "  ") :: map (Dot.symbol color) row)
        (reshape
           (replicate ((length events + Z.to_nat width - 1) / Z.to_nat width)
                      (Z.to_nat width))
           events).
Proof.
  intros Hw k. set (w := Z.to_nat width).
  assert (Hwpos : (0 < w)%nat) by (unfold w; lia).
  induction k as [|k IH]; intros events m Hlen.
  - destruct events; [|cbn in Hlen; lia].
    cbn [length]. replace ((0 + w - 1) / w)%nat with 0%nat
      by (symmetry; apply Nat.div_small; lia).
    reflexivity.
  - destruct (decide (events = [])) as [->|Hne].
    { cbn [length]. replace ((0 + w - 1) / w)%nat with 0%nat
        by (symmetry; apply Nat.div_small; lia).
      reflexivity. }
    assert (Hpos : (0 < length events)%nat)
      by (destruct events; [congruence | cbn; lia]).
    replace ((length events + w - 1) / w)%nat
      with (S ((length (List.skipn w events) + w - 1) / w))%nat.
    2:{ rewrite length_skipn.
        destruct (decide (length events ≤ w)%nat) as [Hle|Hgt].
        - replace (length events - w)%nat with 0%nat by lia.
          replace ((0 + w - 1) / w)%nat with 0%nat
            by (symmetry; apply Nat.div_small; lia).
          apply Nat.div_unique with (r := (length events - 1)%nat); lia.
        - replace (length events + w - 1)%nat
            with (1 * w + (length events - w + w - 1))%nat by lia.
          rewrite Nat.div_add_l by lia. lia. }
    cbn [replicate reshape flat_map].
    rewrite <- (firstn_skipn w events) at 1.
    rewrite dot_run_app. cbn [snd].
    rewrite (dot_run_row width m (List.firstn w events) Hw).
    + cbn [app]. f_equal. f_equal.
      destruct (decide (length events ≤ w)%nat) as [Hle|Hgt].
      * rewrite (skipn_all2 events) by lia. cbn [length].
        replace ((0 + w - 1) / w)%nat with 0%nat
          by (symmetry; apply Nat.div_small; lia).
        reflexivity.
      * rewrite length_firstn, Nat.min_l by lia.
        replace (Z.of_nat m * width - 1 + Z.of_nat w)%Z
          with (Z.of_nat (S m) * width - 1)%Z by (unfold w; lia).
        apply IH. rewrite length_skipn. fold w in Hlen. lia.
    + destruct events; [congruence|]. destruct w; [lia|]. discriminate.
    + rewrite length_firstn. unfold w. lia.
Qed.

(** X14: the Dot reporter writes the symbols of the test events in
    rows of [width]: the events are cut into consecutive groups of
    [width] (the last may be shorter), and each group is written as a
    line break with two spaces followed by its symbols.  With a [width]
    of zero no line break is ever written. *)
Theorem X14_dot_rows (width : Z) (events : list Dot.event) :
  ((0 < width)%Z →
   Dot.written color width events
   = flat_map (λ row, (nl +:+ "  ") :: map (Dot.symbol color) row)
       (reshape
          (replicate ((length events + Z.to_nat width - 1) / Z.to_nat width)
                     (Z.to_nat width))
          events))
  ∧ (width = 0%Z →
     Dot.written color width events = map (Dot.symbol color) events).
Proof.
  split.
  - intros Hw. unfold Dot.written.
    apply (dot_rows_from width Hw (length events) events 0%nat). nia.
  - intros ->. unfold Dot.written. apply dot_run_no_break. reflexivity.
Qed.

End DotProofs.

(** A witness for X14: seven events in rows of three. *)
Lemma X14_dot_rows_witness :
  Dot.written Demo.plain_color 3
    [Dot.pass Base.fast; Dot.pass Base.slow; Dot.fail; Dot.pending;
     Dot.pass Base.medium; Dot.pass Base.fast; Dot.fail]
  = [nl +:+ "  "; "."; "."; "!"; nl +:+ "  "; ","; "."; ".";
     nl +:+ "  "; "!"].
Proof.
  etrans; [apply (proj1 (X14_dot_rows Demo.plain_color 3 _)); lia|].
  reflexivity.
Defined.

(** ** The airplane of the Landing reporter *)

Section LandingProofs.

Variable color : string → string → string.
Variable width : Z.
Variable airplane dot : string.

Hypothesis width_range : (0 ≤ width < 2 ^ 31)%Z.

Lemma to_int32_small (x : Z) :
  (- 2 ^ 31 ≤ x < 2 ^ 31)%Z → Landing.to_int32 x = x.
Proof.
  intros H. unfold Landing.to_int32. rewrite Z.mod_small; lia.
Qed.

Lemma on_test_end_landed (failed f : bool) (st : Landing.State) :
  landing_inv color width airplane failed st →
  ∃ st',
    Landing.on_test_end color width airplane dot st f
    = (landed color width dot
         (if failed || f then color "plane crash" airplane
          else color "plane" airplane),
       Ok st')
    ∧ landing_inv color width airplane (failed || f) st'.
Proof.
  intros (Hn & Ht & Hc & Hp). destruct st as [pl cr n t]. cbn in *. subst.
  assert (Hcol : Landing.to_int32 (Z.quot (width * (n + 1)) (n + 1)) = width).
  { rewrite Z.quot_mul by lia. apply to_int32_small. lia. }
  assert (Hj : ∀ sep, Landing.array_join width sep
                      = Ok (repeat sep (Z.to_nat width - 1))).
  { intros sep. unfold Landing.array_join.
    now rewrite (proj2 (Z.ltb_ge width 0)) by lia. }
  assert (H0 : Landing.array_join (width - width) dot = Ok EmptyString).
  { rewrite Z.sub_diag. reflexivity. }
  unfold Landing.on_test_end, Landing.runway. cbn [Landing.crashed
    Landing.n Landing.total Landing.plane].
  destruct failed.
  - rewrite (proj2 (Z.eqb_neq width (-1))) by lia.
    rewrite !Hj, H0.
    destruct f; (eexists; split; [reflexivity | repeat split; cbn; lia]).
  - rewrite Z.eqb_refl, Hcol, !Hj, H0.
    destruct f; (eexists; split; [reflexivity | repeat split; cbn; lia]).
Qed.

Lemma run_landed (events : list bool) :
  ∀ failed st,
    landing_inv color width airplane failed st →
    ∃ st',
      Landing.run color width airplane dot st events
      = (landed_frames color width airplane dot failed events, Ok st').
Proof.
  induction events as [|f rest IH]; intros failed st Hinv.
  - exists st. reflexivity.
  - destruct (on_test_end_landed failed f st Hinv) as (st1 & H1 & Hinv1).
    destruct (IH _ st1 Hinv1) as (st2 & H2).
    exists st2. cbn [Landing.run landed_frames].
    rewrite H1. unfold Landing.W_bind at 1. rewrite H2. reflexivity.
Qed.

End LandingProofs.

(** X15: in the Landing reporter the airplane never moves.  [n] and
    [total] are incremented together, so the column computed for a test
    is the whole [width] from the first test on: every frame is drawn
    with the airplane at the end of the runway and nothing after it,
    in the crash color from the first failure on, and no frame throws. *)
Theorem X15_landing_plane_stays (color : string → string → string) (width : Z)
    (airplane dot : string) (events : list bool) :
  (0 ≤ width < 2 ^ 31)%Z →
  ∃ st,
    Landing.run color width airplane dot
      (Landing.initial color airplane) events
    = (landed_frames color width airplane dot false events, Ok st).
Proof.
  intros Hw. apply (run_landed color width airplane dot Hw events false).
  repeat split; cbn; lia.
Qed.

(** A witness for X15: three tests, the second of which fails, on a
    strip of width four. *)
Lemma X15_landing_plane_stays_witness :
  ∃ st,
    Landing.run Demo.plain_color 4 "P" "."
      (Landing.initial Demo.plain_color "P") [false; true; false]
    = (landed_frames Demo.plain_color 4 "P" "." false [false; true; false],
       Ok st).
Proof. apply X15_landing_plane_stays. lia. Defined.

(** ** The failure text of the HTML reporter *)

Section HtmlProofs.

Variable escape : string → string.


End HtmlProofs.


(** ** The test lines of the XUnit report *)

Section XUnitProofs.

Import XUnit.

Variable escape : AttrVal → string.
Variable hideDiff : bool.
Variable showDiff : XUnit.Failure → bool.
Variable generateDiff : JsVal → JsVal → string.
Variable relative : string → string.
Variable showRelativePaths : bool.

Lemma falsy_app_nl (a b c : string) : falsy (a +:+ b +:+ nl +:+ c) = false.
Proof.
  destruct a; [|reflexivity]. rewrite append_nil_l.
  destruct b; [|reflexivity]. rewrite append_nil_l. reflexivity.
Qed.

(** X17: every line the XUnit reporter writes for a test is a complete
    [testcase] element: self-closed for a test that passed, with a
    self-closed [skipped] child for a pending test, and for a failed
    test with a [failure] child that holds the escaped message, the
    escaped diff, a newline and the escaped stack; the [failure]
    element is closed whatever [escape] returns, empty strings
    included. *)
Theorem X17_xunit_testcase_closed (t : TestCase) :
  XUnit.test escape hideDiff showDiff generateDiff relative
    showRelativePaths t
  = match tc_state t with
    | failed err =>
        testcase_open escape relative showRelativePaths t +:+ ">" +:+
        ("<failure>" +:+
         (escape (AStr (x_message err)) +:+
          escape (AStr (if negb hideDiff && showDiff err
                        then nl +:+ generateDiff (x_actual err)
                                                 (x_expected err)
                        else EmptyString)) +:+ nl +:+
          escape (AStr (x_stack err))) +:+
         "</failure>") +:+
        "</testcase>"
    | pending =>
        testcase_open escape relative showRelativePaths t +:+ ">" +:+
        "<skipped/>" +:+ "</testcase>"
    | passed =>
        testcase_open escape relative showRelativePaths t +:+ "/>"
    end.
Proof.
  unfold XUnit.test, testcase_open, testcase_attrs.
  destruct (tc_state t) as [err| |].
  - unfold tag at 2. cbn [map]. rewrite falsy_app_nl.
    unfold tag. cbn [falsy map].
    rewrite !append_assoc. reflexivity.
  - unfold tag. cbn [falsy map]. rewrite !append_assoc. reflexivity.
  - unfold tag. cbn [falsy map]. rewrite !append_assoc. reflexivity.
Qed.

End XUnitProofs.

(** ** The numbers of the List reporter *)

Section ListReporterProofs.

Import Base ListReporter.

Context `{lib : Lib}.

Variable color : string → string → string.
Variable ok : string.
Variable CR : list string.
Variable fullTitle : ref → string.

Lemma on_test_fail_failures (w : World) (test err : ref) :
  run_res (on_test_fail test err w) = Ret tt →
  w_failures (run_world (on_test_fail test err w))
  = (w_failures w ++ [test])%list.
Proof.
  unfold on_test_fail, mbind, M_bind, get_err, get_test, set_err, set_test,
    push_failure, mret, M_ret, with_errs.
  destruct (w_errs w !! err) as [o|]; [|discriminate].
  destruct (showDiff o);
    cbn [w_errs w_tests w_failures w_stats run_world run_log run_res];
    (destruct (w_tests w !! test) as [t|]; [|discriminate]);
    (destruct (t_err t) as [prior|];
     [destruct (e_isError o);
      cbn [w_errs w_tests w_failures w_stats run_world run_log run_res];
      [match goal with
       | |- context [?h !! prior] => destruct (h !! prior)
       end; [|discriminate]|]|]);
    reflexivity.
Qed.

Lemma on_test_pass_failures (w : World) (test : ref) :
  w_failures (run_world (on_test_pass test w)) = w_failures w.
Proof.
  unfold on_test_pass, mbind, M_bind, get_test, set_test.
  destruct (w_tests w !! test); reflexivity.
Qed.

Lemma stdout_not_fail_line (l : list string) :
  omap fail_line (map stdout l) = [].
Proof. induction l as [|x l IH]; [reflexivity | exact IH]. Qed.

(** One event: the counter stays the length of the failures. *)
Lemma on_event_numbers (w : World) (n : nat) (ev : event) (n' : nat)
    (outs : list Out) :
  run_res (on_event color ok CR fullTitle n ev w) = Ret (n', outs) →
  n = length (w_failures w) →
  ∃ new,
    w_failures (run_world (on_event color ok CR fullTitle n ev w))
    = (w_failures w ++ new)%list
    ∧ n' = (n + length new)%nat
    ∧ omap fail_line outs
      = imap (λ i tr, (inject_Z (Z.of_nat (n + i + 1)), fullTitle tr)) new.
Proof.
  intros Hres Hn. destruct ev as [test|test|test|test err];
    cbn [on_event] in *.
  - injection Hres as <- <-. exists []. rewrite app_nil_r.
    repeat split. cbn. lia.
  - injection Hres as <- <-. exists []. rewrite app_nil_r.
    repeat split. cbn. lia.
  - rewrite !run_bind in Hres |- *.
    pose proof (on_test_pass_failures w test) as Hf.
    destruct (run_res (on_test_pass test w)) as [[]| |]; try discriminate.
    cbn [run_world run_res run_log get_test] in *.
    destruct (w_tests (run_world (on_test_pass test w)) !! test);
      try discriminate.
    cbn in Hres. injection Hres as <- <-. exists [].
    cbn [run_world mret M_ret]. rewrite app_nil_r.
    repeat split; [exact Hf | cbn; lia |].
    rewrite omap_app, stdout_not_fail_line. reflexivity.
  - rewrite !run_bind in Hres |- *.
    pose proof (on_test_fail_failures w test err) as Hf.
    destruct (run_res (on_test_fail test err w)) as [[]| |]; try discriminate.
    cbn in Hres. injection Hres as <- <-. exists [test].
    cbn [run_world mret M_ret].
    repeat split; [now apply Hf | cbn; lia |].
    rewrite omap_app, stdout_not_fail_line. cbn.
    repeat f_equal. lia.
Qed.

Lemma run_numbers (events : list event) :
  ∀ w n n' outs,
    run_res (run color ok CR fullTitle n events w) = Ret (n', outs) →
    n = length (w_failures w) →
    ∃ new,
      w_failures (run_world (run color ok CR fullTitle n events w))
      = (w_failures w ++ new)%list
      ∧ n' = (n + length new)%nat
      ∧ omap fail_line outs
        = imap (λ i tr, (inject_Z (Z.of_nat (n + i + 1)), fullTitle tr)) new.
Proof.
  induction events as [|ev rest IH]; intros w n n' outs Hres Hn.
  - cbn in Hres. injection Hres as <- <-. exists []. cbn.
    rewrite app_nil_r. repeat split. lia.
  - cbn [run] in Hres |- *. rewrite !run_bind in Hres |- *.
    destruct (run_res (on_event color ok CR fullTitle n ev w))
      as [[n1 outs1]| |] eqn:H1; try discriminate.
    destruct (on_event_numbers w n ev n1 outs1 H1 Hn)
      as (new1 & Hf1 & Hn1 & Hl1).
    cbn [fst snd] in *.
    set (w1 := run_world (on_event color ok CR fullTitle n ev w)) in *.
    cbn [run_res run_world] in Hres |- *. rewrite run_bind in Hres |- *.
    destruct (run_res (run color ok CR fullTitle n1 rest w1))
      as [[n2 outs2]| |] eqn:H2; try discriminate.
    destruct (IH w1 n1 n2 outs2 H2) as (new2 & Hf2 & Hn2 & Hl2).
    { rewrite Hf1, length_app. lia. }
    cbn in Hres. injection Hres as <- <-.
    exists (new1 ++ new2)%list. cbn [run_world mret M_ret fst snd].
    split; [|split].
    + rewrite Hf2, Hf1. now rewrite <- app_assoc.
    + rewrite length_app. lia.
    + rewrite omap_app, Hl1, Hl2, imap_app. f_equal.
      apply imap_ext. intros i tr _. cbn. do 2 f_equal. lia.
Qed.

(** X18: the numbers the List reporter prints while the tests run are
    the positions in the failures list: in a run that starts without
    failures, the lines printed for the fail events carry, in order, the
    numbers 1, 2, ... and the titles of the entries of the failures
    list, and the counter ends as the length of that list.  (These are
    the numbers of the blocks the epilogue prints, by C7.) *)
Theorem X18_list_reporter_live_numbers (w : World) (events : list event)
    (n' : nat) (outs : list Out) :
  w_failures w = [] →
  run_res (run color ok CR fullTitle 0 events w) = Ret (n', outs) →
  n' = length (w_failures (run_world (run color ok CR fullTitle 0 events w)))
  ∧ omap fail_line outs
    = imap (λ i tr, (inject_Z (Z.of_nat i + 1), fullTitle tr))
           (w_failures (run_world (run color ok CR fullTitle 0 events w))).
Proof.
  intros Hw Hres.
  destruct (run_numbers events w 0 n' outs Hres) as (new & Hf & Hn & Hl).
  { now rewrite Hw. }
  rewrite Hf, Hw. cbn [app]. split; [lia|].
  rewrite Hl. apply imap_ext. intros i tr _. cbn [Nat.add]. do 2 f_equal. lia.
Qed.

End ListReporterProofs.

(** A witness for X18: a test passes, another fails twice. *)
Lemma X18_list_reporter_live_numbers_witness :
  ∃ n' outs,
    run_res (ListReporter.run (lib:=Demo.demoLib) Demo.plain_color "ok" [cr]
               Demo.demo_title 0
               [ListReporter.test_begin 2%positive;
                ListReporter.test_pass 2%positive;
                ListReporter.test_begin 1%positive;
                ListReporter.test_fail 1%positive 1%positive;
                ListReporter.test_fail 1%positive 2%positive]
               Demo.world0)
    = Ret (n', outs)
    ∧ n' = 2%nat
    ∧ omap fail_line outs = [(1%Q, "test 1"); (2%Q, "test 1")].
Proof.
  eexists _, _. split; [vm_compute; reflexivity|].
  destruct (X18_list_reporter_live_numbers (lib:=Demo.demoLib)
              Demo.plain_color "ok" [cr] Demo.demo_title Demo.world0
              [ListReporter.test_begin 2%positive;
               ListReporter.test_pass 2%positive;
               ListReporter.test_begin 1%positive;
               ListReporter.test_fail 1%positive 1%positive;
               ListReporter.test_fail 1%positive 2%positive]
              _ _ eq_refl ltac:(vm_compute; reflexivity)) as [Hn Hl].
  split; [exact Hn | exact Hl].
Defined.

(** ** Indentation *)

Lemma append_nil_r (s : string) : s +:+ EmptyString = s.
Proof.
  induction s as [|a s IH]; [reflexivity|]. rewrite append_cons. now rewrite IH.
Qed.

Lemma concat_nil_cons (y : string) (ys : list string) :
  String.concat EmptyString (y :: ys) = y +:+ String.concat EmptyString ys.
Proof.
  destruct ys; cbn; [now rewrite append_nil_r | now rewrite append_nil_l].
Qed.

Lemma join_map_cons (sep : string) (f : string → string) (x : string)
    (xs : list string) :
  join sep (map f (x :: xs))
  = f x +:+ String.concat EmptyString (map (λ y, sep +:+ f y) xs).
Proof.
  revert x. induction xs as [|y ys IH]; intros x.
  - cbn. now rewrite append_nil_r.
  - change (map f (x :: y :: ys)) with (f x :: map f (y :: ys)).
    rewrite join_cons by discriminate. rewrite IH.
    change (map (λ y0, sep +:+ f y0) (y :: ys))
      with ((sep +:+ f y) :: map (λ y0, sep +:+ f y0) ys).
    rewrite concat_nil_cons. now rewrite !append_assoc.
Qed.

Lemma nl_append (s : string) : nl +:+ s = String "010" s.
Proof. unfold nl. now rewrite append_cons, append_nil_l. Qed.

Lemma indent_rest_lines (ind s : string) :
  "013"%char ∉ list_ascii_of_string s →
  ∃ x xs,
    split "010"%char s = x :: xs
    ∧ indent_rest ind s
      = x +:+ String.concat EmptyString (map (λ y, nl +:+ ind +:+ y) xs).
Proof.
  induction s as [|a s IH]; intros Hcr.
  - exists EmptyString, []. split; reflexivity.
  - destruct IH as (x & xs & Hsplit & Hrest).
    { intros Hin. apply Hcr. cbn. now right. }
    cbn [split indent_rest]. unfold line_terminator.
    assert (Ha : Ascii.eqb a "013" = false).
    { apply Ascii.eqb_neq. intros ->. apply Hcr. cbn. left. }
    rewrite Ha, orb_false_r.
    destruct (Ascii.eqb a "010") eqn:Hnl.
    + apply Ascii.eqb_eq in Hnl as ->.
      exists EmptyString, (x :: xs). rewrite Hsplit. split; [reflexivity|].
      rewrite Hrest, append_nil_l.
      change (map (λ y, nl +:+ ind +:+ y) (x :: xs))
        with ((nl +:+ ind +:+ x) :: map (λ y, nl +:+ ind +:+ y) xs).
      rewrite concat_nil_cons, !append_assoc. now rewrite nl_append.
    + rewrite Hsplit. exists (String a x), xs. split; [reflexivity|].
      rewrite Hrest. now rewrite append_cons.
Qed.

(** X19: the replacement of [/^/gm] by an indent, as the listing applies
    it to the stack and the inline diff to its text, indents every line:
    for a text without carriage returns the result is the lines of the
    text, each with the indent before it, joined by newlines again. *)
Theorem X19_indent_lines_each_line (ind s : string) :
  "013"%char ∉ list_ascii_of_string s →
  indent_lines ind s
  = join nl (map (λ line, ind +:+ line) (split "010"%char s)).
Proof.
  intros Hcr. destruct (indent_rest_lines ind s Hcr) as (x & xs & -> & Hr).
  rewrite join_map_cons. unfold indent_lines. rewrite Hr.
  now rewrite append_assoc.
Qed.

(** A witness for X19: a stack of two lines. *)
Lemma X19_indent_lines_each_line_witness :
  indent_lines "  " ("Error: boom" +:+ nl +:+ "    at f")
  = "  Error: boom" +:+ nl +:+ "      at f".
Proof.
  etrans; [apply X19_indent_lines_each_line|reflexivity].
  apply (bool_decide_unpack _). vm_compute. exact I.
Defined.

(** ** The placeholders of the HTML reporter *)

Section FragmentProofs.

Variable escape : string → string.

Lemma fragment_html_cons (a : ascii) (rest : string) (args : list string) :
  a ≠ "%"%char → rest ≠ EmptyString →
  HTML.fragment_html escape (String a rest) args
  = String a <$> HTML.fragment_html escape rest args.
Proof.
  intros Ha Hr. destruct rest as [|b rest']; [congruence|].
  cbn [HTML.fragment_html].
  now rewrite (proj2 (Ascii.eqb_neq a "%") Ha).
Qed.

(** X20: [fragment] substitutes an argument once and never scans it
    again: a template that starts with a text without [%] and a
    placeholder gives that text, the argument (escaped for [%e]) and the
    markup of the rest of the template with the remaining arguments,
    whatever the argument holds, placeholders included; a template
    without [%] is left as it is. *)
Theorem X20_fragment_substitutes_once (pre post x : string)
    (args : list string) :
  "%"%char ∉ list_ascii_of_string pre →
  HTML.fragment_html escape (pre +:+ "%s" +:+ post) (x :: args)
  = (λ r, pre +:+ x +:+ r) <$> HTML.fragment_html escape post args
  ∧ HTML.fragment_html escape (pre +:+ "%e" +:+ post) (x :: args)
    = (λ r, pre +:+ escape x +:+ r) <$> HTML.fragment_html escape post args
  ∧ HTML.fragment_html escape pre args = Some pre.
Proof.
  induction pre as [|a pre IH]; intros Hp.
  - rewrite !append_nil_l. split; [|split; [|reflexivity]].
    + change ("%s" +:+ post) with (String "%" (String "s" post)).
      cbn [HTML.fragment_html]. cbn.
      destruct (HTML.fragment_html escape post args); reflexivity.
    + change ("%e" +:+ post) with (String "%" (String "e" post)).
      cbn [HTML.fragment_html]. cbn.
      destruct (HTML.fragment_html escape post args); reflexivity.
  - assert (Ha : a ≠ "%"%char) by (intros ->; apply Hp; cbn; left).
    destruct IH as (Hs & He & Hn).
    { intros Hin. apply Hp. cbn. now right. }
    rewrite !(append_cons a pre). split; [|split].
    + rewrite fragment_html_cons; [|exact Ha|].
      * rewrite Hs. destruct (HTML.fragment_html escape post args);
          cbn; [now rewrite append_cons | reflexivity].
      * destruct pre; [rewrite append_nil_l|rewrite (append_cons _ pre)];
          discriminate.
    + rewrite fragment_html_cons; [|exact Ha|].
      * rewrite He. destruct (HTML.fragment_html escape post args);
          cbn; [now rewrite append_cons | reflexivity].
      * destruct pre; [rewrite append_nil_l|rewrite (append_cons _ pre)];
          discriminate.
    + destruct pre as [|b pre]; [reflexivity|].
      rewrite fragment_html_cons; [|exact Ha|discriminate].
      now rewrite Hn.
Qed.

End FragmentProofs.

(** A witness for X20: an argument that is itself a placeholder. *)
Lemma X20_fragment_substitutes_once_witness :
  HTML.fragment_html Demo.id_escape ("<b>" +:+ "%s" +:+ "</b>") ["%e"]
  = (λ r, "<b>" +:+ "%e" +:+ r)
      <$> HTML.fragment_html Demo.id_escape "</b>" [].
Proof.
  apply (X20_fragment_substitutes_once Demo.id_escape "<b>" "</b>" "%e" []).
  apply (bool_decide_unpack _). vm_compute. exact I.
Defined.
